(** * Employee cards: a shallow embedding of [main.js]

    The development follows the sections of [main.js]: configuration,
    utility functions (slug, profile URL, vCard, file extension), the form
    page (embedded-image extraction, archive assembly), the directory and
    management pages (fan-out of record lookups) and the profile page.

    JavaScript strings are modelled by [string]: a sequence of 8-bit
    characters, read as the UTF-16 code units 0..255 (ASCII and the Latin-1
    supplement).  On that range [toLowerCase], [trim], the class [\s] and
    [encodeURIComponent] are given in full below. *)

From Stdlib Require Import Ascii String PrimFloat.
From stdpp Require Import base list strings gmap pretty.

Local Open Scope string_scope.
Local Open Scope list_scope.

#[local] Arguments String.append !s1 s2 : simpl nomatch.
#[local] Set Warnings "-clear-no-such-hyp".

(** ** JavaScript string primitives *)

Module Js.

Definition code (c : ascii) : nat := nat_of_ascii c.

(** A string is truthy when it is not empty. *)
Definition truthy_string (s : string) : bool :=
  match s with EmptyString => false | String _ _ => true end.

(** [x || d] on a string that may be [null]. *)
Definition or_default (o : option string) (d : string) : string :=
  match o with
  | Some s => if truthy_string s then s else d
  | None => d
  end.

(** The truthy content of a nullable string: [null] and [''] are falsy. *)
Definition truthy_value (o : option string) : option string :=
  match o with
  | Some s => if truthy_string s then Some s else None
  | None => None
  end.

(** White space of [String.prototype.trim] and of the regexp class [\s]
    below U+0100: TAB, LF, VT, FF, CR, SPACE and NBSP. *)
Definition is_space (c : ascii) : bool :=
  let n := code c in
  (Nat.leb 9 n && Nat.leb n 13) || Nat.eqb n 32 || Nat.eqb n 160.

(** Letters with a lower-case mapping below U+0100: A-Z, and U+00C0..U+00DE
    without the multiplication sign U+00D7. *)
Definition is_upper (c : ascii) : bool :=
  let n := code c in
  (Nat.leb 65 n && Nat.leb n 90)
  || (Nat.leb 192 n && Nat.leb n 222 && negb (Nat.eqb n 215)).

Definition is_ascii (c : ascii) : bool := Nat.ltb (code c) 128.

Definition lower_char (c : ascii) : ascii :=
  if is_upper c then ascii_of_nat (code c + 32) else c.

Fixpoint toLowerCase (s : string) : string :=
  match s with
  | EmptyString => EmptyString
  | String c r => String (lower_char c) (toLowerCase r)
  end.

Fixpoint trimStart (s : string) : string :=
  match s with
  | EmptyString => EmptyString
  | String c r => if is_space c then trimStart r else s
  end.

Fixpoint all_space (s : string) : bool :=
  match s with
  | EmptyString => true
  | String c r => is_space c && all_space r
  end.

Fixpoint trimEnd (s : string) : string :=
  match s with
  | EmptyString => EmptyString
  | String c r => if all_space s then EmptyString else String c (trimEnd r)
  end.

Definition trim (s : string) : string := trimEnd (trimStart s).

(** [s.replace(/\s+/g, r)] for a replacement [r] without [$]: every maximal
    run of white space becomes one copy of [r].  [in_run] tells whether the
    previous character belonged to the run being replaced. *)
Fixpoint replace_space_runs_from (in_run : bool) (r s : string) : string :=
  match s with
  | EmptyString => EmptyString
  | String c t =>
      if is_space c then
        if in_run then replace_space_runs_from true r t
        else r +:+ replace_space_runs_from true r t
      else String c (replace_space_runs_from false r t)
  end.

Definition replace_space_runs (r s : string) : string :=
  replace_space_runs_from false r s.

Definition startsWith (s p : string) : bool := String.prefix p s.

(** [s.split(sep)] for a separator of one character.  [cur] holds the
    characters of the current part, in reverse. *)
Fixpoint split_from (sep : ascii) (cur : string) (s : string) : list string :=
  match s with
  | EmptyString => [String.rev cur]
  | String c r =>
      if Ascii.eqb c sep then String.rev cur :: split_from sep EmptyString r
      else split_from sep (String c cur) r
  end.

Definition split (sep : ascii) (s : string) : list string :=
  split_from sep EmptyString s.

(** [lines.join(sep)]. *)
Fixpoint join (sep : string) (l : list string) : string :=
  match l with
  | [] => EmptyString
  | [x] => x
  | x :: r => x +:+ sep +:+ join sep r
  end.

(** [s.indexOf(p)]. *)
Definition indexOf (s p : string) : option nat := String.index 0 p s.

Definition hex_digit (n : nat) : ascii :=
  if Nat.ltb n 10 then ascii_of_nat (48 + n) else ascii_of_nat (55 + n).

Definition percent (byte : nat) : string :=
  String "%" (String (hex_digit (byte / 16)) (String (hex_digit (byte mod 16)) EmptyString)).

(** Characters [encodeURIComponent] leaves alone: A-Z a-z 0-9 - _ . ! ~ * ' ( ). *)
Definition uri_unreserved (c : ascii) : bool :=
  let n := code c in
  (Nat.leb 65 n && Nat.leb n 90) || (Nat.leb 97 n && Nat.leb n 122)
  || (Nat.leb 48 n && Nat.leb n 57)
  || Nat.eqb n 45 || Nat.eqb n 95 || Nat.eqb n 46 || Nat.eqb n 33
  || Nat.eqb n 126 || Nat.eqb n 42 || Nat.eqb n 39 || Nat.eqb n 40
  || Nat.eqb n 41.

(** Every other character is written as the escaped bytes of its UTF-8
    form: one byte below U+0080, two bytes from U+0080 to U+00FF. *)
Definition encode_char (c : ascii) : string :=
  let n := code c in
  if uri_unreserved c then String c EmptyString
  else if Nat.ltb n 128 then percent n
  else percent (192 + n / 64) +:+ percent (128 + n mod 64).

Fixpoint encodeURIComponent (s : string) : string :=
  match s with
  | EmptyString => EmptyString
  | String c r => encode_char c +:+ encodeURIComponent r
  end.

Definition CRLF : string := String "013" (String "010" EmptyString).

Definition dq : string := String "034" EmptyString.

End Js.

(** ** Configuration *)

Definition BASE_URL : string := "/employee-cards".

Definition FULL_BASE_URL : string :=
  "https://centerlink-technologies.github.io/employee-cards".

(** ** Records *)

(** The object [handleFormSubmit] builds and [data.json] holds.  [phone] and
    [linkedin] are [null] or a string. *)
Record employee := Employee {
  slug : string;
  firstName : string;
  lastName : string;
  title : string;
  department : string;
  email : string;
  phone : option string;
  linkedin : option string;
  headshot : string;
  bioHtml : string;
  media : list string
}.

(** ** Utility functions *)

Definition generateSlug (first last : string) : string :=
  Js.replace_space_runs "-" (Js.trim (Js.toLowerCase (first +:+ "-" +:+ last))).

Definition buildProfileUrl (slug : string) : string :=
  FULL_BASE_URL +:+ "/profile.html?person=" +:+ Js.encodeURIComponent slug.

(** [lines.push(x)]. *)
Definition push (lines : list string) (x : string) : list string := lines ++ [x].

Definition buildVcard (e : employee) : string :=
  let lines :=
    [ "BEGIN:VCARD";
      "VERSION:3.0";
      "FN:" +:+ firstName e +:+ " " +:+ lastName e;
      "N:" +:+ lastName e +:+ ";" +:+ firstName e +:+ ";;;";
      "TITLE:" +:+ title e;
      "ORG:Centerlink Technologies";
      "EMAIL:" +:+ email e ] in
  let lines :=
    match Js.truthy_value (phone e) with
    | Some p => push lines ("TEL:" +:+ p)
    | None => lines
    end in
  let profileUrl := buildProfileUrl (slug e) in
  let lines := push lines ("URL:" +:+ profileUrl) in
  let lines := push lines "END:VCARD" in
  Js.join Js.CRLF lines.

Definition getFileExtension (filename : string) : string :=
  let parts := Js.split "." filename in
  if Nat.ltb 1 (length parts) then "." +:+ List.last parts EmptyString
  else EmptyString.

(** ** Files and the DOM *)

(** A [File]: its name, its media type and its bytes (one character per
    byte). *)
Record File := MkFile {
  file_name : string;
  file_type : string;
  file_bytes : string
}.

Module Dom.

(** An [img] element as [extractMediaFromBio] reads it: the [src] property
    (the resolved address; for a [data:] address, the address itself) and
    the [title] property (empty when the attribute is absent). *)
Record img := Img {
  src : string;
  title : string
}.

End Dom.

Module Base64.

(** The forgiving-base64 decoding that [atob] performs. *)

Definition is_ascii_whitespace (c : ascii) : bool :=
  let n := Js.code c in
  Nat.eqb n 9 || Nat.eqb n 10 || Nat.eqb n 12 || Nat.eqb n 13 || Nat.eqb n 32.

Fixpoint strip (s : string) : list ascii :=
  match s with
  | EmptyString => []
  | String c r => if is_ascii_whitespace c then strip r else c :: strip r
  end.

Definition value (c : ascii) : option N :=
  let n := N_of_ascii c in
  if (65 <=? n)%N && (n <=? 90)%N then Some (n - 65)%N
  else if (97 <=? n)%N && (n <=? 122)%N then Some (n - 71)%N
  else if (48 <=? n)%N && (n <=? 57)%N then Some (n + 4)%N
  else if (n =? 43)%N then Some 62%N
  else if (n =? 47)%N then Some 63%N
  else None.

Definition is_pad (c : ascii) : bool := Ascii.eqb c "=".

(** Drops one or two trailing [=] of a sequence whose length is a multiple
    of four. *)
Definition drop_padding (l : list ascii) : list ascii :=
  if Nat.eqb (length l mod 4) 0 then
    match rev l with
    | p :: q :: r => if is_pad p then (if is_pad q then rev r else rev (q :: r)) else l
    | _ => l
    end
  else l.

Fixpoint values (l : list ascii) : option (list N) :=
  match l with
  | [] => Some []
  | c :: r =>
      match value c, values r with
      | Some v, Some vs => Some (v :: vs)
      | _, _ => None
      end
  end.

Fixpoint bytes (l : list N) : list ascii :=
  match l with
  | a :: b :: c :: d :: r =>
      let n := (((a * 64 + b) * 64 + c) * 64 + d)%N in
      ascii_of_N (n / 65536) :: ascii_of_N ((n / 256) mod 256)
        :: ascii_of_N (n mod 256) :: bytes r
  | [a; b; c] =>
      let n := (((a * 64 + b) * 64 + c) / 4)%N in
      [ascii_of_N (n / 256); ascii_of_N (n mod 256)]
  | [a; b] => [ascii_of_N ((a * 64 + b) / 16)]
  | _ => []
  end.

(** [None] stands for the [InvalidCharacterError] that [atob] throws. *)
Definition atob (data : string) : option string :=
  let l := drop_padding (strip data) in
  if Nat.eqb (length l mod 4) 1 then None
  else
    match values l with
    | Some vs => Some (string_of_list_ascii (bytes vs))
    | None => None
    end.

End Base64.

(** ** [String.prototype.replace] with a string pattern *)

(** The replacement text: [$$] is a dollar, [$&] the matched text, [$`] the
    text before the match, [$'] the text after it; with a string pattern
    there are no captures, and every other [$] stands for itself. *)
Fixpoint GetSubstitution (matched preceding following replacement : string) : string :=
  match replacement with
  | EmptyString => EmptyString
  | String d t =>
      if Ascii.eqb d "$" then
        match t with
        | String c r =>
            if Ascii.eqb c "$" then String "$" (GetSubstitution matched preceding following r)
            else if Ascii.eqb c "&" then matched +:+ GetSubstitution matched preceding following r
            else if Ascii.eqb c "`" then preceding +:+ GetSubstitution matched preceding following r
            else if Ascii.eqb c "'" then following +:+ GetSubstitution matched preceding following r
            else String d (GetSubstitution matched preceding following t)
        | EmptyString => String d EmptyString
        end
      else String d (GetSubstitution matched preceding following t)
  end.

(** [s.replace(searchValue, replaceValue)]: only the first occurrence is
    replaced; a string without the pattern is returned as it is. *)
Definition replace (s searchValue replaceValue : string) : string :=
  match Js.indexOf s searchValue with
  | None => s
  | Some pos =>
      let preceding := String.substring 0 pos s in
      let after := pos + String.length searchValue in
      let following := String.substring after (String.length s - after) s in
      preceding +:+ GetSubstitution searchValue preceding following replaceValue +:+ following
  end.

(** ** Form page *)

(** [arr[0].match(/:(.*?);/)]: the text between the leftmost colon and the
    first semicolon after it, when no line terminator lies in between. *)
Fixpoint capture_to_semicolon (s : string) : option string :=
  match s with
  | EmptyString => None
  | String c r =>
      if Ascii.eqb c ";" then Some EmptyString
      else if Ascii.eqb c "010" || Ascii.eqb c "013" then None
      else option_map (String c) (capture_to_semicolon r)
  end.

Fixpoint match_mime (s : string) : option string :=
  match s with
  | EmptyString => None
  | String c r =>
      if Ascii.eqb c ":" then
        match capture_to_semicolon r with
        | Some m => Some m
        | None => match_mime r
        end
      else match_mime r
  end.

(** The [type] a [File] is given: lower-cased when every character is
    printable ASCII, empty otherwise. *)
Definition File_type (t : string) : string :=
  let printable c := Nat.leb 32 (Js.code c) && Nat.leb (Js.code c) 126 in
  let fix all s := match s with EmptyString => true | String c r => printable c && all r end in
  if all t then Js.toLowerCase t else EmptyString.

(** [arr[i]] read as a string argument: a missing element is [undefined],
    which [atob] reads as the text "undefined". *)
Definition item_or_undefined (arr : list string) (i : nat) : string :=
  nth i arr "undefined".

(** [None] stands for a thrown exception: the [TypeError] of indexing the
    [null] of a failed match, or the error of [atob]. *)
Definition dataUrlToFile (dataUrl filename : string) : option File :=
  let arr := Js.split "," dataUrl in
  match match_mime (nth 0 arr EmptyString) with
  | None => None
  | Some mime =>
      match Base64.atob (item_or_undefined arr 1) with
      | None => None
      | Some bstr => Some (MkFile filename (File_type mime) bstr)
      end
  end.

Record bio_image := BioImage { bio_src : string; bio_file : File }.

(** [imgs] is [div.querySelectorAll('img')] for the markup. *)
Fixpoint extractMediaFromBio (imgs : list Dom.img) : option (list bio_image) :=
  match imgs with
  | [] => Some []
  | img :: rest =>
      if Js.startsWith (Dom.src img) "data:" then
        match dataUrlToFile (Dom.src img) (Js.or_default (Some (Dom.title img)) "image.gif") with
        | None => None
        | Some f =>
            match extractMediaFromBio rest with
            | None => None
            | Some media => Some (BioImage (Dom.src img) f :: media)
            end
        end
      else extractMediaFromBio rest
  end.

Record media_item := MediaItem { filename : string; file : File }.

(** The body of the [forEach] over [bioImages] in [handleFormSubmit]: the
    state is the [media] array and [bioHtmlWithLocalPaths]. *)
Definition convert_image (st : list media_item * string) (index : nat) (img : bio_image)
  : list media_item * string :=
  if Js.startsWith (bio_src img) "data:" then
    let filename :=
      "bio-image-" +:+ pretty (index + 1)
        +:+ getFileExtension (Js.or_default (Some (file_name (bio_file img))) ".gif") in
    (fst st ++ [MediaItem filename (bio_file img)], replace (snd st) (bio_src img) filename)
  else st.

Fixpoint convert_images (st : list media_item * string) (index : nat) (imgs : list bio_image)
  : list media_item * string :=
  match imgs with
  | [] => st
  | img :: rest => convert_images (convert_image st index img) (S index) rest
  end.

(** ** Images put in with the editor *)

Module FileReader.

(** The base64 alphabet. *)
Definition digit (v : N) : ascii :=
  if (v <? 26)%N then ascii_of_N (v + 65)
  else if (v <? 52)%N then ascii_of_N (v + 71)
  else if (v <? 62)%N then ascii_of_N (v - 4)
  else if (v =? 62)%N then "+"%char
  else "/"%char.

(** The base64 form of a sequence of bytes, padded to a multiple of four
    characters. *)
Fixpoint encode (l : list ascii) : list ascii :=
  match l with
  | a :: b :: c :: r =>
      let n := (N_of_ascii a * 65536 + N_of_ascii b * 256 + N_of_ascii c)%N in
      digit (n / 262144) :: digit ((n / 4096) mod 64) :: digit ((n / 64) mod 64)
        :: digit (n mod 64) :: encode r
  | [a; b] =>
      let n := ((N_of_ascii a * 256 + N_of_ascii b) * 4)%N in
      [digit (n / 4096); digit ((n / 64) mod 64); digit (n mod 64); "="%char]
  | [a] =>
      let n := (N_of_ascii a * 16)%N in
      [digit (n / 64); digit (n mod 64); "="%char; "="%char]
  | [] => []
  end.

(** [reader.readAsDataURL(file)]: the address handed to [onload].  A file
    without type is announced as [application/octet-stream]. *)
Definition readAsDataURL (file : File) : string :=
  "data:"
    +:+ (if Js.truthy_string (file_type file) then file_type file
         else "application/octet-stream")
    +:+ ";base64,"
    +:+ string_of_list_ascii (encode (list_ascii_of_string (file_bytes file))).

End FileReader.

(** The image that the handler of [bioImageUpload] in [initBioEditor]
    appends to the editor for a chosen file: its address is the result of
    the reader, its title the name of the file. *)
Definition uploaded_image (file : File) : Dom.img :=
  Dom.Img (FileReader.readAsDataURL file) (file_name file).

(** ** Archive *)

(** Modelled from the spec: the packing capability (JSZip), which is not part
    of the sources: it packs named byte streams under named folders into one
    retrievable file.  An archive maps each top-level folder to its entries;
    [folder.file(name, data)] sets the entry [name] of the folder, replacing
    an earlier entry of that name. *)
Inductive entry :=
| TextEntry (text : string)
| BlobEntry (blob : File).

(** Modelled from the spec: [zip.folder(name)] makes the top-level folder
    [name] when the archive has none of that name. *)
Definition zip_folder (name : string) (zip : gmap string (gmap string entry))
  : gmap string (gmap string entry) :=
  match zip !! name with
  | Some _ => zip
  | None => <[name := ∅]> zip
  end.

(** Modelled from the spec: [folder.file(name, data)], the entry [name] of
    the folder is set to [data]. *)
Definition folder_file (folder name : string) (data : entry)
    (zip : gmap string (gmap string entry)) : gmap string (gmap string entry) :=
  <[folder := <[name := data]> (default ∅ (zip !! folder))]> zip.

(** [JSON.stringify(employeeData, null, 2)]. *)
Module Json.

Definition backslash : ascii := "092".

Definition hex4 (n : nat) : string :=
  let d k := String (Ascii.ascii_of_nat (if Nat.ltb k 10 then 48 + k else 87 + k)) EmptyString in
  "00" +:+ d (n / 16) +:+ d (n mod 16).

Definition quote_char (c : ascii) : string :=
  let n := Js.code c in
  if Nat.eqb n 34 then String backslash Js.dq
  else if Nat.eqb n 92 then String backslash (String backslash EmptyString)
  else if Nat.eqb n 8 then String backslash "b"
  else if Nat.eqb n 9 then String backslash "t"
  else if Nat.eqb n 10 then String backslash "n"
  else if Nat.eqb n 12 then String backslash "f"
  else if Nat.eqb n 13 then String backslash "r"
  else if Nat.ltb n 32 then String backslash ("u" +:+ hex4 n)
  else String c EmptyString.

Fixpoint quote_body (s : string) : string :=
  match s with
  | EmptyString => EmptyString
  | String c r => quote_char c +:+ quote_body r
  end.

Definition quote (s : string) : string := Js.dq +:+ quote_body s +:+ Js.dq.

Definition nullable (o : option string) : string :=
  match o with Some s => quote s | None => "null" end.

Definition LF : string := String "010" EmptyString.

Definition array (items : list string) : string :=
  match items with
  | [] => "[]"
  | _ =>
      "[" +:+ LF
        +:+ Js.join ("," +:+ LF) (map (fun s => "    " +:+ quote s) items)
        +:+ LF +:+ "  ]"
  end.

Definition member (key value : string) : string :=
  "  " +:+ quote key +:+ ": " +:+ value.

Definition stringify (e : employee) : string :=
  "{" +:+ LF
    +:+ Js.join ("," +:+ LF)
          [ member "slug" (quote (slug e));
            member "firstName" (quote (firstName e));
            member "lastName" (quote (lastName e));
            member "title" (quote (title e));
            member "department" (quote (department e));
            member "email" (quote (email e));
            member "phone" (nullable (phone e));
            member "linkedin" (nullable (linkedin e));
            member "headshot" (quote (headshot e));
            member "bioHtml" (quote (bioHtml e));
            member "media" (array (media e)) ]
    +:+ LF +:+ "}".

End Json.

(** The state of [createEmployeeZip] while it adds the media: the archive,
    [mediaProcessed], and the archive handed to [generateAsync] once the
    counter reaches [totalMedia] ([None] before that). *)
Record zip_state := ZipState {
  zip_files : gmap string (gmap string entry);
  mediaProcessed : nat;
  generated : option (gmap string (gmap string entry))
}.

Definition add_media (slug : string) (totalMedia : nat) (st : zip_state) (m : media_item)
  : zip_state :=
  let files := folder_file slug (filename m) (BlobEntry (file m)) (zip_files st) in
  let processed := S (mediaProcessed st) in
  if Nat.eqb processed totalMedia
  then ZipState files processed (Some files)
  else ZipState files processed (generated st).

(** The archive that [createEmployeeZip] hands to [generateAsync], and
    with which the returned promise resolves once the library has packed
    it; [None] when [generateAsync] is never called.  A rejection of the
    library is passed on to the caller, see [handleFormSubmit_settled]. *)
Definition createEmployeeZip (slug : string) (employeeData : employee) (vcard : string)
    (headshotFile : File) (mediaFiles : list media_item)
  : option (gmap string (gmap string entry)) :=
  let zip := zip_folder slug ∅ in
  let zip := folder_file slug "data.json" (TextEntry (Json.stringify employeeData)) zip in
  let zip := folder_file slug "contact.vcf" (TextEntry vcard) zip in
  let zip := folder_file slug (headshot employeeData) (BlobEntry headshotFile) zip in
  let totalMedia := length mediaFiles in
  if Nat.eqb totalMedia 0 then Some zip
  else generated (fold_left (add_media slug totalMedia) mediaFiles (ZipState zip 0 None)).

(** What the form holds when it is submitted.  [bioEditor] is [None] when
    the element is missing; [bioImages] are the [img] elements of the
    trimmed markup of the editor. *)
Record form := Form {
  jszip_loaded : bool;
  form_firstName : string;
  form_lastName : string;
  form_email : string;
  form_phone : string;
  form_title : string;
  form_department : string;
  form_linkedin : string;
  bioEditor : option string;
  bioImages : list Dom.img;
  headshot_files : list File
}.

(** How a submission ends: with a message shown by [showError], with an
    error that nothing catches, with a promise that never settles, or with
    the arguments that [showFormPreview] is called with. *)
Inductive submit_outcome :=
| SubmitError (message : string)
| SubmitThrows
| SubmitPending
| SubmitPreview (slug profileUrl vcard : string)
    (zip : gmap string (gmap string entry)) (employeeData : employee)
    (headshotFile : File) (media : list media_item).

(** [handleFormSubmit] with a library that packs the archive: the handler
    given to [then] runs on the archive. *)
Definition handleFormSubmit (f : form) : submit_outcome :=
  if negb (jszip_loaded f) then
    SubmitError "Error: ZIP library is not loaded. Please ensure jszip.min.js is properly loaded."
  else
    let firstName := Js.trim (form_firstName f) in
    let lastName := Js.trim (form_lastName f) in
    let email := Js.trim (form_email f) in
    let phone := Js.trim (form_phone f) in
    let title := Js.trim (form_title f) in
    let department := Js.trim (form_department f) in
    let linkedin := Js.trim (form_linkedin f) in
    let bioHtml := match bioEditor f with Some html => Js.trim html | None => EmptyString end in
    if negb (Js.truthy_string firstName && Js.truthy_string lastName && Js.truthy_string email
             && Js.truthy_string title && Js.truthy_string department
             && Js.truthy_string bioHtml) then
      SubmitError "Please fill in all required fields, including a bio."
    else
      match headshot_files f with
      | [] => SubmitError "Please upload a headshot image."
      | headshotFile :: _ =>
          let slug := generateSlug firstName lastName in
          let headshotExt := getFileExtension (file_name headshotFile) in
          let headshotFilename := "headshot" +:+ headshotExt in
          match extractMediaFromBio (bioImages f) with
          | None => SubmitThrows
          | Some bioImages =>
              let '(media, bioHtmlWithLocalPaths) := convert_images ([], bioHtml) 0 bioImages in
              let employeeData :=
                {| slug := slug;
                   firstName := firstName;
                   lastName := lastName;
                   title := title;
                   department := department;
                   email := email;
                   phone := Js.truthy_value (Some phone);
                   linkedin := Js.truthy_value (Some linkedin);
                   headshot := headshotFilename;
                   bioHtml := bioHtmlWithLocalPaths;
                   media := map filename media |} in
              let vcard := buildVcard employeeData in
              let profileUrl := buildProfileUrl slug in
              match createEmployeeZip slug employeeData vcard headshotFile media with
              | Some zip => SubmitPreview slug profileUrl vcard zip employeeData headshotFile media
              | None => SubmitPending
              end
          end
      end.

(** Modelled from the spec: what the packing capability answers to
    [generateAsync].  It packs the archive, or it rejects with an error that
    carries a message. *)
Inductive packing :=
| Packs
| PackingError (message : string).

(** [handleFormSubmit] with the two handlers that it chains on the promise
    of [createEmployeeZip]: the preview when the archive is packed, the
    message of the error when the library rejects. *)
Definition handleFormSubmit_settled (library : packing) (f : form) : submit_outcome :=
  match handleFormSubmit f, library with
  | SubmitPreview _ _ _ _ _ _ _, PackingError message =>
      SubmitError ("Error creating ZIP: " +:+ message)
  | outcome, _ => outcome
  end.

(** The texts of the list [zipContents] that [showFormPreview] fills. *)
Definition showFormPreview_items (slug : string) (employeeData : employee)
    (mediaFiles : list media_item) : list string :=
  fold_left (fun items media => push items (slug +:+ "/" +:+ filename media)) mediaFiles
    [slug +:+ "/data.json"; slug +:+ "/contact.vcf"; slug +:+ "/" +:+ headshot employeeData].

(** ** Fetched values *)

(** A parsed JSON text.  Numbers are IEEE doubles, as in JavaScript;
    strings are the strings of this development. *)
#[local] Unset Elimination Schemes.
Inductive json :=
| JNull
| JBool (b : bool)
| JNumber (x : float)
| JString (s : string)
| JArray (items : list json)
| JObject (members : list (string * json)).
#[local] Set Elimination Schemes.

(** [ToBoolean]: [null], [false], zero of either sign, NaN and the empty
    string are falsy; arrays and objects are truthy. *)
Definition truthy (v : json) : bool :=
  match v with
  | JNull => false
  | JBool b => b
  | JNumber x => negb (PrimFloat.is_zero x || PrimFloat.is_nan x)
  | JString s => Js.truthy_string s
  | JArray _ => true
  | JObject _ => true
  end.

(** The member named [key] among the members of a parsed object: the last
    one, when the text repeats the key. *)
Fixpoint own_property (members : list (string * json)) (key : string) : option json :=
  match members with
  | [] => None
  | (k, v) :: rest =>
      match own_property rest key with
      | Some w => Some w
      | None => if String.eqb k key then Some v else None
      end
  end.

(** [v.key] for a value other than [null] and one of the keys the pages
    read in a record ([slug], [headshot], [firstName], [lastName], [title],
    [department], [email], [phone], [linkedin], [bioHtml], [media]): the
    member of a parsed object, and [undefined] ([None]) for an object
    without that member and for a string, a number, a boolean or an array,
    since no prototype has a property of one of these names. *)
Definition property (v : json) (key : string) : option json :=
  match v with
  | JObject members => own_property members key
  | _ => None
  end.

(** Whether the conversion of a value to a string (or to a primitive)
    returns.  It throws a [TypeError] for a parsed object with a member
    named [toString]: the member is not a function, it hides the inherited
    method, and [valueOf] gives back the object.  An array is joined, so its
    conversion throws when the conversion of one of its elements does. *)
Fixpoint stringifies (v : json) : bool :=
  match v with
  | JArray items => forallb stringifies items
  | JObject members =>
      match own_property members "toString" with
      | Some _ => false
      | None => true
      end
  | _ => true
  end.

(** Whether [v.key] can be concatenated to a string or assigned to a text
    property of an element; [undefined] can. *)
Definition converts (v : json) (key : string) : bool :=
  match property v key with
  | Some w => stringifies w
  | None => true
  end.

(** How a call ends. *)
Inductive completion :=
| Returns
| Throws.

(** What the host answers to [fetch(url)]: the request itself fails, or the
    response is not [ok], or its body is not JSON, or its body parses. *)
Inductive response :=
| NetworkError
| HttpError (status : nat)
| Malformed
| Body (v : json).

Inductive error :=
| FetchError
| Error (message : string)
| SyntaxError
| TypeError.

Inductive settled :=
| Fulfilled (v : json)
| Rejected (e : error).

Definition fetchJson (url : string) (r : response) : settled :=
  match r with
  | NetworkError => Rejected FetchError
  | HttpError status =>
      Rejected (Error ("Failed to fetch " +:+ url +:+ ": " +:+ pretty status))
  | Malformed => Rejected SyntaxError
  | Body v => Fulfilled v
  end.

(** ** Arrays with holes *)

(** [a[i] = x]: inside the array the slot is overwritten; beyond its end the
    array grows, and the slots in between are holes ([None]). *)
Definition array_set {A} (a : list (option A)) (i : nat) (x : A) : list (option A) :=
  if Nat.ltb i (length a) then <[i := Some x]> a
  else a ++ replicate (i - length a) None ++ [Some x].

(** [a.filter(p)]: holes are skipped, the kept elements stay in index order. *)
Definition array_filter {A} (p : A -> bool) (a : list (option A)) : list A :=
  omap (fun c => match c with
                 | Some x => if p x then Some x else None
                 | None => None
                 end) a.

Definition record_url (slug : string) : string :=
  BASE_URL +:+ "/" +:+ slug +:+ "/data.json".

(** ** Directory page *)

(** What the page shows: the loading message, the empty message, the grid
    with the cards of a list, or none of them. *)
Inductive directory_view :=
| DirectoryLoading
| DirectoryEmpty
| DirectoryGrid (employees : list json)
| DirectoryBlank.

(** The variables of [loadDirectory] and what the page shows.
    [render_calls] lists the arguments [renderDirectoryCards] was called
    with, [console] the slugs reported by [console.error]. *)
Record directory_state := DirectoryState {
  cards : list (option json);
  loaded : nat;
  failed : nat;
  console : list string;
  render_calls : list (list json);
  view : directory_view
}.

Definition showDirectoryEmpty (st : directory_state) : directory_state :=
  DirectoryState (cards st) (loaded st) (failed st) (console st) (render_calls st)
    DirectoryEmpty.

(** Whether [createEmployeeCard] returns the card of a truthy value: it
    throws when the slug, the headshot, a name, the title or the department
    that it writes into the card cannot be converted to a string.  The page
    is taken to hold the elements that the code looks up; on the strings of
    this development [encodeURIComponent] always returns. *)
Definition createEmployeeCard (employee : json) : bool :=
  forallb (converts employee)
    ["slug"; "headshot"; "firstName"; "lastName"; "title"; "department"].

(** [renderDirectoryCards] records its argument and hides the loading
    message; it shows the empty directory for an empty list, and the grid
    once every card is built.  When a card cannot be built it throws with
    the grid still hidden. *)
Definition renderDirectoryCards (employees : list json) (st : directory_state)
  : directory_state * completion :=
  let st := DirectoryState (cards st) (loaded st) (failed st) (console st)
              (render_calls st ++ [employees]) (view st) in
  match employees with
  | [] => (showDirectoryEmpty st, Returns)
  | _ =>
      if forallb createEmployeeCard employees
      then (DirectoryState (cards st) (loaded st) (failed st) (console st) (render_calls st)
              (DirectoryGrid employees), Returns)
      else (DirectoryState (cards st) (loaded st) (failed st) (console st) (render_calls st)
              DirectoryBlank, Throws)
  end.

(** The handler given to [catch] for the lookup of [slug]; an error that
    the renderer throws here is handled by nothing. *)
Definition directory_catch (EMPLOYEE_SLUGS : list string) (slug : string)
    (st : directory_state) : directory_state :=
  let st := DirectoryState (cards st) (loaded st) (S (failed st))
              (console st ++ ["Failed to load " +:+ slug]) (render_calls st) (view st) in
  if Nat.eqb (loaded st + failed st) (length EMPLOYEE_SLUGS)
  then fst (renderDirectoryCards (array_filter truthy (cards st)) st)
  else st.

(** The two handlers of the lookup of [slug] at [index], run when that
    lookup settles.  [catch] is chained after [then]: it handles a failed
    lookup, and also an error thrown by the handler of a resolved one. *)
Definition directory_settle (EMPLOYEE_SLUGS : list string) (outcome : nat -> response)
    (st : directory_state) (index : nat) : directory_state :=
  match EMPLOYEE_SLUGS !! index with
  | None => st
  | Some slug =>
      match fetchJson (record_url slug) (outcome index) with
      | Fulfilled employeeData =>
          let st := DirectoryState (array_set (cards st) index employeeData)
                      (S (loaded st)) (failed st) (console st) (render_calls st) (view st) in
          if Nat.eqb (loaded st + failed st) (length EMPLOYEE_SLUGS)
          then
            match renderDirectoryCards (array_filter truthy (cards st)) st with
            | (st, Returns) => st
            | (st, Throws) => directory_catch EMPLOYEE_SLUGS slug st
            end
          else st
      | Rejected _ => directory_catch EMPLOYEE_SLUGS slug st
      end
  end.

(** [loadDirectory] followed by the completions of the lookups in the order
    [schedule]: lookup [i] answers [outcome i]. *)
Definition loadDirectory (EMPLOYEE_SLUGS : list string) (outcome : nat -> response)
    (schedule : list nat) : directory_state :=
  match EMPLOYEE_SLUGS with
  | [] => showDirectoryEmpty (DirectoryState [] 0 0 [] [] DirectoryLoading)
  | _ =>
      fold_left (directory_settle EMPLOYEE_SLUGS outcome) schedule
        (DirectoryState [] 0 0 [] [] DirectoryLoading)
  end.

(** ** Management page *)

Record manage_state := ManageState {
  employees : list (option json);
  manage_loaded : nat;
  manage_console : list string;
  manage_render_calls : list (list json);
  manage_view : directory_view
}.

Definition showManageEmpty (st : manage_state) : manage_state :=
  ManageState (employees st) (manage_loaded st) (manage_console st)
    (manage_render_calls st) DirectoryEmpty.

(** Whether [createManageItem] returns the item of a truthy value: it
    throws when a name, the slug, the title or the department cannot be
    converted to a string. *)
Definition createManageItem (employee : json) : bool :=
  forallb (converts employee) ["firstName"; "lastName"; "slug"; "title"; "department"].

(** [renderManageList] records its argument and hides the loading message;
    it shows the empty message for an empty list, and the list once every
    item is built.  When an item cannot be built it throws with the list
    still hidden. *)
Definition renderManageList (emps : list json) (st : manage_state)
  : manage_state * completion :=
  let st := ManageState (employees st) (manage_loaded st) (manage_console st)
              (manage_render_calls st ++ [emps]) (manage_view st) in
  match emps with
  | [] => (showManageEmpty st, Returns)
  | _ =>
      if forallb createManageItem emps
      then (ManageState (employees st) (manage_loaded st) (manage_console st)
              (manage_render_calls st) (DirectoryGrid emps), Returns)
      else (ManageState (employees st) (manage_loaded st) (manage_console st)
              (manage_render_calls st) DirectoryBlank, Throws)
  end.

(** The handler given to [catch] for the lookup of [slug]. *)
Definition manage_catch (EMPLOYEE_SLUGS : list string) (slug : string) (st : manage_state)
  : manage_state :=
  let st := ManageState (employees st) (S (manage_loaded st))
              (manage_console st ++ ["Failed to load " +:+ slug])
              (manage_render_calls st) (manage_view st) in
  if Nat.eqb (manage_loaded st) (length EMPLOYEE_SLUGS)
  then fst (renderManageList (array_filter truthy (employees st)) st)
  else st.

(** The two handlers of the lookup of [slug] at [index]; as in the
    directory, [catch] is chained after [then]. *)
Definition manage_settle (EMPLOYEE_SLUGS : list string) (outcome : nat -> response)
    (st : manage_state) (index : nat) : manage_state :=
  match EMPLOYEE_SLUGS !! index with
  | None => st
  | Some slug =>
      match fetchJson (record_url slug) (outcome index) with
      | Fulfilled employeeData =>
          let st := ManageState (array_set (employees st) index employeeData)
                      (S (manage_loaded st)) (manage_console st) (manage_render_calls st)
                      (manage_view st) in
          if Nat.eqb (manage_loaded st) (length EMPLOYEE_SLUGS)
          then
            match renderManageList (array_filter truthy (employees st)) st with
            | (st, Returns) => st
            | (st, Throws) => manage_catch EMPLOYEE_SLUGS slug st
            end
          else st
      | Rejected _ => manage_catch EMPLOYEE_SLUGS slug st
      end
  end.

Definition loadManageList (EMPLOYEE_SLUGS : list string) (outcome : nat -> response)
    (schedule : list nat) : manage_state :=
  match EMPLOYEE_SLUGS with
  | [] => showManageEmpty (ManageState [] 0 [] [] DirectoryLoading)
  | _ =>
      fold_left (manage_settle EMPLOYEE_SLUGS outcome) schedule
        (ManageState [] 0 [] [] DirectoryLoading)
  end.

(** ** Profile page *)

Inductive profile_view :=
| ProfileLoading
| ProfileShown (employee : json)
| ProfileError (message : string).

(** The addresses fetched so far and what the page shows. *)
Record profile_state := ProfileState {
  fetches : list string;
  shown : profile_view
}.

(** [new URLSearchParams(window.location.search).get(param)] on the parsed
    pairs of the query string: the value of the first pair named [param]. *)
Fixpoint getQueryParam (search : list (string * string)) (param : string) : option string :=
  match search with
  | [] => None
  | (k, v) :: rest => if String.eqb k param then Some v else getQueryParam rest param
  end.

Definition showProfileError (message : string) (st : profile_state) : profile_state :=
  ProfileState (fetches st) (ProfileError message).

(** Numbers written in strings, as the comparison [length > 0] reads
    them. *)
Module Number.

Definition is_decimal (c : ascii) : bool :=
  Nat.leb 48 (Js.code c) && Nat.leb (Js.code c) 57.

Definition is_binary (c : ascii) : bool :=
  Nat.leb 48 (Js.code c) && Nat.leb (Js.code c) 49.

Definition is_octal (c : ascii) : bool :=
  Nat.leb 48 (Js.code c) && Nat.leb (Js.code c) 55.

Definition is_hex (c : ascii) : bool :=
  is_decimal c || (Nat.leb 65 (Js.code c) && Nat.leb (Js.code c) 70)
  || (Nat.leb 97 (Js.code c) && Nat.leb (Js.code c) 102).

Fixpoint all (p : ascii -> bool) (s : string) : bool :=
  match s with
  | EmptyString => true
  | String c r => p c && all p r
  end.

(** The longest prefix made of characters of a class, and what follows. *)
Fixpoint span (p : ascii -> bool) (s : string) : string * string :=
  match s with
  | EmptyString => (EmptyString, EmptyString)
  | String c r =>
      if p c then let '(a, b) := span p r in (String c a, b)
      else (EmptyString, s)
  end.

Fixpoint value (acc : Z) (digits : string) : Z :=
  match digits with
  | EmptyString => acc
  | String c r => value (acc * 10 + Z.of_nat (Js.code c - 48)) r
  end.

(** Digits of a class, at least one, that are not all [0]. *)
Definition nonzero_digits (p : ascii -> bool) (digits : string) : bool :=
  Js.truthy_string digits && all p digits && negb (all (Ascii.eqb "0") digits).

(** A literal in base 16, 8 or 2: the class of its digits and the digits. *)
Definition radix_literal (s : string) : option ((ascii -> bool) * string) :=
  match s with
  | String z (String x digits) =>
      if Ascii.eqb z "0" then
        if Ascii.eqb x "x" || Ascii.eqb x "X" then Some (is_hex, digits)
        else if Ascii.eqb x "o" || Ascii.eqb x "O" then Some (is_octal, digits)
        else if Ascii.eqb x "b" || Ascii.eqb x "B" then Some (is_binary, digits)
        else None
      else None
  | _ => None
  end.

(** The exponent that ends a decimal literal: none, or [e] or [E], an
    optional sign and at least one digit. *)
Definition exponent (s : string) : option Z :=
  match s with
  | EmptyString => Some 0%Z
  | String c r =>
      if Ascii.eqb c "e" || Ascii.eqb c "E" then
        let '(negative, digits) :=
          match r with
          | EmptyString => (false, r)
          | String sign d =>
              if Ascii.eqb sign "-" then (true, d)
              else if Ascii.eqb sign "+" then (false, d)
              else (false, r)
          end in
        if Js.truthy_string digits && all is_decimal digits
        then Some (if negative then (- value 0 digits)%Z else value 0 digits)
        else None
      else None
  end.

(** Whether an unsigned decimal literal denotes a number that is above zero
    once rounded to a double: its exact value exceeds the half of the least
    positive double. *)
Definition decimal_exceeds_zero (s : string) : bool :=
  let '(whole, r) := span is_decimal s in
  let '(fraction, r) :=
    match r with
    | EmptyString => (EmptyString, r)
    | String c r' => if Ascii.eqb c "." then span is_decimal r' else (EmptyString, r)
    end in
  if Js.truthy_string whole || Js.truthy_string fraction then
    match exponent r with
    | Some e =>
        let m := value 0 (whole +:+ fraction) in
        let e := (e - Z.of_nat (String.length fraction))%Z in
        Z.ltb 0 m && (Z.leb 0 e || Z.ltb (10 ^ (- e)) (m * 2 ^ 1075))
    | None => false
    end
  else false.

(** Whether the number that [ToNumber] reads in a string is above zero.
    White space around the literal is skipped; a text that is no literal
    reads as NaN, the empty text as zero. *)
Definition exceeds_zero (s : string) : bool :=
  let s := Js.trim s in
  match radix_literal s with
  | Some (p, digits) => nonzero_digits p digits
  | None =>
      match s with
      | EmptyString => false
      | String sign r =>
          if Ascii.eqb sign "-" then false
          else
            let s := if Ascii.eqb sign "+" then r else s in
            String.eqb s "Infinity" || decimal_exceeds_zero s
      end
  end.

End Number.

(** [v > 0] for a fetched value: [None] when the conversion of the value to
    a number throws.  An array is converted through the text of its
    elements joined by commas. *)
Fixpoint exceeds_zero (v : json) : option bool :=
  match v with
  | JNull => Some false
  | JBool b => Some b
  | JNumber x => Some (PrimFloat.ltb 0 x)
  | JString s => Some (Number.exceeds_zero s)
  | JArray items =>
      if forallb stringifies items then
        match items with
        | [item] =>
            match item with
            | JNull | JBool _ | JObject _ => Some false
            | _ => exceeds_zero item
            end
        | _ => Some false
        end
      else None
  | JObject _ => if stringifies v then Some false else None
  end.

(** Whether the part of [renderProfile] that fills the media gallery
    returns, for the value of [employee.media] ([None] for [undefined]).
    The gallery is filled when the value is truthy and its [length] is above
    zero: the elements of an array are then written into addresses, and a
    value that is no array has no method [forEach]. *)
Definition renderProfile_gallery (media : option json) : bool :=
  match media with
  | Some (JArray []) => true
  | Some (JArray items) => forallb stringifies items
  | Some (JString s) => negb (Js.truthy_string s)
  | Some (JObject members) =>
      match own_property members "length" with
      | Some length =>
          match exceeds_zero length with
          | Some false => true
          | _ => false
          end
      | None => true
      end
  | _ => true
  end.

(** The view [renderProfile] paints for a fetched value, [None] when it
    throws: reading a property of [null] throws, and so does a headshot
    address, a name, a title, a department, an email, a phone, a LinkedIn
    address, a bio or a media name that cannot be converted to a string.
    The handler that [loadProfile] chains after it catches that error as it
    catches a failed lookup.  The page is taken to hold the elements that
    the code looks up.  Modelled from the spec: the scannable code, drawn
    by a library that is not part of the sources, is rendered for every
    profile address. *)
Definition renderProfile (employee : json) : option profile_view :=
  match employee with
  | JNull => None
  | _ =>
      if forallb (converts employee)
           ["slug"; "headshot"; "firstName"; "lastName"; "title"; "department"; "email"]
         && match property employee "phone" with
            | Some phone => if truthy phone then stringifies phone else true
            | None => true
            end
         && match property employee "linkedin" with
            | Some linkedin => if truthy linkedin then stringifies linkedin else true
            | None => true
            end
         && converts employee "bioHtml"
         && renderProfile_gallery (property employee "media")
      then Some (ProfileShown employee)
      else None
  end.

(** The [src] attribute of one image of the bio after the loop of
    [renderProfile] over [bio.querySelectorAll('img')]; [src] is what
    [img.getAttribute('src')] returns, [None] for [null]. *)
Definition rewrite_image (slug : string) (src : option string) : option string :=
  match src with
  | Some s =>
      if Js.truthy_string s && negb (Js.startsWith s "http")
      then Some (BASE_URL +:+ "/" +:+ slug +:+ "/" +:+ s)
      else Some s
  | None => None
  end.

(** The [src] attributes of the images of the bio, in document order, after
    that loop; [srcs] are the attributes before it. *)
Definition renderProfile_bio (slug : string) (srcs : list (option string))
  : list (option string) :=
  map (rewrite_image slug) srcs.

Definition loadProfile (server : string -> response) (slug : string) (st : profile_state)
  : profile_state :=
  let dataUrl := record_url slug in
  let st := ProfileState (fetches st ++ [dataUrl]) ProfileLoading in
  match fetchJson dataUrl (server dataUrl) with
  | Fulfilled employeeData =>
      match renderProfile employeeData with
      | Some v => ProfileState (fetches st) v
      | None => showProfileError ("Employee not found: " +:+ slug) st
      end
  | Rejected _ => showProfileError ("Employee not found: " +:+ slug) st
  end.

Definition initProfilePage (search : list (string * string)) (server : string -> response)
  : profile_state :=
  let st := ProfileState [] ProfileLoading in
  match Js.truthy_value (getQueryParam search "person") with
  | None => showProfileError "No employee specified. Use ?person={slug}" st
  | Some person => loadProfile server person st
  end.

(** * Vocabulary of the properties *)

Fixpoint every (P : ascii -> bool) (s : string) : bool :=
  match s with
  | EmptyString => true
  | String c r => P c && every P r
  end.

Definition no_space (s : string) : bool := every (fun c => negb (Js.is_space c)) s.

(** A text that does not start with white space. *)
Definition no_lead (s : string) : bool :=
  match s with
  | EmptyString => true
  | String c _ => negb (Js.is_space c)
  end.

(** The words of a text: its maximal runs of characters that are not white
    space, in order.  A character that is not white space starts a word of
    its own when white space follows, and extends the first word of the
    rest otherwise. *)
Fixpoint words (s : string) : list string :=
  match s with
  | EmptyString => []
  | String c r =>
      if Js.is_space c then words r
      else
        match words r with
        | [] => [String c EmptyString]
        | w :: ws =>
            if no_lead r then String c w :: ws else String c EmptyString :: w :: ws
        end
  end.

(** Lower-case ASCII letters and the hyphen. *)
Definition is_slug_char (c : ascii) : bool :=
  let n := Js.code c in (Nat.leb 97 n && Nat.leb n 122) || Nat.eqb n 45.

(** ASCII letters, the hyphen and ASCII white space. *)
Definition is_name_char (c : ascii) : bool :=
  let n := Js.code c in
  (Nat.leb 65 n && Nat.leb n 90) || (Nat.leb 97 n && Nat.leb n 122)
  || Nat.eqb n 45 || (Nat.leb 9 n && Nat.leb n 13) || Nat.eqb n 32.

(** What survives in a slug: neither white space nor a letter that has a
    lower-case form. *)
Definition is_lowered (c : ascii) : bool :=
  negb (Js.is_upper c) && negb (Js.is_space c).

Ltac by_cases_on_char c :=
  destruct c as [[] [] [] [] [] [] [] []]; vm_compute; try reflexivity; try discriminate; auto.

(** The element stored at an index; a hole and an index past the end both
    read as nothing. *)
Definition slot {A} (a : list (option A)) (i : nat) : option A :=
  match a !! i with
  | Some (Some x) => Some x
  | _ => None
  end.

(** The record a lookup resolves to, if it does. *)
Definition fulfilled (r : response) : option json :=
  match r with
  | Body v => Some v
  | _ => None
  end.

(** The successfully resolved records, in the index order of the
    identifier sequence. *)
Definition resolved (EMPLOYEE_SLUGS : list string) (outcome : nat -> response) : list json :=
  omap (fun i => fulfilled (outcome i)) (seq 0 (length EMPLOYEE_SLUGS)).

(** What the page shows for a rendered list. *)
Definition shown_list (l : list json) : directory_view :=
  match l with
  | [] => DirectoryEmpty
  | _ => DirectoryGrid l
  end.

(** The message [console.error] gets when lookup [i] fails. *)
Definition failure_report (EMPLOYEE_SLUGS : list string) (outcome : nat -> response)
    (i : nat) : option string :=
  match fulfilled (outcome i) with
  | Some _ => None
  | None => (fun slug => "Failed to load " +:+ slug) <$> EMPLOYEE_SLUGS !! i
  end.

Definition directory_start : directory_state :=
  DirectoryState [] 0 0 [] [] DirectoryLoading.

(** The page after [loadDirectory] and the completions [done], for a
    non-empty identifier sequence. *)
Definition directory_run (EMPLOYEE_SLUGS : list string) (outcome : nat -> response)
    (done : list nat) : directory_state :=
  fold_left (directory_settle EMPLOYEE_SLUGS outcome) done directory_start.

(** What the page shows once the renderer was given a list: the list, or
    nothing when a card of the list cannot be built. *)
Definition painted (builds : json -> bool) (l : list json) : directory_view :=
  if forallb builds l then shown_list l else DirectoryBlank.

(** What is logged on top of the failure reports: when the renderer throws
    in the handler of a resolved lookup, which is the one that settled last,
    the chained handler reports that lookup. *)
Definition render_report (builds : json -> bool) (EMPLOYEE_SLUGS : list string)
    (outcome : nat -> response) (schedule : list nat) : list string :=
  if forallb builds (List.filter truthy (resolved EMPLOYEE_SLUGS outcome)) then []
  else
    match last schedule with
    | Some i =>
        match fulfilled (outcome i), EMPLOYEE_SLUGS !! i with
        | Some _, Some slug => ["Failed to load " +:+ slug]
        | _, _ => []
        end
    | None => []
    end.

(** What holds once the lookups [done] have settled, in that order, while
    other lookups are pending. *)
Record directory_inv (EMPLOYEE_SLUGS : list string) (outcome : nat -> response)
    (done : list nat) (st : directory_state) : Prop := {
  inv_slots : forall j,
    slot (cards st) j = if decide (j ∈ done) then fulfilled (outcome j) else None;
  inv_loaded : loaded st = length (omap (fun i => fulfilled (outcome i)) done);
  inv_count : loaded st + failed st = length done;
  inv_console : console st = omap (failure_report EMPLOYEE_SLUGS outcome) done;
  inv_calls : render_calls st = [];
  inv_view : view st = DirectoryLoading
}.

Definition manage_run (EMPLOYEE_SLUGS : list string) (outcome : nat -> response)
    (done : list nat) : manage_state :=
  fold_left (manage_settle EMPLOYEE_SLUGS outcome) done
    (ManageState [] 0 [] [] DirectoryLoading).

Record manage_inv (EMPLOYEE_SLUGS : list string) (outcome : nat -> response)
    (done : list nat) (st : manage_state) : Prop := {
  minv_slots : forall j,
    slot (employees st) j = if decide (j ∈ done) then fulfilled (outcome j) else None;
  minv_count : manage_loaded st = length done;
  minv_console : manage_console st = omap (failure_report EMPLOYEE_SLUGS outcome) done;
  minv_calls : manage_render_calls st = [];
  minv_view : manage_view st = DirectoryLoading
}.

(** The entries of a folder after the media [ms] were added to it. *)
Definition insert_media (folder : gmap string entry) (ms : list media_item)
  : gmap string entry :=
  fold_left (fun f m => <[filename m := BlobEntry (file m)]> f) ms folder.

(** A record of the directory, reduced to its slug. *)
Definition example_record (s : string) : json := JObject [("slug", JString s)].

(** Three lookups; the second one fails. *)
Definition example_outcome (i : nat) : response :=
  match i with
  | 0 => Body (example_record "a")
  | 1 => HttpError 404
  | _ => Body (example_record "c")
  end.

(** A record whose slug cannot be converted to a string, and three
    lookups of which the last resolves to it. *)
Definition unconvertible_record : json :=
  JObject [("slug", JObject [("toString", JNumber 1)])].

Definition unconvertible_outcome (i : nat) : response :=
  match i with
  | 0 => Body (example_record "a")
  | 1 => HttpError 404
  | _ => Body unconvertible_record
  end.

Definition no_employee_specified : profile_state :=
  ProfileState [] (ProfileError "No employee specified. Use ?person={slug}").

(** A bare file name, the same-folder reference of the data model: not
    empty, without [/] and without [:]. *)
Definition is_bare_filename (s : string) : bool :=
  Js.truthy_string s
  && every (fun c => negb (Ascii.eqb c "/") && negb (Ascii.eqb c ":")) s.

(** The folder before the media are added. *)
Definition base_folder (employeeData : employee) (vcard : string) (headshotFile : File)
  : gmap string entry :=
  <[headshot employeeData := BlobEntry headshotFile]>
    (<["contact.vcf" := TextEntry vcard]>
       (<["data.json" := TextEntry (Json.stringify employeeData)]> ∅)).

Definition dollar_free (s : string) : bool := every (fun c => negb (Ascii.eqb c "$")) s.

(** The inline images: those whose address starts with [data:]. *)
Definition is_inline (img : Dom.img) : bool := Js.startsWith (Dom.src img) "data:".

Definition inline_images (imgs : list Dom.img) : list Dom.img := List.filter is_inline imgs.

(** The name given to the file of an image: its title, or [image.gif]. *)
Definition image_title (img : Dom.img) : string :=
  Js.or_default (Some (Dom.title img)) "image.gif".

(** The name of the media entry number [index + 1] for a file called [name]. *)
Definition generated_name (index : nat) (name : string) : string :=
  "bio-image-" +:+ pretty (index + 1) +:+ getFileExtension name.

(** An inline image as the conversion sees it: its address and the name of
    its file. *)
Definition reference (img : Dom.img) : string * string := (Dom.src img, image_title img).

Fixpoint generated_names (index : nat) (refs : list (string * string)) : list string :=
  match refs with
  | [] => []
  | (_, name) :: rest => generated_name index name :: generated_names (S index) rest
  end.

(** The text [a1 t1 a2 t2 ...] made of the addresses and of the texts that
    follow each of them. *)
Fixpoint source (refs : list (string * string)) (texts : list string) : string :=
  match refs, texts with
  | (a, _) :: rest, t :: ts => a +:+ t +:+ source rest ts
  | _, _ => EmptyString
  end.

(** The same text with each address replaced by its generated name, after
    the already rewritten text [pre]. *)
Fixpoint rewritten (pre : string) (index : nat) (refs : list (string * string))
    (texts : list string) : string :=
  match refs, texts with
  | (_, name) :: rest, t :: ts =>
      rewritten (pre +:+ generated_name index name +:+ t) (S index) rest ts
  | _, _ => pre
  end.

Definition at_position (found : option nat) (pos : nat) : bool :=
  match found with
  | Some p => Nat.eqb p pos
  | None => false
  end.

(** Every address occurs, in the text rewritten so far, first at its own
    reference, and no generated name holds a dollar sign. *)
Fixpoint in_place (pre : string) (index : nat) (refs : list (string * string))
    (texts : list string) : bool :=
  match refs, texts with
  | (a, name) :: rest, t :: ts =>
      at_position (Js.indexOf (pre +:+ a +:+ t +:+ source rest ts) a) (String.length pre)
      && dollar_free (generated_name index name)
      && in_place (pre +:+ generated_name index name +:+ t) (S index) rest ts
  | _, _ => true
  end.

(** The markup after the replacements of the loop, one per image. *)
Fixpoint replaced (index : nat) (refs : list (string * string)) (html : string) : string :=
  match refs with
  | [] => html
  | (a, name) :: rest => replaced (S index) rest (replace html a (generated_name index name))
  end.

Definition bio_reference (b : bio_image) : string * string :=
  (bio_src b, file_name (bio_file b)).

Fixpoint converted (index : nat) (bi : list bio_image) : list media_item :=
  match bi with
  | [] => []
  | b :: rest =>
      MediaItem (generated_name index (file_name (bio_file b))) (bio_file b)
        :: converted (S index) rest
  end.

(** The markup [handleFormSubmit] reads from the editor. *)
Definition trimmed_markup (f : form) : string :=
  match bioEditor f with
  | Some html => Js.trim html
  | None => EmptyString
  end.

(** A form that passes the checks of [handleFormSubmit]: the library is
    loaded, the required fields and the bio are not blank, a headshot is
    chosen. *)
Definition submittable (f : form) : bool :=
  jszip_loaded f
  && Js.truthy_string (Js.trim (form_firstName f))
  && Js.truthy_string (Js.trim (form_lastName f))
  && Js.truthy_string (Js.trim (form_email f))
  && Js.truthy_string (Js.trim (form_title f))
  && Js.truthy_string (Js.trim (form_department f))
  && Js.truthy_string (trimmed_markup f)
  && match headshot_files f with [] => false | _ => true end.

Definition submitted_record (o : submit_outcome) : option employee :=
  match o with
  | SubmitPreview _ _ _ _ e _ _ => Some e
  | _ => None
  end.

Definition img_tag (src title : string) : string :=
  "<img src=" +:+ Js.dq +:+ src +:+ Js.dq +:+ " title=" +:+ Js.dq +:+ title +:+ Js.dq +:+ ">".

Definition gif_url : string := "data:image/gif;base64,R0lGODlh".

Definition png_url : string := "data:image/png;base64,iVBORw0KGgo=".

Definition svg_url : string := "data:image/svg+xml,%3Csvg%3E%3C/svg%3E".

Definition example_form (html : string) (imgs : list Dom.img) : form :=
  Form true "Jane" "Doe" "jane@example.org" "" "Engineer" "R&D" "" (Some html) imgs
    [MkFile "me.png" "image/png" "PNG"].

(** A bio that quotes the address of its first image in its text, followed
    by two inline images. *)
Definition quoting_form : form :=
  example_form
    ("<p>Logo: " +:+ gif_url +:+ "</p>"
       +:+ img_tag gif_url "logo.gif" +:+ img_tag png_url "photo.png")
    [Dom.Img gif_url "logo.gif"; Dom.Img png_url "photo.png"].

(** A bio with one inline image whose address is not base64-encoded. *)
Definition svg_form : form :=
  example_form (img_tag svg_url "drawing.svg")
    [Dom.Img svg_url "drawing.svg"].

(** A bio with an inline image, an external image and a second inline
    image. *)
Definition external_tag : string :=
  "<img src=" +:+ Js.dq +:+ "https://example.org/team.png" +:+ Js.dq +:+ ">".

Definition gallery_form : form :=
  example_form
    ("<p>Hi</p>" +:+ img_tag gif_url "logo.gif" +:+ external_tag +:+ img_tag png_url "photo.png")
    [Dom.Img gif_url "logo.gif";
     Dom.Img "https://example.org/team.png" "";
     Dom.Img png_url "photo.png"].

Definition gallery_texts : list string :=
  [Js.dq +:+ " title=" +:+ Js.dq +:+ "logo.gif" +:+ Js.dq +:+ ">" +:+ external_tag
     +:+ "<img src=" +:+ Js.dq;
   Js.dq +:+ " title=" +:+ Js.dq +:+ "photo.png" +:+ Js.dq +:+ ">"].

Definition lacks (c : ascii) (s : string) : bool := every (fun d => negb (Ascii.eqb d c)) s.

(** ** Profile addresses *)

(** What [encodeURIComponent] writes: an unreserved character or the
    percent sign of an escape. *)
Definition url_safe (c : ascii) : bool := Js.uri_unreserved c || Ascii.eqb c "%".

Definition hex_value (c : ascii) : nat :=
  let n := Js.code c in if Nat.ltb n 58 then n - 48 else n - 55.

(** Reads back the first character of an encoded text: the inverse of
    [Js.encode_char]. *)
Definition decode_first (s : string) : option (ascii * string) :=
  match s with
  | EmptyString => None
  | String c r =>
      if Ascii.eqb c "%" then
        match r with
        | String h (String l r1) =>
            let b := 16 * hex_value h + hex_value l in
            if Nat.ltb b 128 then Some (ascii_of_nat b, r1)
            else
              match r1 with
              | String _ (String h2 (String l2 r2)) =>
                  Some (ascii_of_nat ((b - 192) * 64 + (16 * hex_value h2 + hex_value l2 - 128)),
                        r2)
              | _ => None
              end
        | _ => None
        end
      else Some (c, r)
  end.

(** ** Submitted forms *)

(** A required field of the form, or its bio, is blank: empty or made of
    white space only; a missing editor counts as a blank bio. *)
Definition blank_required (f : form) : bool :=
  Js.all_space (form_firstName f) || Js.all_space (form_lastName f)
  || Js.all_space (form_email f) || Js.all_space (form_title f)
  || Js.all_space (form_department f)
  || match bioEditor f with Some html => Js.all_space html | None => true end.

(** An optional field as the record stores it: [null] when blank, the
    trimmed text otherwise. *)
Definition optional_field (typed : string) : option string :=
  if Js.all_space typed then None else Some (Js.trim typed).

(** The record [handleFormSubmit] builds from the form, the chosen headshot
    and the extracted images. *)
Definition built_record (f : form) (headshotFile : File) (bi : list bio_image) : employee :=
  {| slug := generateSlug (Js.trim (form_firstName f)) (Js.trim (form_lastName f));
     firstName := Js.trim (form_firstName f);
     lastName := Js.trim (form_lastName f);
     title := Js.trim (form_title f);
     department := Js.trim (form_department f);
     email := Js.trim (form_email f);
     phone := Js.truthy_value (Some (Js.trim (form_phone f)));
     linkedin := Js.truthy_value (Some (Js.trim (form_linkedin f)));
     headshot := "headshot" +:+ getFileExtension (file_name headshotFile);
     bioHtml := replaced 0 (map bio_reference bi) (trimmed_markup f);
     media := map filename (converted 0 bi) |}.

(** A form whose last name is blank, and a form without headshot. *)
Definition blank_name_form : form :=
  Form true "Jane" "   " "jane@example.org" "" "Engineer" "R&D" "" (Some "<p>Hi</p>") [] [].

Definition no_headshot_form : form :=
  Form true "Jane" "Doe" "jane@example.org" "" "Engineer" "R&D" "" (Some "<p>Hi</p>") [] [].

(** A form with blanks around its fields, and the record it gives. *)
Definition padded_form : form :=
  Form true " Jane" "Doe " "jane@example.org" "  " "Engineer" "R&D"
    " https://www.linkedin.com/in/jane " (Some "<p>Hi</p>") []
    [MkFile "me.png" "image/png" "PNG"].

Definition padded_record : employee :=
  Employee "jane-doe" "Jane" "Doe" "Engineer" "R&D" "jane@example.org" None
    (Some "https://www.linkedin.com/in/jane") "headshot.png" "<p>Hi</p>" [].

(** ** Archives and the addresses of the site *)

(** The paths of the entries of an archive: folder, slash, entry name. *)
Definition in_archive (zip : gmap string (gmap string entry)) (path : string) : Prop :=
  exists folder entries name,
    zip !! folder = Some entries /\ name ∈ dom entries /\ path = folder +:+ "/" +:+ name.

Definition is_digit (c : ascii) : bool := Nat.leb 48 (Js.code c) && Nat.leb (Js.code c) 57.

Definition no_digit_start (s : string) : bool :=
  match s with
  | EmptyString => true
  | String c _ => negb (is_digit c)
  end.

(** ** Uploaded images *)

(** The six-bit groups of a sequence of bytes. *)
Fixpoint sextets (l : list ascii) : list N :=
  match l with
  | a :: b :: c :: r =>
      let n := (N_of_ascii a * 65536 + N_of_ascii b * 256 + N_of_ascii c)%N in
      (n / 262144)%N :: ((n / 4096) mod 64)%N :: ((n / 64) mod 64)%N :: (n mod 64)%N
        :: sextets r
  | [a; b] =>
      let n := ((N_of_ascii a * 256 + N_of_ascii b) * 4)%N in
      [(n / 4096)%N; ((n / 64) mod 64)%N; (n mod 64)%N]
  | [a] =>
      let n := (N_of_ascii a * 16)%N in
      [(n / 64)%N; (n mod 64)%N]
  | [] => []
  end.

Fixpoint padding (l : list ascii) : list ascii :=
  match l with
  | _ :: _ :: _ :: r => padding r
  | [_; _] => ["="%char]
  | [_] => ["="%char; "="%char]
  | [] => []
  end.

(** The file [dataUrlToFile] makes of the address of an uploaded image:
    the name of the file ([image.gif] for a file without name), its type in
    the form a [File] keeps, and its bytes. *)
Definition restored (file : File) : File :=
  MkFile (Js.or_default (Some (file_name file)) "image.gif") (File_type (file_type file))
    (file_bytes file).

(** A type that a data address carries through: not empty, and without
    [;], [,] and line break. *)
Definition plain_type (t : string) : bool :=
  Js.truthy_string t && lacks ";" t && lacks "," t && lacks "010" t && lacks "013" t.

Definition logo_file : File := MkFile "logo.gif" "image/gif" "GIF89a".

Definition photo_file : File := MkFile "team photo.png" "image/png" "PNG!".

(** A form whose bio holds two images put in with the image button, around
    an external image. *)
Definition upload_form : form :=
  example_form
    ("<p>Hi</p>" +:+ img_tag (FileReader.readAsDataURL logo_file) "logo.gif"
       +:+ external_tag +:+ img_tag (FileReader.readAsDataURL photo_file) "team photo.png")
    [uploaded_image logo_file; Dom.Img "https://example.org/team.png" "";
     uploaded_image photo_file].

(** ** Lookups *)

(** Two lookups that fail. *)
Definition failing_outcome (i : nat) : response :=
  match i with
  | 0 => HttpError 404
  | _ => NetworkError
  end.

(** * Properties *)

(** ** Characters and strings *)

Lemma lower_char_not_upper c : Js.is_upper (Js.lower_char c) = false.
Proof. by_cases_on_char c. Qed.

Lemma lower_char_space c : Js.is_space (Js.lower_char c) = Js.is_space c.
Proof. by_cases_on_char c. Qed.

Lemma lower_char_ascii c : Js.is_ascii c = true -> Js.is_ascii (Js.lower_char c) = true.
Proof. by_cases_on_char c. Qed.

Lemma lower_char_name c :
  is_name_char c = true ->
  Js.is_space (Js.lower_char c) = true \/ is_slug_char (Js.lower_char c) = true.
Proof. by_cases_on_char c. Qed.

Lemma append_assoc (a b c : string) : (a +:+ b) +:+ c = a +:+ (b +:+ c).
Proof. induction a as [|x a IH]; simpl; [reflexivity | now rewrite IH]. Qed.

Lemma append_empty_r (a : string) : a +:+ "" = a.
Proof. induction a as [|x a IH]; simpl; [reflexivity | now rewrite IH]. Qed.

Lemma every_append P a b : every P (a +:+ b) = every P a && every P b.
Proof.
  induction a as [|x a IH]; simpl; [reflexivity|].
  rewrite IH. now rewrite andb_assoc.
Qed.

Lemma toLowerCase_append a b :
  Js.toLowerCase (a +:+ b) = Js.toLowerCase a +:+ Js.toLowerCase b.
Proof. induction a as [|x a IH]; simpl; [reflexivity | now rewrite IH]. Qed.

Lemma toLowerCase_not_upper s :
  every (fun c => negb (Js.is_upper c)) (Js.toLowerCase s) = true.
Proof.
  induction s as [|c r IH]; simpl; [reflexivity|].
  now rewrite lower_char_not_upper, IH.
Qed.

Lemma toLowerCase_no_space s : no_space (Js.toLowerCase s) = no_space s.
Proof.
  unfold no_space. induction s as [|c r IH]; simpl; [reflexivity|].
  now rewrite lower_char_space, IH.
Qed.

Lemma toLowerCase_all_space s : Js.all_space (Js.toLowerCase s) = Js.all_space s.
Proof.
  induction s as [|c r IH]; simpl; [reflexivity|].
  now rewrite lower_char_space, IH.
Qed.

Lemma toLowerCase_every (P Q : ascii -> bool) s :
  (forall c, P c = true -> Q (Js.lower_char c) = true) ->
  every P s = true -> every Q (Js.toLowerCase s) = true.
Proof.
  intros HPQ. induction s as [|c r IH]; simpl; [reflexivity|].
  intros [Hc Hr]%andb_true_iff. rewrite (HPQ _ Hc). now apply IH.
Qed.

(** [trim] only removes characters. *)
Lemma trimStart_every P s : every P s = true -> every P (Js.trimStart s) = true.
Proof.
  induction s as [|c r IH]; simpl; [reflexivity|].
  intros H. destruct (Js.is_space c); [|exact H].
  apply IH. now apply andb_true_iff in H as [_ H].
Qed.

Lemma trimEnd_every P s : every P s = true -> every P (Js.trimEnd s) = true.
Proof.
  induction s as [|c r IH]; [reflexivity|].
  intros H. cbn [Js.trimEnd]. destruct (Js.all_space (String c r)); [reflexivity|].
  simpl in *. apply andb_true_iff in H as [Hc Hr]. now rewrite Hc, IH.
Qed.

Lemma trim_every P s : every P s = true -> every P (Js.trim s) = true.
Proof. intros H. unfold Js.trim. now apply trimEnd_every, trimStart_every. Qed.

(** Replacing the runs keeps the other characters and writes the
    replacement in between. *)
Lemma replace_space_runs_from_every (P Q : ascii -> bool) b r s :
  every Q r = true ->
  (forall c, P c = true -> Js.is_space c = false -> Q c = true) ->
  every P s = true -> every Q (Js.replace_space_runs_from b r s) = true.
Proof.
  intros Hr HPQ. revert b. induction s as [|c t IH]; intros b; simpl; [reflexivity|].
  intros [Hc Ht]%andb_true_iff.
  destruct (Js.is_space c) eqn:Hsp.
  - destruct b; [now apply IH|]. rewrite every_append, Hr. now apply IH.
  - simpl. rewrite (HPQ _ Hc Hsp). now apply IH.
Qed.

Lemma trimStart_no_space c s :
  Js.is_space c = false -> Js.trimStart (String c s) = String c s.
Proof. intros H. simpl. now rewrite H. Qed.

Lemma trimEnd_id s : no_space s = true -> Js.trimEnd s = s.
Proof.
  unfold no_space. induction s as [|c r IH]; [reflexivity|].
  cbn [every Js.trimEnd Js.all_space]. intros [Hc Hr]%andb_true_iff.
  apply negb_true_iff in Hc. rewrite Hc. simpl. now rewrite IH.
Qed.

Lemma all_space_append a b : Js.all_space (a +:+ b) = Js.all_space a && Js.all_space b.
Proof.
  induction a as [|x a IH]; simpl; [reflexivity|].
  rewrite IH. now rewrite andb_assoc.
Qed.

Lemma trimEnd_append a b :
  Js.all_space b = false -> Js.trimEnd (a +:+ b) = a +:+ Js.trimEnd b.
Proof.
  intros Hb. induction a as [|x a IH]; [reflexivity|].
  cbn [String.append Js.trimEnd].
  replace (Js.all_space (String x (a +:+ b))) with false.
  - now rewrite IH.
  - symmetry. cbn [Js.all_space]. rewrite all_space_append, Hb.
    now rewrite andb_false_r, andb_false_r.
Qed.

Lemma replace_space_runs_from_no_space b r s t :
  no_space s = true -> s <> "" ->
  Js.replace_space_runs_from b r (s +:+ t) = s +:+ Js.replace_space_runs_from false r t.
Proof.
  unfold no_space. revert b. induction s as [|c u IH]; intros b Hs Hne; [congruence|].
  cbn [every] in Hs. apply andb_true_iff in Hs as [Hc Hu].
  apply negb_true_iff in Hc. cbn [String.append Js.replace_space_runs_from].
  rewrite Hc. f_equal. destruct u as [|d u]; [reflexivity|].
  now apply IH.
Qed.

Lemma replace_space_runs_from_id b r s :
  no_space s = true -> Js.replace_space_runs_from b r s = s.
Proof.
  unfold no_space. revert b. induction s as [|c u IH]; intros b; [reflexivity|].
  cbn [every Js.replace_space_runs_from]. intros [Hc Hu]%andb_true_iff.
  apply negb_true_iff in Hc. rewrite Hc. f_equal. now apply IH.
Qed.

Lemma replace_space_runs_from_true_all_space r w t :
  Js.all_space w = true ->
  Js.replace_space_runs_from true r (w +:+ t) = Js.replace_space_runs_from true r t.
Proof.
  induction w as [|c u IH]; [reflexivity|].
  cbn [Js.all_space String.append Js.replace_space_runs_from].
  intros [Hc Hu]%andb_true_iff. rewrite Hc. now apply IH.
Qed.

Lemma replace_space_runs_from_all_space r w t :
  Js.all_space w = true -> w <> "" ->
  Js.replace_space_runs_from false r (w +:+ t) = r +:+ Js.replace_space_runs_from true r t.
Proof.
  destruct w as [|c u]; [congruence|].
  cbn [Js.all_space String.append Js.replace_space_runs_from].
  intros [Hc Hu]%andb_true_iff _. rewrite Hc. f_equal.
  now apply replace_space_runs_from_true_all_space.
Qed.

(** ** Slug derivation *)

Lemma generateSlug_lowered first last :
  every is_lowered (generateSlug first last) = true.
Proof.
  unfold generateSlug, Js.replace_space_runs.
  apply replace_space_runs_from_every
    with (P := fun c => negb (Js.is_upper c)); [reflexivity | |].
  - intros c Hc Hsp. unfold is_lowered. now rewrite Hc, Hsp.
  - apply trim_every, toLowerCase_not_upper.
Qed.

Lemma generateSlug_ascii first last :
  every Js.is_ascii first = true -> every Js.is_ascii last = true ->
  every Js.is_ascii (generateSlug first last) = true.
Proof.
  intros Hf Hl. unfold generateSlug, Js.replace_space_runs.
  apply replace_space_runs_from_every with (P := Js.is_ascii); [reflexivity | auto |].
  apply trim_every, toLowerCase_every with (P := Js.is_ascii).
  - apply lower_char_ascii.
  - rewrite !every_append, Hf, Hl. reflexivity.
Qed.

Lemma generateSlug_letters first last :
  every is_name_char first = true -> every is_name_char last = true ->
  every is_slug_char (generateSlug first last) = true.
Proof.
  intros Hf Hl. unfold generateSlug, Js.replace_space_runs.
  apply replace_space_runs_from_every
    with (P := fun c => Js.is_space c || is_slug_char c); [reflexivity | |].
  - intros c Hc Hsp. now rewrite Hsp in Hc.
  - apply trim_every, toLowerCase_every with (P := is_name_char).
    + intros c Hc. apply orb_true_iff. now apply lower_char_name.
    + rewrite !every_append, Hf, Hl. reflexivity.
Qed.

Lemma trimStart_append_no_space (a x : string) :
  a <> "" -> no_space a = true -> Js.trimStart (a +:+ x) = a +:+ x.
Proof.
  destruct a as [|c a]; [congruence|]. intros _ Hsa.
  unfold no_space in Hsa. cbn [every] in Hsa.
  apply andb_true_iff in Hsa as [Hc _]. apply negb_true_iff in Hc.
  simpl. now rewrite Hc.
Qed.

Lemma trim_joined (a t : string) :
  a <> "" -> no_space a = true -> no_space t = true ->
  forall m, Js.trim (a +:+ m +:+ "-" +:+ t) = a +:+ m +:+ "-" +:+ t.
Proof.
  intros Ha Hsa Ht m. unfold Js.trim.
  rewrite trimStart_append_no_space by assumption.
  replace (a +:+ m +:+ "-" +:+ t) with ((a +:+ m) +:+ ("-" +:+ t))
    by now rewrite append_assoc.
  rewrite trimEnd_append by reflexivity.
  f_equal. apply trimEnd_id. exact Ht.
Qed.

Lemma trim_id s : no_space s = true -> Js.trim s = s.
Proof.
  intros Hs. unfold Js.trim.
  assert (Js.trimStart s = s) as ->.
  { destruct s as [|c r]; [reflexivity|]. unfold no_space in Hs. cbn [every] in Hs.
    apply andb_true_iff in Hs as [Hc _]. apply negb_true_iff in Hc.
    now apply trimStart_no_space. }
  now apply trimEnd_id.
Qed.

Lemma generateSlug_plain first last :
  no_space first = true -> no_space last = true ->
  generateSlug first last = Js.toLowerCase first +:+ "-" +:+ Js.toLowerCase last.
Proof.
  intros Hf Hl. unfold generateSlug, Js.replace_space_runs.
  rewrite !toLowerCase_append.
  assert (Hj : no_space (Js.toLowerCase first +:+ Js.toLowerCase "-" +:+ Js.toLowerCase last)
               = true).
  { unfold no_space. rewrite !every_append. fold (no_space (Js.toLowerCase first)).
    fold (no_space (Js.toLowerCase last)). now rewrite !toLowerCase_no_space, Hf, Hl. }
  rewrite trim_id by exact Hj.
  now rewrite replace_space_runs_from_id.
Qed.

Lemma generateSlug_run (a w b last : string) :
  a <> "" -> no_space a = true -> Js.all_space w = true -> w <> "" ->
  no_space b = true -> no_space last = true ->
  generateSlug (a +:+ w +:+ b) last =
    Js.toLowerCase a +:+ "-" +:+ Js.toLowerCase b +:+ "-" +:+ Js.toLowerCase last.
Proof.
  intros Ha Hsa Hw Hwne Hb Hl. unfold generateSlug, Js.replace_space_runs.
  rewrite !toLowerCase_append.
  set (la := Js.toLowerCase a). set (lw := Js.toLowerCase w).
  set (lb := Js.toLowerCase b). set (ll := Js.toLowerCase last).
  assert (Hla : no_space la = true) by (unfold la; now rewrite toLowerCase_no_space).
  assert (Hlb : no_space lb = true) by (unfold lb; now rewrite toLowerCase_no_space).
  assert (Hll : no_space ll = true) by (unfold ll; now rewrite toLowerCase_no_space).
  assert (Hlw : Js.all_space lw = true) by (unfold lw; now rewrite toLowerCase_all_space).
  assert (Hlane : la <> "") by (unfold la; destruct a; [congruence | discriminate]).
  assert (Hlwne : lw <> "") by (unfold lw; destruct w; [congruence | discriminate]).
  change (Js.toLowerCase "-") with "-".
  replace ((la +:+ lw +:+ lb) +:+ "-" +:+ ll) with (la +:+ (lw +:+ lb) +:+ "-" +:+ ll)
    by now rewrite !append_assoc.
  assert (Htail : no_space (lb +:+ "-" +:+ ll) = true).
  { unfold no_space in *. rewrite !every_append, Hlb, Hll. reflexivity. }
  replace (la +:+ (lw +:+ lb) +:+ "-" +:+ ll) with (la +:+ lw +:+ (lb +:+ "-" +:+ ll))
    by now rewrite !append_assoc.
  assert (Htrim : Js.trim (la +:+ lw +:+ lb +:+ "-" +:+ ll) = la +:+ lw +:+ lb +:+ "-" +:+ ll).
  { replace (la +:+ lw +:+ lb +:+ "-" +:+ ll) with (la +:+ (lw +:+ lb) +:+ "-" +:+ ll)
      by now rewrite !append_assoc.
    now apply trim_joined. }
  rewrite Htrim.
  rewrite replace_space_runs_from_no_space by assumption.
  rewrite replace_space_runs_from_all_space by assumption.
  now rewrite replace_space_runs_from_id.
Qed.

Lemma no_space_not_all_space s : s <> "" -> no_space s = true -> Js.all_space s = false.
Proof.
  destruct s as [|c r]; [congruence|]. intros _. unfold no_space. cbn [every Js.all_space].
  intros [Hc _]%andb_true_iff. apply negb_true_iff in Hc. now rewrite Hc.
Qed.

Lemma toLowerCase_not_empty s : s <> "" -> Js.toLowerCase s <> "".
Proof. destruct s; [congruence | discriminate]. Qed.

(** A run of white space inside the last name. *)
Lemma generateSlug_run_last (first b w c : string) :
  no_space first = true -> no_space b = true -> Js.all_space w = true -> w <> "" ->
  no_space c = true -> c <> "" ->
  generateSlug first (b +:+ w +:+ c) =
    Js.toLowerCase first +:+ "-" +:+ Js.toLowerCase b +:+ "-" +:+ Js.toLowerCase c.
Proof.
  intros Hf Hb Hw Hwne Hc Hcne. unfold generateSlug, Js.replace_space_runs.
  rewrite !toLowerCase_append.
  set (la := Js.toLowerCase first). set (lw := Js.toLowerCase w).
  set (lb := Js.toLowerCase b). set (lc := Js.toLowerCase c).
  assert (Hla : no_space la = true) by (unfold la; now rewrite toLowerCase_no_space).
  assert (Hlb : no_space lb = true) by (unfold lb; now rewrite toLowerCase_no_space).
  assert (Hlc : no_space lc = true) by (unfold lc; now rewrite toLowerCase_no_space).
  assert (Hlw : Js.all_space lw = true) by (unfold lw; now rewrite toLowerCase_all_space).
  assert (Hlwne : lw <> "") by now apply toLowerCase_not_empty.
  assert (Hlcne : lc <> "") by now apply toLowerCase_not_empty.
  change (Js.toLowerCase "-") with "-".
  set (p := la +:+ "-" +:+ lb).
  assert (Hp : no_space p = true).
  { unfold p, no_space in *. rewrite !every_append, Hla, Hlb. reflexivity. }
  assert (Hpne : p <> "").
  { unfold p. destruct la; discriminate. }
  replace (la +:+ "-" +:+ lb +:+ lw +:+ lc) with (p +:+ lw +:+ lc)
    by (unfold p; now rewrite !append_assoc).
  assert (Htrim : Js.trim (p +:+ lw +:+ lc) = p +:+ lw +:+ lc).
  { unfold Js.trim. rewrite trimStart_append_no_space by assumption.
    replace (p +:+ lw +:+ lc) with ((p +:+ lw) +:+ lc) by now rewrite append_assoc.
    rewrite trimEnd_append by now apply no_space_not_all_space.
    now rewrite trimEnd_id. }
  rewrite Htrim.
  rewrite replace_space_runs_from_no_space by assumption.
  rewrite replace_space_runs_from_all_space by assumption.
  rewrite replace_space_runs_from_id by assumption.
  unfold p. now rewrite !append_assoc.
Qed.

(** The words of a text. *)
Lemma words_cons c r :
  words (String c r) =
    if Js.is_space c then words r
    else
      match words r with
      | [] => [String c EmptyString]
      | w :: ws =>
          if no_lead r then String c w :: ws else String c EmptyString :: w :: ws
      end.
Proof. reflexivity. Qed.

Lemma trimEnd_cons c r :
  Js.trimEnd (String c r) =
    if Js.all_space (String c r) then EmptyString else String c (Js.trimEnd r).
Proof. reflexivity. Qed.

Lemma words_all_space s : Js.all_space s = true -> words s = [].
Proof.
  induction s as [|c r IH]; [reflexivity|]. rewrite words_cons. cbn [Js.all_space].
  intros [Hc Hr]%andb_true_iff. rewrite Hc. now apply IH.
Qed.

Lemma words_not_all_space s : Js.all_space s = false -> words s <> [].
Proof.
  induction s as [|c r IH]; [discriminate|]. rewrite words_cons. cbn [Js.all_space].
  destruct (Js.is_space c); [exact IH|]. intros _.
  destruct (words r); [discriminate|]. destruct (no_lead r); discriminate.
Qed.

Lemma words_trimStart s : words (Js.trimStart s) = words s.
Proof.
  induction s as [|c r IH]; [reflexivity|]. cbn [Js.trimStart].
  destruct (Js.is_space c) eqn:Hc; [|reflexivity].
  rewrite IH, (words_cons c r). now rewrite Hc.
Qed.

Lemma no_lead_trimStart s : no_lead (Js.trimStart s) = true.
Proof.
  induction s as [|c r IH]; [reflexivity|]. cbn [Js.trimStart].
  destruct (Js.is_space c) eqn:Hc; [exact IH|]. cbn [no_lead]. now rewrite Hc.
Qed.

Lemma join_cons_char sep c w ws :
  Js.join sep (String c w :: ws) = String c (Js.join sep (w :: ws)).
Proof. destruct ws; reflexivity. Qed.

(** Replacing the runs of white space of a text trimmed at its end joins
    its words; white space at the start gives a leading separator unless
    the replacement starts inside a run. *)
Lemma replace_space_runs_words r s :
  Js.replace_space_runs_from true r (Js.trimEnd s) = Js.join r (words s)
  /\ (no_lead s = true ->
      Js.replace_space_runs_from false r (Js.trimEnd s) = Js.join r (words s)).
Proof.
  induction s as [|c t [IHa IHb]]; [split; reflexivity|].
  assert (Hnon : Js.is_space c = false -> forall b,
            Js.replace_space_runs_from b r (Js.trimEnd (String c t))
            = Js.join r (words (String c t))).
  { intros Hc b. rewrite trimEnd_cons, words_cons. cbn [Js.all_space]. rewrite Hc.
    cbn [andb Js.replace_space_runs_from]. rewrite Hc.
    destruct t as [|d t']; [reflexivity|]. cbn [no_lead].
    destruct (Js.is_space d) eqn:Hd; cbn [negb].
    - destruct (Js.all_space (String d t')) eqn:Hall.
      + rewrite (words_all_space _ Hall), trimEnd_cons, Hall. reflexivity.
      + pose proof (words_not_all_space _ Hall) as Hne.
        assert (Hrun : Js.replace_space_runs_from false r (Js.trimEnd (String d t'))
                       = r +:+ Js.replace_space_runs_from true r (Js.trimEnd (String d t'))).
        { rewrite trimEnd_cons, Hall. cbn [Js.replace_space_runs_from]. now rewrite Hd. }
        rewrite Hrun, IHa.
        destruct (words (String d t')) as [|w ws]; [congruence|]. reflexivity.
    - rewrite IHb by (cbn [no_lead]; now rewrite Hd).
      destruct (words (String d t')) as [|w ws]; [reflexivity|].
      now rewrite join_cons_char. }
  split.
  - destruct (Js.is_space c) eqn:Hc; [|now apply Hnon].
    rewrite trimEnd_cons, words_cons, Hc. cbn [Js.all_space]. rewrite Hc. cbn [andb].
    destruct (Js.all_space t) eqn:Hall.
    + now rewrite (words_all_space _ Hall).
    + cbn [Js.replace_space_runs_from]. rewrite Hc. exact IHa.
  - cbn [no_lead]. intros Hc%negb_true_iff. now apply Hnon.
Qed.

(** The slug is the words of the lower-cased joined string, joined by
    hyphens. *)
Lemma generateSlug_words first last :
  generateSlug first last =
    Js.join "-" (words (Js.toLowerCase (first +:+ "-" +:+ last))).
Proof.
  unfold generateSlug, Js.replace_space_runs, Js.trim.
  rewrite (proj2 (replace_space_runs_words "-" _)) by apply no_lead_trimStart.
  now rewrite words_trimStart.
Qed.

(** C4, counterexample: on the pair of the claim, ["John"] and [" Doe "], the
    slug is not ["john-doe"]: the blank in front of the last name is inside
    the joined string, so [trim] keeps it and it becomes a second hyphen. *)
Lemma generateSlug_john_doe_counterexample :
  generateSlug "John" " Doe " <> "john-doe".
Proof. vm_compute. discriminate. Qed.

(** C4, as amended: [generateSlug] lower-cases the joined string
    [first + '-' + last], trims the two ends of the joined string and turns
    every run of white space into one hyphen: the slug is made of the words
    of the lower-cased joined string, its maximal runs of characters that
    are not white space, with one hyphen between two words.  The result
    holds no white space and no letter with a lower-case form; it is ASCII
    when the names are, and made of a-z and hyphens when the names are made
    of ASCII letters, hyphens and white space.  Names without white space
    give [lower(first)-lower(last)]; a run of white space inside the first
    name or inside the last name gives a single hyphen.  On ["John"] and
    [" Doe "] the result is ["john--doe"]; on the trimmed names ["John"] and
    ["Doe"], which is what [handleFormSubmit] passes after trimming each
    field, it is ["john-doe"]. *)
Theorem generateSlug_spec (first last : string) :
  generateSlug first last =
    Js.join "-" (words (Js.toLowerCase (first +:+ "-" +:+ last)))
  /\ every is_lowered (generateSlug first last) = true
  /\ (every Js.is_ascii first = true -> every Js.is_ascii last = true ->
      every Js.is_ascii (generateSlug first last) = true)
  /\ (every is_name_char first = true -> every is_name_char last = true ->
      every is_slug_char (generateSlug first last) = true)
  /\ (no_space first = true -> no_space last = true ->
      generateSlug first last = Js.toLowerCase first +:+ "-" +:+ Js.toLowerCase last)
  /\ (forall w b : string,
        first <> "" -> no_space first = true -> Js.all_space w = true -> w <> "" ->
        no_space b = true -> no_space last = true ->
        generateSlug (first +:+ w +:+ b) last =
          Js.toLowerCase first +:+ "-" +:+ Js.toLowerCase b +:+ "-" +:+ Js.toLowerCase last)
  /\ (forall w c : string,
        no_space first = true -> no_space last = true -> Js.all_space w = true -> w <> "" ->
        no_space c = true -> c <> "" ->
        generateSlug first (last +:+ w +:+ c) =
          Js.toLowerCase first +:+ "-" +:+ Js.toLowerCase last +:+ "-" +:+ Js.toLowerCase c)
  /\ generateSlug "John" " Doe " = "john--doe"
  /\ generateSlug "John" "Doe" = "john-doe"
  /\ generateSlug (Js.trim "John") (Js.trim " Doe ") = "john-doe".
Proof.
  split; [apply generateSlug_words|].
  split; [apply generateSlug_lowered|].
  split; [apply generateSlug_ascii|].
  split; [apply generateSlug_letters|].
  split; [apply generateSlug_plain|].
  split; [intros w b; apply generateSlug_run|].
  split; [intros w c; apply generateSlug_run_last|].
  repeat split; reflexivity.
Qed.

Lemma generateSlug_spec_witness :
  every is_lowered (generateSlug "Mary" "Smith") = true
  /\ every Js.is_ascii (generateSlug "Mary" "Smith") = true
  /\ every is_slug_char (generateSlug "Mary" "Smith") = true
  /\ generateSlug "Mary" "Smith" = "mary-smith"
  /\ generateSlug "Mary  Ann" "Smith" = "mary-ann-smith"
  /\ generateSlug "Mary" "Smith  Jones" = "mary-smith-jones"
  /\ generateSlug " Mary " "van  der Berg " = "mary--van-der-berg".
Proof.
  destruct (generateSlug_spec "Mary" "Smith") as (_ & H1 & H2 & H3 & H4 & H5 & H6 & _).
  split; [exact H1|].
  split; [exact (H2 eq_refl eq_refl)|].
  split; [exact (H3 eq_refl eq_refl)|].
  split; [exact (H4 eq_refl eq_refl)|].
  split; [refine (H5 "  " "Ann" _ eq_refl eq_refl _ eq_refl eq_refl); discriminate|].
  split; [refine (H6 "  " "Jones" eq_refl eq_refl eq_refl _ eq_refl _); discriminate|].
  exact (proj1 (generateSlug_spec " Mary " "van  der Berg ")).
Defined.

(** ** Contact card *)

(** C3: the card is the fixed sequence of lines BEGIN, VERSION, FN, N, TITLE,
    ORG (the constant organisation), EMAIL, then one TEL line exactly when
    the phone is present (neither [null] nor empty), then URL with the
    profile address of the slug, then END; the lines are joined by CRLF and
    nothing follows END.  The text is a function of the record. *)
Theorem buildVcard_layout (e : employee) :
  buildVcard e =
    "BEGIN:VCARD" +:+ Js.CRLF +:+
    "VERSION:3.0" +:+ Js.CRLF +:+
    "FN:" +:+ firstName e +:+ " " +:+ lastName e +:+ Js.CRLF +:+
    "N:" +:+ lastName e +:+ ";" +:+ firstName e +:+ ";;;" +:+ Js.CRLF +:+
    "TITLE:" +:+ title e +:+ Js.CRLF +:+
    "ORG:Centerlink Technologies" +:+ Js.CRLF +:+
    "EMAIL:" +:+ email e +:+ Js.CRLF +:+
    (match phone e with
     | Some (String c p) => "TEL:" +:+ String c p +:+ Js.CRLF
     | Some EmptyString | None => ""
     end) +:+
    "URL:" +:+ FULL_BASE_URL +:+ "/profile.html?person=" +:+
      Js.encodeURIComponent (slug e) +:+ Js.CRLF +:+
    "END:VCARD".
Proof.
  unfold buildVcard, buildProfileUrl, push.
  destruct (phone e) as [[|c p]|]; cbn [Js.truthy_value Js.truthy_string app Js.join];
    rewrite ?append_assoc; reflexivity.
Qed.

(** ** Arrays with holes *)

Section Arrays.
Context {A : Type}.
Implicit Types (a b : list (option A)) (p : A -> bool).

Lemma slot_array_set a i x j :
  slot (array_set a i x) j = if decide (j = i) then Some x else slot a j.
Proof.
  unfold slot, array_set.
  destruct (Nat.ltb_spec i (length a)) as [Hlt|Hge].
  - destruct (decide (j = i)) as [->|Hne].
    + now rewrite list_lookup_insert_eq.
    + now rewrite list_lookup_insert_ne.
  - destruct (decide (j = i)) as [->|Hne].
    + rewrite lookup_app_r by lia.
      rewrite lookup_app_r by (rewrite length_replicate; lia).
      rewrite length_replicate.
      now replace (i - length a - (i - length a)) with 0 by lia.
    + destruct (decide (j < length a)) as [Hj|Hj].
      * now rewrite lookup_app_l.
      * rewrite lookup_app_r by lia.
        rewrite (lookup_ge_None_2 a j) by lia.
        destruct (decide (j < i)) as [Hji|Hji].
        -- rewrite lookup_app_l by (rewrite length_replicate; lia).
           now rewrite lookup_replicate_2 by lia.
        -- rewrite lookup_ge_None_2; [reflexivity|].
           rewrite length_app, length_replicate. simpl. lia.
Qed.

Lemma array_filter_cons p c a :
  array_filter p (c :: a) =
    match c with
    | Some x => if p x then x :: array_filter p a else array_filter p a
    | None => array_filter p a
    end.
Proof. unfold array_filter. simpl. destruct c as [x|]; [destruct (p x)|]; reflexivity. Qed.

Lemma array_filter_no_slot p a :
  (forall i, slot a i = None) -> array_filter p a = [].
Proof.
  induction a as [|c a IH]; intros H; [reflexivity|].
  specialize (H 0) as H0. unfold slot in H0. simpl in H0.
  destruct c as [x|]; [discriminate|].
  rewrite array_filter_cons. apply IH. intros i. exact (H (S i)).
Qed.

(** Two arrays with the same elements at the same indices filter alike,
    whatever their lengths. *)
Lemma array_filter_slots p a b :
  (forall i, slot a i = slot b i) -> array_filter p a = array_filter p b.
Proof.
  revert b. induction a as [|c a IH]; intros b H.
  - symmetry. apply array_filter_no_slot. intros i. now rewrite <- H.
  - destruct b as [|d b].
    + apply array_filter_no_slot. intros i. now rewrite H.
    + assert (c = d) as ->.
      { specialize (H 0). unfold slot in H. simpl in H.
        destruct c, d; congruence. }
      rewrite !array_filter_cons.
      rewrite (IH b); [reflexivity|]. intros i. exact (H (S i)).
Qed.

Lemma array_filter_map {B} p (f : B -> option A) (l : list B) :
  array_filter p (map f l) = List.filter p (omap f l).
Proof.
  induction l as [|x l IH]; [reflexivity|].
  cbn [map omap list_omap]. rewrite array_filter_cons.
  destruct (f x) as [y|]; simpl; [destruct (p y)|]; now rewrite IH.
Qed.

Lemma slot_map_seq (f : nat -> option A) n j :
  slot (map f (seq 0 n)) j = if decide (j < n) then f j else None.
Proof.
  unfold slot. rewrite list_lookup_fmap.
  destruct (decide (j < n)) as [Hj|Hj].
  - rewrite lookup_seq_lt by exact Hj. simpl. now destruct (f j).
  - now rewrite lookup_seq_ge by lia.
Qed.

End Arrays.

Lemma filter_all {A} (p : A -> bool) (l : list A) :
  (forall x, In x l -> p x = true) -> List.filter p l = l.
Proof.
  induction l as [|x l IH]; intros H; [reflexivity|].
  simpl. rewrite (H x) by now left. f_equal. apply IH. intros y Hy. apply H. now right.
Qed.

(** ** Directory page *)

Lemma fetchJson_fulfilled url r :
  fetchJson url r =
    match fulfilled r with
    | Some v => Fulfilled v
    | None => fetchJson url r
    end.
Proof. destruct r; reflexivity. Qed.

Lemma fetchJson_rejected url r :
  fulfilled r = None -> exists e, fetchJson url r = Rejected e.
Proof. destruct r; simpl; intros H; try discriminate; eauto. Qed.

Lemma bounded_NoDup_length (l : list nat) n :
  NoDup l -> (forall i, i ∈ l -> i < n) -> length l <= n.
Proof.
  intros Hnd Hb. transitivity (length (seq 0 n)); [|now rewrite length_seq].
  apply submseteq_length, NoDup_submseteq; [exact Hnd|].
  intros i Hi. apply elem_of_seq. specialize (Hb i Hi). lia.
Qed.

Lemma settled_slots (done : list nat) i (o : option json) (f : nat -> option json) :
  i ∉ done -> f i = o ->
  (forall j, (if decide (j = i) then o
              else if decide (j ∈ done) then f j else None)
             = if decide (j ∈ done ++ [i]) then f j else None).
Proof.
  intros Hi Hf j.
  assert (Hmem : j ∈ done ++ [i] <-> j = i \/ j ∈ done).
  { rewrite elem_of_app, list_elem_of_singleton. tauto. }
  destruct (decide (j = i)) as [->|Hne].
  - rewrite decide_True by (apply Hmem; now left). now rewrite Hf.
  - destruct (decide (j ∈ done)) as [Hd|Hd].
    + now rewrite decide_True by (apply Hmem; now right).
    + rewrite decide_False; [reflexivity|]. rewrite Hmem. tauto.
Qed.

Section Directory.
Variable EMPLOYEE_SLUGS : list string.
Variable outcome : nat -> response.

Lemma renderDirectoryCards_fields l st :
  cards (fst (renderDirectoryCards l st)) = cards st
  /\ loaded (fst (renderDirectoryCards l st)) = loaded st
  /\ failed (fst (renderDirectoryCards l st)) = failed st
  /\ console (fst (renderDirectoryCards l st)) = console st
  /\ render_calls (fst (renderDirectoryCards l st)) = render_calls st ++ [l]
  /\ view (fst (renderDirectoryCards l st)) = painted createEmployeeCard l
  /\ snd (renderDirectoryCards l st) =
       if forallb createEmployeeCard l then Returns else Throws.
Proof.
  destruct l as [|e l]; [repeat split; reflexivity|].
  unfold renderDirectoryCards, painted.
  destruct (forallb createEmployeeCard (e :: l)); repeat split; reflexivity.
Qed.

(** While another lookup is pending, a handler only fills its slot or
    reports its failure. *)
Lemma directory_settle_inv done st i :
  directory_inv EMPLOYEE_SLUGS outcome done st ->
  S (length done) < length EMPLOYEE_SLUGS -> i ∉ done -> i < length EMPLOYEE_SLUGS ->
  directory_inv EMPLOYEE_SLUGS outcome (done ++ [i]) (directory_settle EMPLOYEE_SLUGS outcome st i).
Proof.
  intros [Hs Hl Hc Hk Hr Hv] Hlen Hi Hin.
  destruct (lookup_lt_is_Some_2 EMPLOYEE_SLUGS i Hin) as [slug Hslug].
  unfold directory_settle. rewrite Hslug, fetchJson_fulfilled.
  destruct (fulfilled (outcome i)) as [v|] eqn:Hf.
  - (* the lookup resolves to v *)
    cbn [cards loaded failed].
    replace (Nat.eqb (S (loaded st) + failed st) (length EMPLOYEE_SLUGS)) with false
      by (symmetry; apply Nat.eqb_neq; lia).
    split; cbn [cards loaded failed console render_calls view]; try assumption.
    + intros j. rewrite slot_array_set, Hs.
      now apply settled_slots with (f := fun j => fulfilled (outcome j)).
    + rewrite omap_app, length_app, Hl. simpl. rewrite Hf. simpl. lia.
    + rewrite length_app. simpl. lia.
    + rewrite omap_app, Hk. simpl.
      replace (failure_report EMPLOYEE_SLUGS outcome i) with (@None string)
        by (unfold failure_report; now rewrite Hf).
      now rewrite app_nil_r.
  - (* the lookup fails *)
    destruct (fetchJson_rejected (record_url slug) _ Hf) as [e ->].
    unfold directory_catch. cbn [cards loaded failed].
    replace (Nat.eqb (loaded st + S (failed st)) (length EMPLOYEE_SLUGS)) with false
      by (symmetry; apply Nat.eqb_neq; lia).
    split; cbn [cards loaded failed console render_calls view]; try assumption.
    + intros j. rewrite Hs.
      rewrite <- (settled_slots done i None (fun j => fulfilled (outcome j)) Hi Hf j).
      destruct (decide (j = i)) as [->|_]; [|reflexivity].
      now rewrite decide_False by exact Hi.
    + rewrite omap_app, length_app, Hl. simpl. rewrite Hf. simpl. lia.
    + rewrite length_app. simpl. lia.
    + rewrite omap_app, Hk. simpl.
      replace (failure_report EMPLOYEE_SLUGS outcome i) with (Some ("Failed to load " +:+ slug))
        by (unfold failure_report; now rewrite Hf, Hslug).
      reflexivity.
Qed.

Lemma directory_run_inv done :
  NoDup done -> (forall i, i ∈ done -> i < length EMPLOYEE_SLUGS) ->
  length done < length EMPLOYEE_SLUGS ->
  directory_inv EMPLOYEE_SLUGS outcome done (directory_run EMPLOYEE_SLUGS outcome done).
Proof.
  induction done as [|i done IH] using rev_ind; intros Hnd Hb Hlen.
  - split; reflexivity.
  - apply NoDup_app in Hnd as (Hnd & Hdis & _).
    unfold directory_run. rewrite fold_left_app. simpl.
    rewrite length_app in Hlen. simpl in Hlen.
    apply directory_settle_inv.
    + apply IH; [exact Hnd| |lia]. intros j Hj. apply Hb, elem_of_app. now left.
    + lia.
    + intros Hi. apply (Hdis i Hi). now apply list_elem_of_singleton.
    + apply Hb, elem_of_app. right. now apply list_elem_of_singleton.
Qed.

(** Once every lookup has settled, the array filters to the resolved
    records that are truthy, in index order. *)
Lemma settled_cards schedule (a : list (option json)) :
  schedule ≡ₚ seq 0 (length EMPLOYEE_SLUGS) ->
  (forall j, slot a j = if decide (j ∈ schedule) then fulfilled (outcome j) else None) ->
  array_filter truthy a = List.filter truthy (resolved EMPLOYEE_SLUGS outcome).
Proof.
  intros Hp Hslots. unfold resolved. rewrite <- array_filter_map.
  apply array_filter_slots. intros j.
  rewrite Hslots, slot_map_seq.
  destruct (decide (j < length EMPLOYEE_SLUGS)) as [Hj|Hj].
  - rewrite decide_True; [reflexivity|]. rewrite Hp. apply elem_of_seq. lia.
  - rewrite decide_False; [reflexivity|]. rewrite Hp, elem_of_seq. lia.
Qed.

Lemma schedule_facts schedule :
  schedule ≡ₚ seq 0 (length EMPLOYEE_SLUGS) ->
  NoDup schedule
  /\ (forall i, i ∈ schedule -> i < length EMPLOYEE_SLUGS)
  /\ length schedule = length EMPLOYEE_SLUGS.
Proof.
  intros Hp. repeat split.
  - rewrite Hp. apply NoDup_seq.
  - intros i. rewrite Hp, elem_of_seq. lia.
  - rewrite Hp. apply length_seq.
Qed.

Lemma resolved_length schedule :
  schedule ≡ₚ seq 0 (length EMPLOYEE_SLUGS) ->
  length (omap (fun i => fulfilled (outcome i)) schedule)
    = length (resolved EMPLOYEE_SLUGS outcome).
Proof. intros Hp. unfold resolved. apply Permutation_length. now rewrite Hp. Qed.

(** The handler of the lookup that settles last calls the renderer; when
    the renderer throws in the handler of a resolved lookup, the chained
    handler logs and counts that lookup as failed. *)
Lemma directory_settle_last done st i :
  directory_inv EMPLOYEE_SLUGS outcome done st ->
  done ++ [i] ≡ₚ seq 0 (length EMPLOYEE_SLUGS) ->
  let st' := directory_settle EMPLOYEE_SLUGS outcome st i in
  let shown := List.filter truthy (resolved EMPLOYEE_SLUGS outcome) in
  let report := render_report createEmployeeCard EMPLOYEE_SLUGS outcome (done ++ [i]) in
  render_calls st' = [shown]
  /\ view st' = painted createEmployeeCard shown
  /\ loaded st' = length (resolved EMPLOYEE_SLUGS outcome)
  /\ loaded st' + failed st' = length EMPLOYEE_SLUGS + length report
  /\ console st' = omap (failure_report EMPLOYEE_SLUGS outcome) (done ++ [i]) ++ report.
Proof.
  intros [Hs Hl Hc Hk Hr Hv] Hp.
  destruct (schedule_facts _ Hp) as (Hnd & Hb & Hlen).
  rewrite length_app in Hlen. simpl in Hlen.
  apply NoDup_app in Hnd as (_ & Hdis & _).
  assert (Hi : i ∉ done).
  { intros Hi. apply (Hdis i Hi). now apply list_elem_of_singleton. }
  assert (Hin : i < length EMPLOYEE_SLUGS).
  { apply Hb, elem_of_app. right. now apply list_elem_of_singleton. }
  destruct (lookup_lt_is_Some_2 EMPLOYEE_SLUGS i Hin) as [slug Hslug].
  pose proof (resolved_length _ Hp) as Hres. rewrite omap_app, length_app in Hres.
  unfold render_report. rewrite last_snoc, Hslug.
  unfold directory_settle. rewrite Hslug, fetchJson_fulfilled.
  destruct (fulfilled (outcome i)) as [v|] eqn:Hf.
  - (* the lookup resolves to v *)
    cbn [cards loaded failed].
    replace (Nat.eqb (S (loaded st) + failed st) (length EMPLOYEE_SLUGS)) with true
      by (symmetry; apply Nat.eqb_eq; lia).
    set (st1 := DirectoryState _ _ _ _ _ _).
    assert (Hshown : array_filter truthy (array_set (cards st) i v)
                     = List.filter truthy (resolved EMPLOYEE_SLUGS outcome)).
    { apply (settled_cards (done ++ [i])); [exact Hp|].
      intros j. rewrite slot_array_set, Hs.
      now apply settled_slots with (f := fun j => fulfilled (outcome j)). }
    rewrite Hshown.
    destruct (renderDirectoryCards_fields
                (List.filter truthy (resolved EMPLOYEE_SLUGS outcome)) st1)
      as (Fc & Fl & Ff & Fk & Fr & Fv & Fs).
    assert (Hfail : omap (failure_report EMPLOYEE_SLUGS outcome) (done ++ [i])
                    = omap (failure_report EMPLOYEE_SLUGS outcome) done).
    { rewrite omap_app. simpl.
      replace (failure_report EMPLOYEE_SLUGS outcome i) with (@None string)
        by (unfold failure_report; now rewrite Hf).
      now rewrite app_nil_r. }
    rewrite Hfail.
    destruct (renderDirectoryCards
                (List.filter truthy (resolved EMPLOYEE_SLUGS outcome)) st1) as [st2 c].
    cbn [fst snd] in *. subst st1. cbn [cards loaded failed console render_calls view] in *.
    simpl in Hres. rewrite Hf in Hres. simpl in Hres.
    destruct (forallb createEmployeeCard
                (List.filter truthy (resolved EMPLOYEE_SLUGS outcome))); subst c.
    + cbv zeta. rewrite Fr, Fv, Fl, Ff, Fk, Hr, Hk, app_nil_r. simpl.
      repeat split; lia.
    + cbv zeta. unfold directory_catch. cbn [cards loaded failed].
      replace (Nat.eqb (loaded st2 + S (failed st2)) (length EMPLOYEE_SLUGS)) with false
        by (symmetry; apply Nat.eqb_neq; lia).
      cbn [cards loaded failed console render_calls view].
      rewrite Fr, Fv, Fl, Ff, Fk, Hr, Hk. simpl.
      repeat split; lia.
  - (* the lookup fails *)
    destruct (fetchJson_rejected (record_url slug) _ Hf) as [e ->].
    unfold directory_catch. cbn [cards loaded failed].
    replace (Nat.eqb (loaded st + S (failed st)) (length EMPLOYEE_SLUGS)) with true
      by (symmetry; apply Nat.eqb_eq; lia).
    set (st1 := DirectoryState _ _ _ _ _ _).
    assert (Hshown : array_filter truthy (cards st)
                     = List.filter truthy (resolved EMPLOYEE_SLUGS outcome)).
    { apply (settled_cards (done ++ [i])); [exact Hp|].
      intros j. rewrite Hs.
      rewrite <- (settled_slots done i None (fun j => fulfilled (outcome j)) Hi Hf j).
      destruct (decide (j = i)) as [->|_]; [|reflexivity].
      now rewrite decide_False by exact Hi. }
    rewrite Hshown.
    destruct (renderDirectoryCards_fields
                (List.filter truthy (resolved EMPLOYEE_SLUGS outcome)) st1)
      as (Fc & Fl & Ff & Fk & Fr & Fv & Fs).
    subst st1. cbn [cards loaded failed console render_calls view] in *.
    simpl in Hres. rewrite Hf in Hres. simpl in Hres.
    cbv zeta. rewrite Fr, Fv, Fl, Ff, Fk, Hr, Hk.
    assert (Hfail : omap (failure_report EMPLOYEE_SLUGS outcome) (done ++ [i])
                    = omap (failure_report EMPLOYEE_SLUGS outcome) done
                        ++ ["Failed to load " +:+ slug]).
    { rewrite omap_app. simpl.
      replace (failure_report EMPLOYEE_SLUGS outcome i) with (Some ("Failed to load " +:+ slug))
        by (unfold failure_report; now rewrite Hf, Hslug).
      reflexivity. }
    rewrite Hfail.
    assert (Hnone : (if forallb createEmployeeCard
                          (List.filter truthy (resolved EMPLOYEE_SLUGS outcome))
                     then [] else @nil string) = []) by now destruct (forallb _ _).
    rewrite Hnone, app_nil_r. simpl.
    repeat split; lia.
Qed.

End Directory.

(** The page after [loadDirectory] and the completion of every lookup. *)
Lemma loadDirectory_settled EMPLOYEE_SLUGS outcome schedule :
  schedule ≡ₚ seq 0 (length EMPLOYEE_SLUGS) ->
  let st := loadDirectory EMPLOYEE_SLUGS outcome schedule in
  let shown := List.filter truthy (resolved EMPLOYEE_SLUGS outcome) in
  let report := render_report createEmployeeCard EMPLOYEE_SLUGS outcome schedule in
  render_calls st = match EMPLOYEE_SLUGS with [] => [] | _ => [shown] end
  /\ view st = painted createEmployeeCard shown
  /\ (EMPLOYEE_SLUGS <> [] -> loaded st = length (resolved EMPLOYEE_SLUGS outcome))
  /\ (EMPLOYEE_SLUGS <> [] -> loaded st + failed st = length EMPLOYEE_SLUGS + length report)
  /\ console st = omap (failure_report EMPLOYEE_SLUGS outcome) schedule ++ report.
Proof.
  intros Hp. destruct (schedule_facts _ schedule Hp) as (Hnd & Hb & Hlen).
  destruct EMPLOYEE_SLUGS as [|s0 rest] eqn:E.
  - simpl in Hp. apply Permutation_sym, Permutation_nil in Hp. subst schedule.
    simpl. repeat split; intros H; congruence.
  - rewrite <- E in *.
    replace (loadDirectory EMPLOYEE_SLUGS outcome schedule)
      with (directory_run EMPLOYEE_SLUGS outcome schedule) by (rewrite E; reflexivity).
    destruct schedule as [|i done _] using rev_ind; [rewrite E in Hlen; discriminate|].
    rewrite length_app in Hlen. simpl in Hlen.
    apply NoDup_app in Hnd as (Hnd & _ & _).
    assert (Hinv : directory_inv EMPLOYEE_SLUGS outcome done
                     (directory_run EMPLOYEE_SLUGS outcome done)).
    { apply directory_run_inv; [exact Hnd| |lia].
      intros j Hj. apply Hb, elem_of_app. now left. }
    unfold directory_run. rewrite fold_left_app. simpl fold_left.
    destruct (directory_settle_last EMPLOYEE_SLUGS outcome done _ i Hinv Hp)
      as (Hr & Hv & Hl & Hc & Hk).
    cbv zeta. unfold directory_run in *.
    split; [rewrite Hr, E; reflexivity|]. split; [exact Hv|].
    split; [intros _; exact Hl|]. split; [intros _; exact Hc | exact Hk].
Qed.

(** When every card can be built, the counters add up to the number of
    lookups and the console holds the failure reports only. *)
Lemma render_report_none builds EMPLOYEE_SLUGS outcome schedule :
  forallb builds (List.filter truthy (resolved EMPLOYEE_SLUGS outcome)) = true ->
  render_report builds EMPLOYEE_SLUGS outcome schedule = [].
Proof. intros H. unfold render_report. now rewrite H. Qed.

(** Before the last lookup settles, nothing is rendered. *)
Lemma loadDirectory_pending EMPLOYEE_SLUGS outcome done rest :
  done ++ rest ≡ₚ seq 0 (length EMPLOYEE_SLUGS) -> rest <> [] ->
  render_calls (loadDirectory EMPLOYEE_SLUGS outcome done) = []
  /\ view (loadDirectory EMPLOYEE_SLUGS outcome done) = DirectoryLoading.
Proof.
  intros Hp Hrest. destruct (schedule_facts _ _ Hp) as (Hnd & Hb & Hlen).
  rewrite length_app in Hlen.
  assert (Hr : 0 < length rest) by (destruct rest; [congruence | simpl; lia]).
  destruct EMPLOYEE_SLUGS as [|s0 more] eqn:E.
  - simpl in Hlen. lia.
  - rewrite <- E in *.
    replace (loadDirectory EMPLOYEE_SLUGS outcome done)
      with (directory_run EMPLOYEE_SLUGS outcome done) by (rewrite E; reflexivity).
    apply NoDup_app in Hnd as (Hnd & _ & _).
    assert (Hinv : directory_inv EMPLOYEE_SLUGS outcome done
                     (directory_run EMPLOYEE_SLUGS outcome done)).
    { apply directory_run_inv; [exact Hnd | | lia].
      intros i Hi. apply Hb, elem_of_app. now left. }
    destruct Hinv as [_ _ _ _ Hc Hv]. now split.
Qed.

(** ** Management page *)

Section Manage.
Variable EMPLOYEE_SLUGS : list string.
Variable outcome : nat -> response.

Lemma renderManageList_fields l st :
  employees (fst (renderManageList l st)) = employees st
  /\ manage_loaded (fst (renderManageList l st)) = manage_loaded st
  /\ manage_console (fst (renderManageList l st)) = manage_console st
  /\ manage_render_calls (fst (renderManageList l st)) = manage_render_calls st ++ [l]
  /\ manage_view (fst (renderManageList l st)) = painted createManageItem l
  /\ snd (renderManageList l st) = if forallb createManageItem l then Returns else Throws.
Proof.
  destruct l as [|e l]; [repeat split; reflexivity|].
  unfold renderManageList, painted.
  destruct (forallb createManageItem (e :: l)); repeat split; reflexivity.
Qed.

Lemma manage_settle_inv done st i :
  manage_inv EMPLOYEE_SLUGS outcome done st ->
  S (length done) < length EMPLOYEE_SLUGS -> i ∉ done -> i < length EMPLOYEE_SLUGS ->
  manage_inv EMPLOYEE_SLUGS outcome (done ++ [i]) (manage_settle EMPLOYEE_SLUGS outcome st i).
Proof.
  intros [Hs Hc Hk Hr Hv] Hlen Hi Hin.
  destruct (lookup_lt_is_Some_2 EMPLOYEE_SLUGS i Hin) as [slug Hslug].
  unfold manage_settle. rewrite Hslug, fetchJson_fulfilled.
  destruct (fulfilled (outcome i)) as [v|] eqn:Hf.
  - cbn [employees manage_loaded].
    replace (Nat.eqb (S (manage_loaded st)) (length EMPLOYEE_SLUGS)) with false
      by (symmetry; apply Nat.eqb_neq; lia).
    split; cbn [employees manage_loaded manage_console manage_render_calls manage_view];
      try assumption.
    + intros j. rewrite slot_array_set, Hs.
      now apply settled_slots with (f := fun j => fulfilled (outcome j)).
    + rewrite length_app. simpl. lia.
    + rewrite omap_app, Hk. simpl.
      replace (failure_report EMPLOYEE_SLUGS outcome i) with (@None string)
        by (unfold failure_report; now rewrite Hf).
      now rewrite app_nil_r.
  - destruct (fetchJson_rejected (record_url slug) _ Hf) as [e ->].
    unfold manage_catch. cbn [employees manage_loaded].
    replace (Nat.eqb (S (manage_loaded st)) (length EMPLOYEE_SLUGS)) with false
      by (symmetry; apply Nat.eqb_neq; lia).
    split; cbn [employees manage_loaded manage_console manage_render_calls manage_view];
      try assumption.
    + intros j. rewrite Hs.
      rewrite <- (settled_slots done i None (fun j => fulfilled (outcome j)) Hi Hf j).
      destruct (decide (j = i)) as [->|_]; [|reflexivity].
      now rewrite decide_False by exact Hi.
    + rewrite length_app. simpl. lia.
    + rewrite omap_app, Hk. simpl.
      replace (failure_report EMPLOYEE_SLUGS outcome i) with (Some ("Failed to load " +:+ slug))
        by (unfold failure_report; now rewrite Hf, Hslug).
      reflexivity.
Qed.

Lemma manage_run_inv done :
  NoDup done -> (forall i, i ∈ done -> i < length EMPLOYEE_SLUGS) ->
  length done < length EMPLOYEE_SLUGS ->
  manage_inv EMPLOYEE_SLUGS outcome done (manage_run EMPLOYEE_SLUGS outcome done).
Proof.
  induction done as [|i done IH] using rev_ind; intros Hnd Hb Hlen.
  - split; reflexivity.
  - apply NoDup_app in Hnd as (Hnd & Hdis & _).
    unfold manage_run. rewrite fold_left_app. simpl.
    rewrite length_app in Hlen. simpl in Hlen.
    apply manage_settle_inv.
    + apply IH; [exact Hnd| |lia]. intros j Hj. apply Hb, elem_of_app. now left.
    + lia.
    + intros Hi. apply (Hdis i Hi). now apply list_elem_of_singleton.
    + apply Hb, elem_of_app. right. now apply list_elem_of_singleton.
Qed.

(** The handler of the lookup that settles last calls the renderer; when
    the renderer throws in the handler of a resolved lookup, the chained
    handler logs that lookup and counts it a second time. *)
Lemma manage_settle_last done st i :
  manage_inv EMPLOYEE_SLUGS outcome done st ->
  done ++ [i] ≡ₚ seq 0 (length EMPLOYEE_SLUGS) ->
  let st' := manage_settle EMPLOYEE_SLUGS outcome st i in
  let shown := List.filter truthy (resolved EMPLOYEE_SLUGS outcome) in
  let report := render_report createManageItem EMPLOYEE_SLUGS outcome (done ++ [i]) in
  manage_render_calls st' = [shown]
  /\ manage_view st' = painted createManageItem shown
  /\ manage_loaded st' = length EMPLOYEE_SLUGS + length report
  /\ manage_console st' = omap (failure_report EMPLOYEE_SLUGS outcome) (done ++ [i]) ++ report.
Proof.
  intros [Hs Hc Hk Hr Hv] Hp.
  destruct (schedule_facts EMPLOYEE_SLUGS _ Hp) as (Hnd & Hb & Hlen).
  rewrite length_app in Hlen. simpl in Hlen.
  apply NoDup_app in Hnd as (_ & Hdis & _).
  assert (Hi : i ∉ done).
  { intros Hi. apply (Hdis i Hi). now apply list_elem_of_singleton. }
  assert (Hin : i < length EMPLOYEE_SLUGS).
  { apply Hb, elem_of_app. right. now apply list_elem_of_singleton. }
  destruct (lookup_lt_is_Some_2 EMPLOYEE_SLUGS i Hin) as [slug Hslug].
  unfold render_report. rewrite last_snoc, Hslug.
  unfold manage_settle. rewrite Hslug, fetchJson_fulfilled.
  destruct (fulfilled (outcome i)) as [v|] eqn:Hf.
  - cbn [employees manage_loaded].
    replace (Nat.eqb (S (manage_loaded st)) (length EMPLOYEE_SLUGS)) with true
      by (symmetry; apply Nat.eqb_eq; lia).
    set (st1 := ManageState _ _ _ _ _).
    assert (Hshown : array_filter truthy (array_set (employees st) i v)
                     = List.filter truthy (resolved EMPLOYEE_SLUGS outcome)).
    { apply (settled_cards EMPLOYEE_SLUGS outcome (done ++ [i])); [exact Hp|].
      intros j. rewrite slot_array_set, Hs.
      now apply settled_slots with (f := fun j => fulfilled (outcome j)). }
    rewrite Hshown.
    destruct (renderManageList_fields
                (List.filter truthy (resolved EMPLOYEE_SLUGS outcome)) st1)
      as (Fe & Fl & Fk & Fr & Fv & Fs).
    assert (Hfail : omap (failure_report EMPLOYEE_SLUGS outcome) (done ++ [i])
                    = omap (failure_report EMPLOYEE_SLUGS outcome) done).
    { rewrite omap_app. simpl.
      replace (failure_report EMPLOYEE_SLUGS outcome i) with (@None string)
        by (unfold failure_report; now rewrite Hf).
      now rewrite app_nil_r. }
    rewrite Hfail.
    destruct (renderManageList
                (List.filter truthy (resolved EMPLOYEE_SLUGS outcome)) st1) as [st2 c].
    cbn [fst snd] in *. subst st1.
    cbn [employees manage_loaded manage_console manage_render_calls manage_view] in *.
    destruct (forallb createManageItem
                (List.filter truthy (resolved EMPLOYEE_SLUGS outcome))); subst c.
    + cbv zeta. rewrite Fr, Fv, Fl, Fk, Hr, Hk, app_nil_r. simpl.
      repeat split; lia.
    + cbv zeta. unfold manage_catch. cbn [employees manage_loaded].
      replace (Nat.eqb (S (manage_loaded st2)) (length EMPLOYEE_SLUGS)) with false
        by (symmetry; apply Nat.eqb_neq; lia).
      cbn [employees manage_loaded manage_console manage_render_calls manage_view].
      rewrite Fr, Fv, Fl, Fk, Hr, Hk. simpl.
      repeat split; lia.
  - destruct (fetchJson_rejected (record_url slug) _ Hf) as [e ->].
    unfold manage_catch. cbn [employees manage_loaded].
    replace (Nat.eqb (S (manage_loaded st)) (length EMPLOYEE_SLUGS)) with true
      by (symmetry; apply Nat.eqb_eq; lia).
    set (st1 := ManageState _ _ _ _ _).
    assert (Hshown : array_filter truthy (employees st)
                     = List.filter truthy (resolved EMPLOYEE_SLUGS outcome)).
    { apply (settled_cards EMPLOYEE_SLUGS outcome (done ++ [i])); [exact Hp|].
      intros j. rewrite Hs.
      rewrite <- (settled_slots done i None (fun j => fulfilled (outcome j)) Hi Hf j).
      destruct (decide (j = i)) as [->|_]; [|reflexivity].
      now rewrite decide_False by exact Hi. }
    rewrite Hshown.
    destruct (renderManageList_fields
                (List.filter truthy (resolved EMPLOYEE_SLUGS outcome)) st1)
      as (Fe & Fl & Fk & Fr & Fv & Fs).
    subst st1.
    cbn [employees manage_loaded manage_console manage_render_calls manage_view] in *.
    cbv zeta. rewrite Fr, Fv, Fl, Fk, Hr, Hk.
    assert (Hfail : omap (failure_report EMPLOYEE_SLUGS outcome) (done ++ [i])
                    = omap (failure_report EMPLOYEE_SLUGS outcome) done
                        ++ ["Failed to load " +:+ slug]).
    { rewrite omap_app. simpl.
      replace (failure_report EMPLOYEE_SLUGS outcome i) with (Some ("Failed to load " +:+ slug))
        by (unfold failure_report; now rewrite Hf, Hslug).
      reflexivity. }
    rewrite Hfail.
    assert (Hnone : (if forallb createManageItem
                          (List.filter truthy (resolved EMPLOYEE_SLUGS outcome))
                     then [] else @nil string) = []) by now destruct (forallb _ _).
    rewrite Hnone, app_nil_r. simpl.
    repeat split; lia.
Qed.

End Manage.

Lemma loadManageList_settled EMPLOYEE_SLUGS outcome schedule :
  schedule ≡ₚ seq 0 (length EMPLOYEE_SLUGS) ->
  let st := loadManageList EMPLOYEE_SLUGS outcome schedule in
  let shown := List.filter truthy (resolved EMPLOYEE_SLUGS outcome) in
  let report := render_report createManageItem EMPLOYEE_SLUGS outcome schedule in
  manage_render_calls st = match EMPLOYEE_SLUGS with [] => [] | _ => [shown] end
  /\ manage_view st = painted createManageItem shown
  /\ (EMPLOYEE_SLUGS <> [] -> manage_loaded st = length EMPLOYEE_SLUGS + length report)
  /\ manage_console st = omap (failure_report EMPLOYEE_SLUGS outcome) schedule ++ report.
Proof.
  intros Hp. destruct (schedule_facts _ schedule Hp) as (Hnd & Hb & Hlen).
  destruct EMPLOYEE_SLUGS as [|s0 rest] eqn:E.
  - simpl in Hp. apply Permutation_sym, Permutation_nil in Hp. subst schedule.
    simpl. repeat split; intros H; congruence.
  - rewrite <- E in *.
    replace (loadManageList EMPLOYEE_SLUGS outcome schedule)
      with (manage_run EMPLOYEE_SLUGS outcome schedule) by (rewrite E; reflexivity).
    destruct schedule as [|i done _] using rev_ind; [rewrite E in Hlen; discriminate|].
    rewrite length_app in Hlen. simpl in Hlen.
    apply NoDup_app in Hnd as (Hnd & _ & _).
    assert (Hinv : manage_inv EMPLOYEE_SLUGS outcome done
                     (manage_run EMPLOYEE_SLUGS outcome done)).
    { apply manage_run_inv; [exact Hnd| |lia].
      intros j Hj. apply Hb, elem_of_app. now left. }
    unfold manage_run. rewrite fold_left_app. simpl fold_left.
    destruct (manage_settle_last EMPLOYEE_SLUGS outcome done _ i Hinv Hp)
      as (Hr & Hv & Hl & Hk).
    cbv zeta. unfold manage_run in *.
    split; [rewrite Hr, E; reflexivity|]. split; [exact Hv|].
    split; [intros _; exact Hl | exact Hk].
Qed.

(** A value that [createEmployeeCard] makes a card of is one that
    [createManageItem] makes an item of. *)
Lemma card_item v : createEmployeeCard v = true -> createManageItem v = true.
Proof.
  unfold createEmployeeCard, createManageItem. cbn [forallb]. rewrite !andb_true_r.
  intros H. repeat (apply andb_true_iff in H as [? H]).
  repeat (apply andb_true_iff; split); assumption.
Qed.

Lemma cards_items l :
  forallb createEmployeeCard l = true -> forallb createManageItem l = true.
Proof.
  induction l as [|v l IH]; [reflexivity|]. cbn [forallb].
  intros [Hv Hl]%andb_true_iff. now rewrite (card_item _ Hv), IH.
Qed.

Lemma painted_builds builds l :
  forallb builds l = true -> painted builds l = shown_list l.
Proof. intros H. unfold painted. now rewrite H. Qed.

Lemma resolved_truthy EMPLOYEE_SLUGS outcome :
  (forall i v, i < length EMPLOYEE_SLUGS -> outcome i = Body v -> truthy v = true) ->
  List.filter truthy (resolved EMPLOYEE_SLUGS outcome) = resolved EMPLOYEE_SLUGS outcome.
Proof.
  intros H. apply filter_all. intros v Hv.
  apply list_elem_of_In, list_elem_of_omap in Hv as (i & Hi & Hf).
  apply elem_of_seq in Hi. apply (H i); [lia|].
  destruct (outcome i); simpl in Hf; congruence.
Qed.





(** C1: whatever the identifiers, the outcome of each lookup and the order in
    which the lookups complete, once all of them have settled
    [renderDirectoryCards] is called once, with the successfully resolved
    records in the index order of the identifier sequence (a failed slug is
    left out); nothing is rendered before the last lookup settles.  Records
    are JSON objects, hence truthy.  With no identifier at all the renderer
    is not called and the page shows the empty directory.  The page then
    shows the cards of that list, or the empty directory when no lookup
    resolved; when the card of one of the records cannot be built, the
    renderer throws and the grid stays hidden. *)
Theorem directory_order_preserved (EMPLOYEE_SLUGS : list string)
    (outcome : nat -> response) (schedule : list nat) :
  schedule ≡ₚ seq 0 (length EMPLOYEE_SLUGS) ->
  (forall i v, i < length EMPLOYEE_SLUGS -> outcome i = Body v -> truthy v = true) ->
  render_calls (loadDirectory EMPLOYEE_SLUGS outcome schedule) =
    match EMPLOYEE_SLUGS with
    | [] => []
    | _ => [resolved EMPLOYEE_SLUGS outcome]
    end
  /\ view (loadDirectory EMPLOYEE_SLUGS outcome schedule) =
       (if forallb createEmployeeCard (resolved EMPLOYEE_SLUGS outcome)
        then shown_list (resolved EMPLOYEE_SLUGS outcome)
        else DirectoryBlank)
  /\ (forall done rest, schedule = done ++ rest -> rest <> [] ->
        render_calls (loadDirectory EMPLOYEE_SLUGS outcome done) = []).
Proof.
  intros Hp Htruthy.
  destruct (loadDirectory_settled EMPLOYEE_SLUGS outcome schedule Hp) as (Hr & Hv & _).
  rewrite (resolved_truthy _ _ Htruthy) in Hr, Hv.
  split; [exact Hr|]. split; [exact Hv|].
  intros done rest -> Hrest.
  now destruct (loadDirectory_pending EMPLOYEE_SLUGS outcome done rest Hp Hrest).
Qed.

Lemma directory_order_preserved_witness :
  render_calls (loadDirectory ["a"; "b"; "c"] example_outcome [1; 0; 2]) =
    [[example_record "a"; example_record "c"]]
  /\ view (loadDirectory ["a"; "b"; "c"] example_outcome [1; 0; 2]) =
       DirectoryGrid [example_record "a"; example_record "c"]
  /\ view (loadDirectory ["a"; "b"; "c"] unconvertible_outcome [1; 0; 2]) = DirectoryBlank.
Proof.
  split; [|split].
  - refine (proj1 (directory_order_preserved ["a"; "b"; "c"] example_outcome [1; 0; 2] _ _)).
    + simpl. apply perm_swap.
    + intros i v Hi.
      destruct i as [|[|[|i]]]; simpl in *; intros H; inversion H; reflexivity || lia.
  - refine (proj1 (proj2
              (directory_order_preserved ["a"; "b"; "c"] example_outcome [1; 0; 2] _ _))).
    + simpl. apply perm_swap.
    + intros i v Hi.
      destruct i as [|[|[|i]]]; simpl in *; intros H; inversion H; reflexivity || lia.
  - refine (proj1 (proj2
              (directory_order_preserved ["a"; "b"; "c"] unconvertible_outcome [1; 0; 2] _ _))).
    + simpl. apply perm_swap.
    + intros i v Hi.
      destruct i as [|[|[|i]]]; simpl in *; intros H; inversion H; reflexivity || lia.
Defined.

(** The falsy values. *)
Lemma truthy_false_iff v :
  truthy v = false <->
  v = JNull \/ v = JBool false \/ v = JString ""
  \/ exists x, v = JNumber x /\ (PrimFloat.is_zero x || PrimFloat.is_nan x = true).
Proof.
  split.
  - destruct v as [|[]|x|[|c s]| |]; simpl; intros H; try discriminate; auto.
    right. right. right. exists x. split; [reflexivity|]. now apply negb_false_iff.
  - intros [->|[->|[->|(x & -> & H)]]]; simpl; try reflexivity.
    now apply negb_false_iff.
Qed.



(** ** Profile page *)

(** C8: without a [person] parameter the page ends in the "No employee
    specified" state and no address has been fetched. *)
Theorem profile_missing_parameter (search : list (string * string))
    (server : string -> response) :
  getQueryParam search "person" = None ->
  initProfilePage search server = no_employee_specified
  /\ fetches (initProfilePage search server) = [].
Proof.
  intros H. unfold initProfilePage. rewrite H. split; reflexivity.
Qed.

Lemma profile_missing_parameter_witness :
  initProfilePage [("ref", "mail")] (fun _ => Body (example_record "a")) = no_employee_specified
  /\ fetches (initProfilePage [("ref", "mail")] (fun _ => Body (example_record "a"))) = [].
Proof.
  exact (profile_missing_parameter [("ref", "mail")] (fun _ => Body (example_record "a")) eq_refl).
Defined.

(** C10: a [person] parameter that is present with an empty value is handled
    as an absent one: same final state, "No employee specified", and no
    fetch, in particular none for the empty slug. *)
Theorem profile_empty_parameter (search absent : list (string * string))
    (server : string -> response) :
  getQueryParam search "person" = Some "" ->
  getQueryParam absent "person" = None ->
  initProfilePage search server = initProfilePage absent server
  /\ initProfilePage search server = no_employee_specified
  /\ fetches (initProfilePage search server) = [].
Proof.
  intros H Ha. unfold initProfilePage. rewrite H, Ha. repeat split; reflexivity.
Qed.

Lemma profile_empty_parameter_witness :
  initProfilePage [("person", "")] (fun _ => Body (example_record "a"))
    = initProfilePage [] (fun _ => Body (example_record "a"))
  /\ initProfilePage [("person", "")] (fun _ => Body (example_record "a")) = no_employee_specified
  /\ fetches (initProfilePage [("person", "")] (fun _ => Body (example_record "a"))) = [].
Proof.
  exact (profile_empty_parameter [("person", "")] [] (fun _ => Body (example_record "a"))
           eq_refl eq_refl).
Defined.

(** C7, counterexample: for the slug [jane-doe], a host that answers 404 (no
    backing record) and a host that answers a body that is not JSON (a
    malformed record) lead to the same final state; the two states are not
    distinct. *)
Lemma profile_not_found_vs_malformed_counterexample :
  ~ (initProfilePage [("person", "jane-doe")] (fun _ => HttpError 404)
     <> initProfilePage [("person", "jane-doe")] (fun _ => Malformed)).
Proof. intros H. apply H. reflexivity. Qed.

(** C7, as amended: a direct profile lookup fetches the address of the
    requested record and nothing else (the directory index is not
    consulted); when that lookup fails the page ends in the "Employee not
    found" state that carries the requested slug.  The same state is reached
    whether the record is missing, the transfer fails or the record is
    unparsable: one handler serves every failed lookup. *)
Theorem profile_not_found (search : list (string * string)) (server : string -> response)
    (slug : string) :
  getQueryParam search "person" = Some slug -> slug <> "" ->
  fetches (initProfilePage search server) = [record_url slug]
  /\ (fulfilled (server (record_url slug)) = None ->
      initProfilePage search server =
        ProfileState [record_url slug] (ProfileError ("Employee not found: " +:+ slug))).
Proof.
  intros H Hne. unfold initProfilePage. rewrite H.
  destruct slug as [|c s]; [congruence|]. cbn [Js.truthy_value Js.truthy_string].
  unfold loadProfile. split.
  - destruct (server (record_url (String c s))) as [| | |v]; try reflexivity.
    simpl. destruct (renderProfile v); reflexivity.
  - intros Hf. destruct (server (record_url (String c s))); simpl in *; try reflexivity.
    discriminate.
Qed.

Lemma profile_not_found_witness :
  fetches (initProfilePage [("person", "jane-doe")] (fun _ => HttpError 404))
    = ["/employee-cards/jane-doe/data.json"]
  /\ initProfilePage [("person", "jane-doe")] (fun _ => HttpError 404)
     = ProfileState ["/employee-cards/jane-doe/data.json"]
         (ProfileError "Employee not found: jane-doe").
Proof.
  destruct (profile_not_found [("person", "jane-doe")] (fun _ => HttpError 404) "jane-doe"
              eq_refl) as [Hf Hs].
  - discriminate.
  - split; [exact Hf | exact (Hs eq_refl)].
Defined.

(** ** Bio images of the profile *)

(** C6, counterexample: the bare file name [http-chart.png] is a local
    reference, and the profile leaves it as it is instead of rewriting it to
    the address under the folder of the slug; the external address
    [ftp://files.example.org/a.png] is rewritten. *)
Lemma renderProfile_bio_counterexample :
  is_bare_filename "http-chart.png" = true
  /\ renderProfile_bio "jane-doe" [Some "http-chart.png"]
     <> [Some (BASE_URL +:+ "/" +:+ "jane-doe" +:+ "/" +:+ "http-chart.png")]
  /\ renderProfile_bio "jane-doe" [Some "ftp://files.example.org/a.png"]
     <> [Some "ftp://files.example.org/a.png"].
Proof. repeat split; vm_compute; discriminate. Qed.

(** C6, as amended: when a profile is rendered, every image of the bio whose
    [src] attribute is present, not empty and does not start with the four
    characters [http] gets the address base + [/] + slug + [/] + original
    reference; an image whose [src] starts with [http], is empty or is
    absent is left untouched.  Order and number of the images are kept. *)
Theorem renderProfile_bio_rewrites (slug : string) (srcs : list (option string)) (i : nat) :
  length (renderProfile_bio slug srcs) = length srcs
  /\ (forall s, srcs !! i = Some (Some s) -> s <> "" -> Js.startsWith s "http" = false ->
        renderProfile_bio slug srcs !! i = Some (Some (BASE_URL +:+ "/" +:+ slug +:+ "/" +:+ s)))
  /\ (forall s, srcs !! i = Some (Some s) -> Js.startsWith s "http" = true ->
        renderProfile_bio slug srcs !! i = Some (Some s))
  /\ (srcs !! i = Some (Some "") -> renderProfile_bio slug srcs !! i = Some (Some ""))
  /\ (srcs !! i = Some None -> renderProfile_bio slug srcs !! i = Some None).
Proof.
  unfold renderProfile_bio.
  split; [apply length_map|].
  assert (Hl : forall src, srcs !! i = Some src ->
                 map (rewrite_image slug) srcs !! i = Some (rewrite_image slug src)).
  { intros src Hi. change (map ?f srcs) with (f <$> srcs). now rewrite list_lookup_fmap, Hi. }
  repeat split.
  - intros s Hi Hne Hs. rewrite (Hl _ Hi). simpl. rewrite Hs.
    destruct s; [congruence | reflexivity].
  - intros s Hi Hs. rewrite (Hl _ Hi). simpl. rewrite Hs. now rewrite andb_false_r.
  - intros Hi. now rewrite (Hl _ Hi).
  - intros Hi. now rewrite (Hl _ Hi).
Qed.

Lemma renderProfile_bio_rewrites_witness :
  renderProfile_bio "jane-doe" [Some "bio-image-1.gif"; Some "https://example.org/a.png"] !! 0
    = Some (Some "/employee-cards/jane-doe/bio-image-1.gif")
  /\ renderProfile_bio "jane-doe" [Some "bio-image-1.gif"; Some "https://example.org/a.png"] !! 1
    = Some (Some "https://example.org/a.png").
Proof.
  pose (srcs := [Some "bio-image-1.gif"; Some "https://example.org/a.png"]).
  destruct (renderProfile_bio_rewrites "jane-doe" srcs 0) as (_ & H0 & _).
  destruct (renderProfile_bio_rewrites "jane-doe" srcs 1) as (_ & _ & H1 & _).
  assert (Hne : "bio-image-1.gif" <> "") by discriminate.
  split.
  - exact (H0 "bio-image-1.gif" eq_refl Hne eq_refl).
  - exact (H1 "https://example.org/a.png" eq_refl eq_refl).
Defined.

(** ** Archive *)

Section Archive.
Implicit Types (folder : gmap string entry) (ms : list media_item).

Lemma insert_media_snoc folder ms m :
  insert_media folder (ms ++ [m]) = <[filename m := BlobEntry (file m)]> (insert_media folder ms).
Proof. unfold insert_media. now rewrite fold_left_app. Qed.

Lemma insert_media_dom folder ms :
  dom (insert_media folder ms) = dom folder ∪ list_to_set (map filename ms).
Proof.
  induction ms as [|m ms IH] using rev_ind.
  - simpl. set_solver.
  - rewrite insert_media_snoc, dom_insert_L, IH, map_app, list_to_set_app_L. simpl. set_solver.
Qed.

Lemma insert_media_other folder ms name :
  ~ In name (map filename ms) -> insert_media folder ms !! name = folder !! name.
Proof.
  induction ms as [|m ms IH] using rev_ind; intros Hn; [reflexivity|].
  rewrite map_app, in_app_iff in Hn. simpl in Hn.
  rewrite insert_media_snoc, lookup_insert_ne by tauto. apply IH. tauto.
Qed.

Lemma insert_media_lookup folder ms m :
  NoDup (map filename ms) -> In m ms ->
  insert_media folder ms !! filename m = Some (BlobEntry (file m)).
Proof.
  induction ms as [|x ms IH] using rev_ind; intros Hnd Hin; [destruct Hin|].
  rewrite map_app in Hnd. apply NoDup_app in Hnd as (Hnd & Hdis & _).
  rewrite insert_media_snoc. apply in_app_iff in Hin as [Hin|[->|[]]].
  - rewrite lookup_insert_ne; [now apply IH|].
    intros Heq. apply (Hdis (filename m)).
    + apply list_elem_of_In, in_map, Hin.
    + rewrite <- Heq. simpl. apply list_elem_of_singleton. reflexivity.
  - apply lookup_insert_eq.
Qed.

Lemma folder_file_singleton slug name data folder :
  folder_file slug name data {[slug := folder]} = {[slug := <[name := data]> folder]}.
Proof.
  unfold folder_file. rewrite lookup_singleton_eq. simpl. apply insert_singleton_eq.
Qed.

(** The loop of [createEmployeeZip] over the media, started after [k]
    media in a single folder. *)
Lemma add_media_fold slug total folder k g ms :
  k + length ms <= total ->
  let st := fold_left (add_media slug total) ms (ZipState {[slug := folder]} k g) in
  zip_files st = {[slug := insert_media folder ms]}
  /\ mediaProcessed st = k + length ms
  /\ generated st =
       if decide (ms <> [] /\ k + length ms = total) then Some (zip_files st) else g.
Proof.
  induction ms as [|m ms IH] using rev_ind; intros Hle.
  - cbn [fold_left zip_files mediaProcessed generated length].
    split; [reflexivity|]. split; [lia|].
    destruct (decide _) as [[H _]|_]; [congruence | reflexivity].
  - rewrite length_app in Hle. simpl in Hle.
    destruct IH as (Hf & Hp & Hg); [lia|].
    rewrite decide_False in Hg by lia.
    rewrite fold_left_app. cbn [fold_left].
    set (st := fold_left (add_media slug total) ms (ZipState {[slug := folder]} k g)) in *.
    unfold add_media. rewrite Hf, Hp, Hg, folder_file_singleton, <- insert_media_snoc.
    rewrite length_app. cbn [length].
    destruct (Nat.eqb_spec (S (k + length ms)) total) as [He|He];
      cbn [zip_files mediaProcessed generated].
    + split; [reflexivity|]. split; [lia|]. rewrite decide_True; [reflexivity|].
      split; [now destruct ms | lia].
    + split; [reflexivity|]. split; [lia|]. rewrite decide_False; [reflexivity | lia].
Qed.

End Archive.

(** The promise of [createEmployeeZip] always resolves: [generateAsync] is
    called once, after the last entry was added. *)
Lemma createEmployeeZip_produces slug employeeData vcard headshotFile mediaFiles :
  createEmployeeZip slug employeeData vcard headshotFile mediaFiles =
    Some {[slug := insert_media (base_folder employeeData vcard headshotFile) mediaFiles]}.
Proof.
  assert (Hzip : folder_file slug (headshot employeeData) (BlobEntry headshotFile)
                   (folder_file slug "contact.vcf" (TextEntry vcard)
                      (folder_file slug "data.json" (TextEntry (Json.stringify employeeData))
                         (zip_folder slug ∅)))
                 = {[slug := base_folder employeeData vcard headshotFile]}).
  { unfold zip_folder. rewrite lookup_empty, insert_empty.
    now rewrite !folder_file_singleton. }
  unfold createEmployeeZip. rewrite Hzip.
  destruct mediaFiles as [|m0 ms] eqn:E; [reflexivity|]. rewrite <- E in *.
  replace (Nat.eqb (length mediaFiles) 0) with false by (rewrite E; reflexivity).
  destruct (add_media_fold slug (length mediaFiles)
              (base_folder employeeData vcard headshotFile) 0 None mediaFiles)
    as (Hf & _ & Hg); [simpl; lia|].
  rewrite Hg, Hf. rewrite decide_True; [reflexivity|].
  split; [rewrite E; discriminate | reflexivity].
Qed.

(** C5: for a slug, a record with its normalized headshot name, a contact
    card, a headshot blob and media whose file names differ from one another
    and from [data.json], [contact.vcf] and the headshot name, the archive
    is produced and holds one top-level folder, named by the slug, whose
    entries are exactly: [data.json] with the serialized record,
    [contact.vcf] with the card, the headshot blob under the headshot name,
    and every media blob under its file name. *)
Theorem createEmployeeZip_layout (slug : string) (employeeData : employee) (vcard : string)
    (headshotFile : File) (mediaFiles : list media_item) :
  Js.startsWith (headshot employeeData) "headshot" = true ->
  NoDup (map filename mediaFiles) ->
  (forall m, In m mediaFiles ->
     filename m <> "data.json" /\ filename m <> "contact.vcf"
     /\ filename m <> headshot employeeData) ->
  exists folder : gmap string entry,
    createEmployeeZip slug employeeData vcard headshotFile mediaFiles = Some {[slug := folder]}
    /\ dom folder =
         {["data.json"; "contact.vcf"; headshot employeeData]}
           ∪ list_to_set (map filename mediaFiles)
    /\ folder !! "data.json" = Some (TextEntry (Json.stringify employeeData))
    /\ folder !! "contact.vcf" = Some (TextEntry vcard)
    /\ folder !! headshot employeeData = Some (BlobEntry headshotFile)
    /\ (forall m, In m mediaFiles -> folder !! filename m = Some (BlobEntry (file m))).
Proof.
  intros Hhead Hnd Hother.
  assert (Hh1 : headshot employeeData <> "data.json").
  { intros E. rewrite E in Hhead. discriminate. }
  assert (Hh2 : headshot employeeData <> "contact.vcf").
  { intros E. rewrite E in Hhead. discriminate. }
  exists (insert_media (base_folder employeeData vcard headshotFile) mediaFiles).
  assert (Hnot : forall name,
             (forall m, In m mediaFiles -> filename m <> name) ->
             ~ In name (map filename mediaFiles)).
  { intros name H Hin. apply in_map_iff in Hin as (m & Hm & Hin). now apply (H m). }
  split; [apply createEmployeeZip_produces|].
  split.
  { rewrite insert_media_dom. unfold base_folder.
    rewrite !dom_insert_L, dom_empty_L. set_solver. }
  split.
  { rewrite insert_media_other by (apply Hnot; intros m Hm; now apply Hother).
    unfold base_folder. rewrite lookup_insert_ne by exact Hh1.
    rewrite lookup_insert_ne by discriminate. apply lookup_insert_eq. }
  split.
  { rewrite insert_media_other by (apply Hnot; intros m Hm; now apply Hother).
    unfold base_folder. rewrite lookup_insert_ne by exact Hh2. apply lookup_insert_eq. }
  split.
  { rewrite insert_media_other by (apply Hnot; intros m Hm; now apply Hother).
    unfold base_folder. apply lookup_insert_eq. }
  intros m Hm. now apply insert_media_lookup.
Qed.

Lemma createEmployeeZip_layout_witness :
  exists folder : gmap string entry,
    createEmployeeZip "jane-doe"
      (Employee "jane-doe" "Jane" "Doe" "Engineer" "R&D" "jane@example.org" None None
         "headshot.png" "<p>Hello</p>" ["bio-image-1.gif"])
      "BEGIN:VCARD" (MkFile "me.png" "image/png" "PNG")
      [MediaItem "bio-image-1.gif" (MkFile "logo.gif" "image/gif" "GIF89a")]
    = Some {["jane-doe" := folder]}
    /\ dom folder =
         {["data.json"; "contact.vcf"; "headshot.png"]} ∪ list_to_set ["bio-image-1.gif"]
    /\ folder !! "headshot.png" = Some (BlobEntry (MkFile "me.png" "image/png" "PNG"))
    /\ folder !! "bio-image-1.gif" = Some (BlobEntry (MkFile "logo.gif" "image/gif" "GIF89a")).
Proof.
  destruct (createEmployeeZip_layout "jane-doe"
              (Employee "jane-doe" "Jane" "Doe" "Engineer" "R&D" "jane@example.org" None None
                 "headshot.png" "<p>Hello</p>" ["bio-image-1.gif"])
              "BEGIN:VCARD" (MkFile "me.png" "image/png" "PNG")
              [MediaItem "bio-image-1.gif" (MkFile "logo.gif" "image/gif" "GIF89a")]
              eq_refl (NoDup_singleton "bio-image-1.gif"))
    as (folder & Hz & Hd & _ & _ & Hh & Hm).
  - intros m [<-|[]]. repeat split; discriminate.
  - exists folder. split; [exact Hz|]. split; [exact Hd|].
    split; [exact Hh|]. apply (Hm (MediaItem "bio-image-1.gif" _)). now left.
Defined.

(** ** Embedded images of the bio *)

Lemma length_append (x y : string) :
  String.length (x +:+ y) = String.length x + String.length y.
Proof. induction x as [|c x IH]; simpl; [reflexivity | now rewrite IH]. Qed.

Lemma substring_0_append (x y : string) : String.substring 0 (String.length x) (x +:+ y) = x.
Proof. induction x as [|c x IH]; simpl; [now destruct y | now rewrite IH]. Qed.

Lemma substring_skip_append (x y : string) m :
  String.substring (String.length x) m (x +:+ y) = String.substring 0 m y.
Proof. induction x as [|c x IH]; simpl; [reflexivity | exact IH]. Qed.

Lemma substring_0_length (y : string) : String.substring 0 (String.length y) y = y.
Proof. induction y as [|c y IH]; simpl; [reflexivity | now rewrite IH]. Qed.

Lemma GetSubstitution_plain matched preceding following r :
  dollar_free r = true -> GetSubstitution matched preceding following r = r.
Proof.
  unfold dollar_free. induction r as [|d t IH]; [reflexivity|].
  cbn [every GetSubstitution]. intros [Hd Ht]%andb_true_iff.
  apply negb_true_iff in Hd. rewrite Hd. f_equal. now apply IH.
Qed.

(** Replacing a pattern whose first occurrence is known. *)
Lemma replace_at (pre a rest name : string) :
  Js.indexOf (pre +:+ a +:+ rest) a = Some (String.length pre) ->
  dollar_free name = true ->
  replace (pre +:+ a +:+ rest) a name = pre +:+ name +:+ rest.
Proof.
  intros Hpos Hname. unfold replace. rewrite Hpos.
  rewrite substring_0_append, GetSubstitution_plain by exact Hname.
  f_equal. f_equal.
  rewrite <- (append_assoc pre a rest), <- (length_append pre a).
  rewrite (length_append (pre +:+ a) rest).
  replace (String.length (pre +:+ a) + String.length rest - String.length (pre +:+ a))
    with (String.length rest) by lia.
  rewrite substring_skip_append. apply substring_0_length.
Qed.

Lemma replaced_in_place refs : forall texts pre index,
  length texts = length refs ->
  in_place pre index refs texts = true ->
  replaced index refs (pre +:+ source refs texts) = rewritten pre index refs texts.
Proof.
  induction refs as [|[a name] rest IH]; intros texts pre index Hlen Hin.
  - destruct texts; [|discriminate]. simpl. apply append_empty_r.
  - destruct texts as [|t ts]; [discriminate|].
    cbn [in_place] in Hin. apply andb_true_iff in Hin as [[Hpos Hname]%andb_true_iff Hrest].
    cbn [replaced source rewritten].
    assert (Hidx : Js.indexOf (pre +:+ a +:+ t +:+ source rest ts) a = Some (String.length pre)).
    { destruct (Js.indexOf _ a) as [p|]; [|discriminate]. simpl in Hpos.
      apply Nat.eqb_eq in Hpos. now subst. }
    rewrite (replace_at pre a (t +:+ source rest ts)) by assumption.
    replace (pre +:+ generated_name index name +:+ t +:+ source rest ts)
      with ((pre +:+ generated_name index name +:+ t) +:+ source rest ts)
      by now rewrite !append_assoc.
    apply IH; [simpl in Hlen; lia | exact Hrest].
Qed.

Lemma converted_names bi : forall index,
  map filename (converted index bi) = generated_names index (map bio_reference bi).
Proof. induction bi as [|b bi IH]; intros index; simpl; [reflexivity | now rewrite IH]. Qed.

(** The loop of [handleFormSubmit] over images that all are inline and have
    a file name. *)
Lemma convert_images_eq bi : forall acc html index,
  Forall (fun b => Js.startsWith (bio_src b) "data:" = true
                   /\ file_name (bio_file b) <> "") bi ->
  convert_images (acc, html) index bi =
    (acc ++ converted index bi, replaced index (map bio_reference bi) html).
Proof.
  induction bi as [|b bi IH]; intros acc html index Hall.
  - simpl. now rewrite app_nil_r.
  - apply Forall_cons in Hall as [[Hdata Hname] Hall].
    cbn [convert_images]. unfold convert_image. rewrite Hdata. cbn [fst snd].
    assert (Js.or_default (Some (file_name (bio_file b))) ".gif" = file_name (bio_file b)) as ->.
    { destruct (file_name (bio_file b)); [congruence | reflexivity]. }
    rewrite IH by exact Hall. cbn [converted map replaced bio_reference].
    now rewrite <- app_assoc.
Qed.

Lemma dataUrlToFile_name dataUrl name f :
  dataUrlToFile dataUrl name = Some f -> file_name f = name.
Proof.
  unfold dataUrlToFile. destruct (match_mime _); [|discriminate].
  destruct (Base64.atob _); [|discriminate]. now intros [= <-].
Qed.

Lemma image_title_not_empty img : image_title img <> "".
Proof. unfold image_title. simpl. now destruct (Dom.title img). Qed.

(** What [extractMediaFromBio] returns: one entry per inline image, in
    document order, when every inline image decodes; it throws as soon as
    one does not. *)
Lemma extractMediaFromBio_some imgs : forall bi,
  extractMediaFromBio imgs = Some bi ->
  Forall2 (fun b img => bio_src b = Dom.src img
                        /\ dataUrlToFile (Dom.src img) (image_title img) = Some (bio_file b))
    bi (inline_images imgs).
Proof.
  induction imgs as [|img imgs IH]; intros bi H.
  - injection H as <-. constructor.
  - cbn [extractMediaFromBio] in H. unfold inline_images. cbn [List.filter].
    unfold is_inline at 1. destruct (Js.startsWith (Dom.src img) "data:").
    + fold (image_title img) in H.
      destruct (dataUrlToFile (Dom.src img) (image_title img)) as [f|] eqn:Hf; [|discriminate].
      destruct (extractMediaFromBio imgs) as [rest|]; [|discriminate].
      injection H as <-. constructor; [now split | now apply IH].
    + now apply IH.
Qed.

Lemma extractMediaFromBio_decodes imgs :
  Forall (fun img => is_Some (dataUrlToFile (Dom.src img) (image_title img)))
    (inline_images imgs) ->
  exists bi, extractMediaFromBio imgs = Some bi.
Proof.
  induction imgs as [|img imgs IH]; intros H; [now exists []|].
  unfold inline_images in H. cbn [List.filter] in H. unfold is_inline at 1 in H.
  cbn [extractMediaFromBio]. fold (image_title img).
  destruct (Js.startsWith (Dom.src img) "data:").
  - apply Forall_cons in H as [[f Hf] H]. rewrite Hf.
    destruct (IH H) as [bi ->]. eauto.
  - now apply IH.
Qed.

Lemma extractMediaFromBio_throws imgs :
  Exists (fun img => dataUrlToFile (Dom.src img) (image_title img) = None)
    (inline_images imgs) ->
  extractMediaFromBio imgs = None.
Proof.
  induction imgs as [|img imgs IH]; intros H; [now apply Exists_nil in H|].
  unfold inline_images in H. cbn [List.filter] in H. unfold is_inline at 1 in H.
  cbn [extractMediaFromBio]. fold (image_title img).
  destruct (Js.startsWith (Dom.src img) "data:").
  - apply Exists_cons in H as [Hf|H]; [now rewrite Hf|].
    destruct (dataUrlToFile _ _); [|reflexivity]. now rewrite (IH H).
  - now apply IH.
Qed.

Lemma inline_images_inline imgs :
  Forall (fun img => is_inline img = true) (inline_images imgs).
Proof.
  apply List.Forall_forall. intros img Hin. now apply filter_In in Hin as [_ H].
Qed.

Lemma extractMediaFromBio_references imgs bi :
  extractMediaFromBio imgs = Some bi ->
  map bio_reference bi = map reference (inline_images imgs)
  /\ Forall (fun b => Js.startsWith (bio_src b) "data:" = true
                      /\ file_name (bio_file b) <> "") bi.
Proof.
  intros H. apply extractMediaFromBio_some in H.
  pose proof (inline_images_inline imgs) as Hin.
  induction H as [|b img bi inline [Hsrc Hf] _ IH]; [split; constructor|].
  apply Forall_cons in Hin as [Hi Hin]. destruct (IH Hin) as [IHr IHf].
  pose proof (dataUrlToFile_name _ _ _ Hf) as Hname.
  split.
  - simpl. rewrite IHr. unfold bio_reference, reference. now rewrite Hsrc, Hname.
  - constructor; [|exact IHf]. split.
    + rewrite Hsrc. exact Hi.
    + rewrite Hname. apply image_title_not_empty.
Qed.

Lemma converted_decoded bi inline : forall index,
  Forall2 (fun b img => bio_src b = Dom.src img
                        /\ dataUrlToFile (Dom.src img) (image_title img) = Some (bio_file b))
    bi inline ->
  Forall2 (fun m img => dataUrlToFile (Dom.src img) (image_title img) = Some (file m))
    (converted index bi) inline.
Proof.
  intros index H. revert index.
  induction H as [|b img bi inline [_ Hf] _ IH]; intros index; simpl; constructor; auto.
Qed.

(** C2: two submissions on which the code does not do what the claim says.
    The bio of [quoting_form] has exactly two inline images and quotes the
    address of the first one in its text.  The record gets the two media
    names [bio-image-1.gif] and [bio-image-2.png], but the first replacement
    hits the quotation: the reference of the first image is not rewritten
    and its inline payload stays in [bioHtml].  The bio of [svg_form] has
    one inline image whose address is not of the base64 form:
    [dataUrlToFile] throws, nothing is extracted and no record is made. *)
Theorem bio_inline_payload_kept :
  (exists e, submitted_record (handleFormSubmit quoting_form) = Some e
     /\ media e = ["bio-image-1.gif"; "bio-image-2.png"]
     /\ bioHtml e =
          "<p>Logo: bio-image-1.gif</p>"
            +:+ img_tag gif_url "logo.gif" +:+ img_tag "bio-image-2.png" "photo.png"
     /\ Js.indexOf (bioHtml e) ("<img src=" +:+ Js.dq +:+ "data:") <> None)
  /\ handleFormSubmit svg_form = SubmitThrows.
Proof.
  split; [|vm_compute; reflexivity].
  eexists. split; [vm_compute; reflexivity|].
  split; [reflexivity|]. split; [vm_compute; reflexivity|].
  vm_compute. discriminate.
Qed.

(** X21: the extraction on a form that passes the checks, with the [img]
    elements of its bio.  If some inline image (address starting with
    [data:]) does not decode, the submission throws.  Otherwise a record is
    made; its media list has one name per inline image, in document order,
    [bio-image-<n>] with n counted from 1 over the inline images, followed
    by the extension of the title of the image ([.gif] without title, no
    extension for a title without dot); the media entries hold the decoded
    files; images with other addresses add nothing.  Each name replaces the
    first occurrence of the address of its image in the markup rewritten so
    far.  Hence, when the markup is [pre a1 t1 ... an tn], with the
    addresses of the inline images at their references, each address first
    occurs at its own reference and no name holds a dollar sign, [bioHtml]
    is [pre f1 t1 ... fn tn]: the inline references are rewritten to the bare
    names and the rest of the markup, external references included, is
    untouched. *)
Theorem bio_images_extracted (f : form) :
  submittable f = true ->
  let inline := inline_images (bioImages f) in
  let refs := map reference inline in
  (Exists (fun img => dataUrlToFile (Dom.src img) (image_title img) = None) inline ->
     handleFormSubmit f = SubmitThrows)
  /\ (Forall (fun img => is_Some (dataUrlToFile (Dom.src img) (image_title img))) inline ->
      exists slug url vcard zip e hf ms,
        handleFormSubmit f = SubmitPreview slug url vcard zip e hf ms
        /\ media e = generated_names 0 refs
        /\ map filename ms = media e
        /\ Forall2 (fun m img =>
                      dataUrlToFile (Dom.src img) (image_title img) = Some (file m))
             ms inline
        /\ (forall pre texts,
              length texts = length refs ->
              trimmed_markup f = pre +:+ source refs texts ->
              in_place pre 0 refs texts = true ->
              bioHtml e = rewritten pre 0 refs texts)).
Proof.
  intros Hs inline refs. unfold submittable in Hs.
  repeat (let H := fresh "Hc" in apply andb_true_iff in Hs as [Hs H]).
  destruct (headshot_files f) as [|headshotFile others] eqn:Hhead; [discriminate|].
  unfold trimmed_markup in *. unfold handleFormSubmit.
  rewrite Hs, Hc4, Hc3, Hc2, Hc1, Hc0, Hc5, Hhead. cbn [negb andb].
  split.
  - intros Hex. now rewrite (extractMediaFromBio_throws _ Hex).
  - intros Hall. destruct (extractMediaFromBio_decodes _ Hall) as [bi Hbi].
    destruct (extractMediaFromBio_references _ _ Hbi) as [Hrefs Hdata].
    rewrite Hbi, (convert_images_eq bi [] _ 0 Hdata).
    cbn [app]. rewrite createEmployeeZip_produces.
    do 7 eexists. split; [reflexivity|]. cbn [media bioHtml].
    split; [now rewrite converted_names, Hrefs|].
    split; [reflexivity|].
    split; [now apply converted_decoded, extractMediaFromBio_some|].
    intros pre texts Hlen Hmarkup Hin. rewrite Hrefs. fold inline. fold refs.
    rewrite Hmarkup. now apply replaced_in_place.
Qed.

Lemma bio_images_extracted_witness :
  exists e, submitted_record (handleFormSubmit gallery_form) = Some e
    /\ media e = ["bio-image-1.gif"; "bio-image-2.png"]
    /\ bioHtml e =
         "<p>Hi</p>" +:+ img_tag "bio-image-1.gif" "logo.gif" +:+ external_tag
           +:+ img_tag "bio-image-2.png" "photo.png".
Proof.
  destruct (bio_images_extracted gallery_form eq_refl) as [_ H].
  destruct H as (slug & url & vcard & zip & e & hf & ms & Hsub & Hmedia & _ & _ & Htext).
  - repeat constructor; eexists; vm_compute; reflexivity.
  - exists e. split; [now rewrite Hsub|]. split; [exact Hmedia|].
    rewrite (Htext ("<p>Hi</p><img src=" +:+ Js.dq) gallery_texts); reflexivity.
Defined.

(** *** Addresses that decode *)

Lemma rev_app_rev_app (x cur acc : string) :
  String.rev_app (String.rev_app x cur) acc = String.rev_app cur (x +:+ acc).
Proof.
  revert cur. induction x as [|c x IH]; intros cur; [reflexivity|].
  simpl. now rewrite IH.
Qed.

Lemma split_from_last sep cur y :
  lacks sep y = true -> Js.split_from sep cur y = [String.rev (String.rev_app y cur)].
Proof.
  unfold lacks. revert cur. induction y as [|c y IH]; intros cur; [reflexivity|].
  cbn [every Js.split_from String.rev_app]. intros [Hc Hy]%andb_true_iff.
  apply negb_true_iff in Hc. rewrite Hc. now apply IH.
Qed.

Lemma split_from_first sep cur x y :
  lacks sep x = true ->
  Js.split_from sep cur (x +:+ String sep y) =
    String.rev (String.rev_app x cur) :: Js.split_from sep EmptyString y.
Proof.
  unfold lacks. revert cur. induction x as [|c x IH]; intros cur.
  - intros _. simpl. now rewrite Ascii.eqb_refl.
  - cbn [every]. intros [Hc Hx]%andb_true_iff. apply negb_true_iff in Hc.
    simpl. rewrite Hc. now apply IH.
Qed.

Lemma split_pair sep x y :
  lacks sep x = true -> lacks sep y = true ->
  Js.split sep (x +:+ String sep y) = [x; y].
Proof.
  intros Hx Hy. unfold Js.split.
  rewrite split_from_first by exact Hx. rewrite split_from_last by exact Hy.
  unfold String.rev. rewrite !rev_app_rev_app. simpl. now rewrite !append_empty_r.
Qed.

Lemma capture_to_semicolon_mime mime rest :
  lacks ";" mime = true -> lacks "010" mime = true -> lacks "013" mime = true ->
  capture_to_semicolon (mime +:+ String ";" rest) = Some mime.
Proof.
  unfold lacks. induction mime as [|c mime IH]; [reflexivity|].
  cbn [every]. intros [H1 Hs]%andb_true_iff [H2 Hl]%andb_true_iff [H3 Hr]%andb_true_iff.
  apply negb_true_iff in H1, H2, H3. simpl. rewrite H1, H2, H3. simpl.
  now rewrite IH.
Qed.

(** An address [data:<type>;<parameters>,<payload>] decodes exactly when
    its payload is base64; the file gets the given name, the type and the
    decoded bytes. *)
Lemma dataUrlToFile_data_url (mime params payload name : string) :
  lacks ";" mime = true -> lacks "010" mime = true -> lacks "013" mime = true ->
  lacks "," mime = true -> lacks "," params = true -> lacks "," payload = true ->
  dataUrlToFile ("data:" +:+ mime +:+ ";" +:+ params +:+ "," +:+ payload) name =
    option_map (MkFile name (File_type mime)) (Base64.atob payload).
Proof.
  intros Hsemi Hlf Hcr Hcm Hcp Hcy. unfold dataUrlToFile.
  replace ("data:" +:+ mime +:+ ";" +:+ params +:+ "," +:+ payload)
    with (("data:" +:+ mime +:+ ";" +:+ params) +:+ String "," payload)
    by (now rewrite !append_assoc).
  rewrite split_pair;
    [|unfold lacks in *; rewrite !every_append, Hcm, Hcp; reflexivity | exact Hcy].
  cbn [nth item_or_undefined].
  change (match_mime ("data:" +:+ mime +:+ ";" +:+ params))
    with (match capture_to_semicolon (mime +:+ String ";" params) with
          | Some m => Some m
          | None => match_mime (mime +:+ String ";" params)
          end).
  rewrite capture_to_semicolon_mime by assumption.
  unfold item_or_undefined. simpl nth. now destruct (Base64.atob payload).
Qed.

(** * Further properties *)

(** ** File extensions *)

Lemma split_from_dotted sep y : forall x cur,
  lacks sep y = true ->
  1 < length (Js.split_from sep cur (x +:+ String sep y))
  /\ List.last (Js.split_from sep cur (x +:+ String sep y)) EmptyString = y.
Proof.
  intros x. induction x as [|c x IH]; intros cur Hy.
  - cbn [String.append Js.split_from]. rewrite Ascii.eqb_refl.
    rewrite (split_from_last sep EmptyString y Hy).
    unfold String.rev. rewrite rev_app_rev_app. cbn [String.rev_app].
    rewrite append_empty_r. split; [simpl; lia | reflexivity].
  - cbn [String.append Js.split_from]. destruct (Ascii.eqb c sep).
    + destruct (IH EmptyString Hy) as [Hl Hlast].
      destruct (Js.split_from sep "" (x +:+ String sep y)) as [|p ps] eqn:E;
        [simpl in Hl; lia|].
      split; [simpl; lia | exact Hlast].
    + now apply IH.
Qed.

(** A text that holds a character splits at the last occurrence of it. *)
Lemma lacks_false_split c s :
  lacks c s = false ->
  exists x y, s = x +:+ String c y /\ lacks c y = true.
Proof.
  unfold lacks. induction s as [|d r IH]; [discriminate|].
  cbn [every]. intros H. destruct (every (fun d0 => negb (Ascii.eqb d0 c)) r) eqn:Hr.
  - rewrite andb_true_r in H. apply negb_false_iff, Ascii.eqb_eq in H. subst d.
    exists EmptyString, r. split; [reflexivity | exact Hr].
  - destruct (IH eq_refl) as (x & y & -> & Hy). exists (String d x), y.
    split; [reflexivity | exact Hy].
Qed.

Lemma getFileExtension_dotted stem ext :
  lacks "." ext = true -> getFileExtension (stem +:+ "." +:+ ext) = "." +:+ ext.
Proof.
  intros Hext. unfold getFileExtension, Js.split.
  change (stem +:+ "." +:+ ext) with (stem +:+ String "." ext).
  destruct (split_from_dotted "." ext stem EmptyString Hext) as [Hl Hlast].
  apply Nat.ltb_lt in Hl. now rewrite Hl, Hlast.
Qed.

(** X1: [getFileExtension] of a name without dot is the empty string; for
    any other name it is the dot followed by what comes after the last dot
    of the name, which may be empty ([archive.tar.gz] gives [.gz], [.bashrc]
    gives [.bashrc], [name.] gives [.]). *)
Theorem getFileExtension_spec (filename : string) :
  if lacks "." filename then getFileExtension filename = ""
  else exists stem ext,
         filename = stem +:+ "." +:+ ext /\ lacks "." ext = true
         /\ getFileExtension filename = "." +:+ ext.
Proof.
  destruct (lacks "." filename) eqn:H.
  - unfold getFileExtension, Js.split. now rewrite split_from_last.
  - destruct (lacks_false_split _ _ H) as (stem & ext & -> & Hext).
    exists stem, ext. split; [reflexivity|]. split; [exact Hext|].
    now apply getFileExtension_dotted.
Qed.

(** ** Profile addresses *)

Lemma encodeURIComponent_unreserved s :
  every Js.uri_unreserved s = true -> Js.encodeURIComponent s = s.
Proof.
  induction s as [|c r IH]; [reflexivity|].
  cbn [every Js.encodeURIComponent]. intros [Hc Hr]%andb_true_iff.
  unfold Js.encode_char. rewrite Hc. simpl. now rewrite IH.
Qed.

Lemma slug_char_unreserved c : is_slug_char c = true -> Js.uri_unreserved c = true.
Proof. by_cases_on_char c. Qed.

Lemma every_impl (P Q : ascii -> bool) s :
  (forall c, P c = true -> Q c = true) -> every P s = true -> every Q s = true.
Proof.
  intros HPQ. induction s as [|c r IH]; [reflexivity|].
  cbn [every]. intros [Hc Hr]%andb_true_iff. now rewrite (HPQ _ Hc), IH.
Qed.

(** X2: a slug made of unreserved characters (letters, digits and
    [- _ . ! ~ * ' ( )]) appears as it is in the profile address.  This is
    the case of every slug derived from names made of ASCII letters, hyphens
    and white space. *)
Theorem buildProfileUrl_plain (first last slug : string) :
  (every Js.uri_unreserved slug = true ->
   buildProfileUrl slug = FULL_BASE_URL +:+ "/profile.html?person=" +:+ slug)
  /\ (every is_name_char first = true -> every is_name_char last = true ->
      buildProfileUrl (generateSlug first last) =
        FULL_BASE_URL +:+ "/profile.html?person=" +:+ generateSlug first last).
Proof.
  split.
  - intros H. unfold buildProfileUrl. now rewrite encodeURIComponent_unreserved.
  - intros Hf Hl. unfold buildProfileUrl. rewrite encodeURIComponent_unreserved; [reflexivity|].
    apply every_impl with (P := is_slug_char); [apply slug_char_unreserved|].
    now apply generateSlug_letters.
Qed.

Lemma buildProfileUrl_plain_witness :
  buildProfileUrl "jane-doe" = FULL_BASE_URL +:+ "/profile.html?person=" +:+ "jane-doe"
  /\ buildProfileUrl (generateSlug "Mary Ann" "Smith") =
       FULL_BASE_URL +:+ "/profile.html?person=" +:+ generateSlug "Mary Ann" "Smith".
Proof.
  split.
  - exact (proj1 (buildProfileUrl_plain "" "" "jane-doe") eq_refl).
  - exact (proj2 (buildProfileUrl_plain "Mary Ann" "Smith" "") eq_refl eq_refl).
Defined.

Lemma encode_char_safe c : every url_safe (Js.encode_char c) = true.
Proof. by_cases_on_char c. Qed.

Lemma encodeURIComponent_safe s : every url_safe (Js.encodeURIComponent s) = true.
Proof.
  induction s as [|c r IH]; [reflexivity|].
  cbn [Js.encodeURIComponent]. now rewrite every_append, encode_char_safe, IH.
Qed.

Lemma decode_first_encode_char c r :
  decode_first (Js.encode_char c +:+ r) = Some (c, r).
Proof. destruct c as [[] [] [] [] [] [] [] []]; reflexivity. Qed.

Lemma encode_char_not_empty c r : Js.encode_char c +:+ r <> "".
Proof. destruct c as [[] [] [] [] [] [] [] []]; discriminate. Qed.

Lemma encodeURIComponent_inj s : forall t,
  Js.encodeURIComponent s = Js.encodeURIComponent t -> s = t.
Proof.
  induction s as [|c r IH]; intros [|d u] H; cbn [Js.encodeURIComponent] in H.
  - reflexivity.
  - symmetry in H. now apply encode_char_not_empty in H.
  - now apply encode_char_not_empty in H.
  - apply (f_equal decode_first) in H. rewrite !decode_first_encode_char in H.
    injection H as -> H. f_equal. now apply IH.
Qed.

Lemma append_inj_l (p a b : string) : p +:+ a = p +:+ b -> a = b.
Proof. induction p as [|c p IH]; simpl; [auto|]. intros [= H]. now apply IH. Qed.

(** X3: two different slugs never get the same profile address; in
    particular a slug that holds a percent sign is not confused with the
    escaped form of another slug. *)
Theorem buildProfileUrl_distinct (slug slug' : string) :
  slug <> slug' -> buildProfileUrl slug <> buildProfileUrl slug'.
Proof.
  unfold buildProfileUrl. intros Hne H. apply Hne.
  apply append_inj_l, append_inj_l in H. now apply encodeURIComponent_inj.
Qed.

Lemma buildProfileUrl_distinct_witness :
  buildProfileUrl "a b" <> buildProfileUrl "a%20b".
Proof. apply (buildProfileUrl_distinct "a b" "a%20b"). discriminate. Defined.

(** X4: whatever the slug, the value of the [person] parameter of the
    profile address is made of unreserved characters and percent signs only:
    it holds no [&], [=], [#], [?], [+], [/], quote, blank, control or
    non-ASCII character. *)
Theorem buildProfileUrl_safe (slug : string) :
  buildProfileUrl slug =
    FULL_BASE_URL +:+ "/profile.html?person=" +:+ Js.encodeURIComponent slug
  /\ every url_safe (Js.encodeURIComponent slug) = true.
Proof. split; [reflexivity | apply encodeURIComponent_safe]. Qed.

(** ** Trimming *)

Lemma all_space_trimStart s : Js.all_space (Js.trimStart s) = Js.all_space s.
Proof.
  induction s as [|c r IH]; [reflexivity|].
  cbn [Js.trimStart]. destruct (Js.is_space c) eqn:Hc; [|reflexivity].
  cbn [Js.all_space]. now rewrite Hc, IH.
Qed.

Lemma all_space_trimEnd s : Js.all_space (Js.trimEnd s) = Js.all_space s.
Proof.
  induction s as [|c r IH]; [reflexivity|].
  cbn [Js.trimEnd]. destruct (Js.all_space (String c r)) eqn:H; [reflexivity|].
  cbn [Js.all_space] in *. now rewrite IH.
Qed.

Lemma truthy_trimEnd s : Js.truthy_string (Js.trimEnd s) = negb (Js.all_space s).
Proof.
  destruct s as [|c r]; [reflexivity|].
  cbn [Js.trimEnd]. now destruct (Js.all_space (String c r)).
Qed.

(** A trimmed text is empty exactly when the text is blank. *)
Lemma truthy_trim s : Js.truthy_string (Js.trim s) = negb (Js.all_space s).
Proof. unfold Js.trim. now rewrite truthy_trimEnd, all_space_trimStart. Qed.

Lemma trimEnd_trimEnd s : Js.trimEnd (Js.trimEnd s) = Js.trimEnd s.
Proof.
  induction s as [|c r IH]; [reflexivity|].
  cbn [Js.trimEnd]. destruct (Js.all_space (String c r)) eqn:H; [reflexivity|].
  cbn [Js.trimEnd].
  replace (Js.all_space (String c (Js.trimEnd r))) with false.
  - now rewrite IH.
  - symmetry. cbn [Js.all_space] in *. now rewrite all_space_trimEnd.
Qed.

Lemma trimStart_trimEnd_trimStart s :
  Js.trimStart (Js.trimEnd (Js.trimStart s)) = Js.trimEnd (Js.trimStart s).
Proof.
  induction s as [|c r IH]; [reflexivity|].
  cbn [Js.trimStart]. destruct (Js.is_space c) eqn:Hc; [exact IH|].
  cbn [Js.trimEnd Js.all_space]. rewrite Hc. cbn [andb Js.trimStart]. now rewrite Hc.
Qed.

(** Trimming twice is trimming once. *)
Lemma trim_trim s : Js.trim (Js.trim s) = Js.trim s.
Proof.
  unfold Js.trim. rewrite trimStart_trimEnd_trimStart. apply trimEnd_trimEnd.
Qed.

Lemma truthy_value_trim s : Js.truthy_value (Some (Js.trim s)) = optional_field s.
Proof.
  unfold optional_field. cbn [Js.truthy_value]. rewrite truthy_trim.
  now destruct (Js.all_space s).
Qed.

Lemma trimmed_filled s :
  Js.all_space s = false -> Js.trim s <> "" /\ Js.trim (Js.trim s) = Js.trim s.
Proof.
  intros H. split; [|apply trim_trim].
  intros E. pose proof (truthy_trim s) as Ht. rewrite E, H in Ht. discriminate.
Qed.

(** ** Slugs are never empty *)

Lemma lacks_append c a b : lacks c (a +:+ b) = lacks c a && lacks c b.
Proof. apply every_append. Qed.

Lemma all_space_lacks c s :
  Js.is_space c = false -> Js.all_space s = true -> lacks c s = true.
Proof.
  intros Hc. unfold lacks. induction s as [|d r IH]; [reflexivity|].
  cbn [Js.all_space every]. intros [Hd Hr]%andb_true_iff. rewrite (IH Hr), andb_true_r.
  apply negb_true_iff, Ascii.eqb_neq. intros ->. congruence.
Qed.

Lemma lacks_trimStart c s : Js.is_space c = false -> lacks c (Js.trimStart s) = lacks c s.
Proof.
  intros Hc. induction s as [|d r IH]; [reflexivity|].
  cbn [Js.trimStart]. destruct (Js.is_space d) eqn:Hd; [|reflexivity].
  rewrite IH. unfold lacks. cbn [every].
  replace (Ascii.eqb d c) with false; [reflexivity|].
  symmetry. apply Ascii.eqb_neq. intros ->. congruence.
Qed.

Lemma lacks_trimEnd c s : Js.is_space c = false -> lacks c (Js.trimEnd s) = lacks c s.
Proof.
  intros Hc. induction s as [|d r IH]; [reflexivity|].
  cbn [Js.trimEnd]. destruct (Js.all_space (String d r)) eqn:H.
  - symmetry. now apply all_space_lacks.
  - unfold lacks in *. cbn [every]. now rewrite IH.
Qed.

Lemma lacks_replace_space_runs_from c s : forall b,
  Js.is_space c = false -> lacks c s = false ->
  lacks c (Js.replace_space_runs_from b (String c EmptyString) s) = false.
Proof.
  induction s as [|d r IH]; intros b Hc H; [discriminate|].
  assert (Hcc : lacks c (String c "") = false).
  { unfold lacks. cbn [every]. now rewrite Ascii.eqb_refl. }
  cbn [Js.replace_space_runs_from]. destruct (Js.is_space d) eqn:Hd.
  - assert (Hr : lacks c r = false).
    { unfold lacks in *. cbn [every] in H.
      replace (Ascii.eqb d c) with false in H; [exact H|].
      symmetry. apply Ascii.eqb_neq. intros ->. congruence. }
    destruct b; [now apply IH|]. now rewrite lacks_append, Hcc.
  - unfold lacks in *. cbn [every] in *.
    destruct (Ascii.eqb d c); [reflexivity|]. cbn [negb andb] in *. now apply IH.
Qed.

(** The hyphen that joins the names survives the trimming and the
    replacement of the white space. *)
Lemma generateSlug_hyphen first last : lacks "-" (generateSlug first last) = false.
Proof.
  unfold generateSlug, Js.replace_space_runs, Js.trim.
  apply lacks_replace_space_runs_from; [reflexivity|].
  rewrite lacks_trimEnd, lacks_trimStart by reflexivity.
  rewrite !toLowerCase_append, !lacks_append.
  change (lacks "-" (Js.toLowerCase "-")) with false.
  now rewrite andb_false_r.
Qed.

Lemma generateSlug_not_empty first last : generateSlug first last <> "".
Proof.
  intros H. pose proof (generateSlug_hyphen first last) as Hh. rewrite H in Hh. discriminate.
Qed.

Lemma loadProfile_fetches server slug st :
  fetches (loadProfile server slug st) = fetches st ++ [record_url slug].
Proof.
  unfold loadProfile.
  destruct (fetchJson _ _) as [v|]; [destruct (renderProfile v)|]; reflexivity.
Qed.

(** X5: whatever the names, even empty or blank ones, the derived slug
    holds a hyphen and so is never empty; a profile page opened with a
    derived slug as its [person] parameter therefore never answers "No
    employee specified": it fetches the record of that slug, and nothing
    else. *)
Theorem generated_slug_looked_up (first last : string) (server : string -> response) :
  lacks "-" (generateSlug first last) = false
  /\ generateSlug first last <> ""
  /\ fetches (initProfilePage [("person", generateSlug first last)] server)
     = [record_url (generateSlug first last)].
Proof.
  split; [apply generateSlug_hyphen|]. split; [apply generateSlug_not_empty|].
  unfold initProfilePage. cbn [getQueryParam]. rewrite String.eqb_refl.
  pose proof (generateSlug_not_empty first last) as Hne.
  destruct (generateSlug first last) as [|c s]; [congruence|].
  cbn [Js.truthy_value Js.truthy_string]. now rewrite loadProfile_fetches.
Qed.

(** ** Names that share a slug *)

Lemma lower_char_idem c : Js.lower_char (Js.lower_char c) = Js.lower_char c.
Proof. by_cases_on_char c. Qed.

Lemma toLowerCase_idem s : Js.toLowerCase (Js.toLowerCase s) = Js.toLowerCase s.
Proof. induction s as [|c r IH]; simpl; [reflexivity | now rewrite lower_char_idem, IH]. Qed.

(** X6: the slug does not tell names apart that differ in letter case only,
    nor names that differ in where the first name ends, nor a blank from a
    hyphen: [a b] with [c], [a] with [b c] and [a-b] with [c] all give the
    slug [a-b-c].  Two such employees share one folder name and one profile
    address. *)
Theorem generateSlug_collisions (a b c w w' : string) :
  generateSlug (Js.toLowerCase a) (Js.toLowerCase c) = generateSlug a c
  /\ (a <> "" -> c <> "" -> no_space a = true -> no_space b = true -> no_space c = true ->
      Js.all_space w = true -> w <> "" -> Js.all_space w' = true -> w' <> "" ->
      generateSlug (a +:+ w +:+ b) c = generateSlug a (b +:+ w' +:+ c)
      /\ generateSlug (a +:+ w +:+ b) c = generateSlug (a +:+ "-" +:+ b) c).
Proof.
  split.
  - unfold generateSlug. now rewrite !toLowerCase_append, !toLowerCase_idem.
  - intros Ha Hc Hsa Hsb Hsc Hw Hwne Hw' Hwne'.
    rewrite generateSlug_run by assumption.
    rewrite generateSlug_run_last by assumption.
    split; [reflexivity|].
    rewrite generateSlug_plain.
    + rewrite !toLowerCase_append. change (Js.toLowerCase "-") with "-".
      now rewrite !append_assoc.
    + unfold no_space in *. rewrite !every_append, Hsa, Hsb. reflexivity.
    + exact Hsc.
Qed.

Lemma generateSlug_collisions_witness :
  generateSlug "Mary Ann" "Smith" = generateSlug "Mary" "Ann  Smith"
  /\ generateSlug "Mary Ann" "Smith" = generateSlug "Mary-Ann" "Smith".
Proof.
  refine (proj2 (generateSlug_collisions "Mary" "Ann" "Smith" " " "  ")
            _ _ eq_refl eq_refl eq_refl eq_refl _ eq_refl _); discriminate.
Defined.

(** ** Submitting the form *)

Lemma required_filled f :
  Js.truthy_string (Js.trim (form_firstName f)) && Js.truthy_string (Js.trim (form_lastName f))
  && Js.truthy_string (Js.trim (form_email f)) && Js.truthy_string (Js.trim (form_title f))
  && Js.truthy_string (Js.trim (form_department f)) && Js.truthy_string (trimmed_markup f)
  = negb (blank_required f).
Proof.
  unfold blank_required, trimmed_markup. rewrite !truthy_trim.
  destruct (bioEditor f) as [html|]; [rewrite truthy_trim|];
    repeat (destruct (Js.all_space _)); reflexivity.
Qed.

(** The three ways [handleFormSubmit] ends once the library is loaded and
    nothing required is blank. *)
Lemma handleFormSubmit_checked f :
  jszip_loaded f = true -> blank_required f = false ->
  handleFormSubmit f =
    match headshot_files f with
    | [] => SubmitError "Please upload a headshot image."
    | headshotFile :: _ =>
        match extractMediaFromBio (bioImages f) with
        | None => SubmitThrows
        | Some bi =>
            let e := built_record f headshotFile bi in
            SubmitPreview (slug e) (buildProfileUrl (slug e)) (buildVcard e)
              {[slug e := insert_media (base_folder e (buildVcard e) headshotFile)
                            (converted 0 bi)]}
              e headshotFile (converted 0 bi)
        end
    end.
Proof.
  intros Hz Hb. pose proof (required_filled f) as Hreq. rewrite Hb in Hreq.
  unfold trimmed_markup in Hreq. unfold handleFormSubmit. rewrite Hz. cbn [negb].
  rewrite Hreq. cbn [negb].
  destruct (headshot_files f) as [|headshotFile others]; [reflexivity|].
  destruct (extractMediaFromBio (bioImages f)) as [bi|] eqn:Hbi; [|reflexivity].
  destruct (extractMediaFromBio_references _ _ Hbi) as [_ Hdata].
  rewrite (convert_images_eq bi [] _ 0 Hdata). cbn [app].
  rewrite createEmployeeZip_produces. reflexivity.
Qed.

Lemma handleFormSubmit_settled_packs f : handleFormSubmit_settled Packs f = handleFormSubmit f.
Proof. unfold handleFormSubmit_settled. now destruct (handleFormSubmit f). Qed.

Lemma handleFormSubmit_settled_error library f message :
  handleFormSubmit f = SubmitError message ->
  handleFormSubmit_settled library f = SubmitError message.
Proof. intros H. unfold handleFormSubmit_settled. rewrite H. now destruct library. Qed.

(** X7: the messages a submission can end with, in the order of the checks.
    Without the packing library the submission ends with the library
    message, whatever the fields hold.  Otherwise, if a required field
    (first name, last name, email, title, department) or the bio is empty or
    made of white space only, it ends with the required-fields message, even
    when no headshot is chosen.  Otherwise, without headshot, it ends with
    the headshot message.  Otherwise, when the images of the bio decode, it
    ends with a message exactly when the library rejects the archive, and
    the message is then [Error creating ZIP: ] followed by the message of the
    library.  The promise of the archive is never left pending. *)
Theorem handleFormSubmit_rejects (library : packing) (f : form) :
  (jszip_loaded f = false ->
   handleFormSubmit_settled library f =
     SubmitError
       "Error: ZIP library is not loaded. Please ensure jszip.min.js is properly loaded.")
  /\ (jszip_loaded f = true -> blank_required f = true ->
      handleFormSubmit_settled library f =
        SubmitError "Please fill in all required fields, including a bio.")
  /\ (jszip_loaded f = true -> blank_required f = false -> headshot_files f = [] ->
      handleFormSubmit_settled library f = SubmitError "Please upload a headshot image.")
  /\ (jszip_loaded f = true -> blank_required f = false -> headshot_files f <> [] ->
      extractMediaFromBio (bioImages f) <> None ->
      match library with
      | Packs => forall message, handleFormSubmit_settled library f <> SubmitError message
      | PackingError message =>
          handleFormSubmit_settled library f = SubmitError ("Error creating ZIP: " +:+ message)
      end)
  /\ handleFormSubmit_settled library f <> SubmitPending.
Proof.
  pose proof (required_filled f) as Hreq. unfold trimmed_markup in Hreq.
  split; [|split; [|split; [|split]]].
  - intros Hz. apply handleFormSubmit_settled_error. unfold handleFormSubmit. now rewrite Hz.
  - intros Hz Hb. apply handleFormSubmit_settled_error.
    unfold handleFormSubmit. rewrite Hz, Hreq, Hb. reflexivity.
  - intros Hz Hb Hh. apply handleFormSubmit_settled_error.
    rewrite handleFormSubmit_checked by assumption. now rewrite Hh.
  - intros Hz Hb Hh Hbi. unfold handleFormSubmit_settled.
    rewrite handleFormSubmit_checked by assumption.
    destruct (headshot_files f); [congruence|].
    destruct (extractMediaFromBio _); [|congruence].
    destruct library; [discriminate | reflexivity].
  - unfold handleFormSubmit_settled.
    destruct (jszip_loaded f) eqn:Hz;
      [|unfold handleFormSubmit; rewrite Hz; now destruct library].
    destruct (blank_required f) eqn:Hb.
    + unfold handleFormSubmit. rewrite Hz, Hreq. cbn [negb]. now destruct library.
    + rewrite handleFormSubmit_checked by assumption.
      destruct (headshot_files f); [now destruct library|].
      destruct (extractMediaFromBio _); destruct library; discriminate.
Qed.

Lemma handleFormSubmit_rejects_witness :
  handleFormSubmit_settled Packs blank_name_form
    = SubmitError "Please fill in all required fields, including a bio."
  /\ handleFormSubmit_settled Packs no_headshot_form
     = SubmitError "Please upload a headshot image."
  /\ handleFormSubmit_settled (PackingError "Blob is not readable") padded_form
     = SubmitError "Error creating ZIP: Blob is not readable".
Proof.
  split; [|split].
  - exact (proj1 (proj2 (handleFormSubmit_rejects Packs blank_name_form)) eq_refl eq_refl).
  - exact (proj1 (proj2 (proj2 (handleFormSubmit_rejects Packs no_headshot_form)))
             eq_refl eq_refl eq_refl).
  - refine (proj1 (proj2 (proj2 (proj2
              (handleFormSubmit_rejects (PackingError "Blob is not readable") padded_form))))
              eq_refl eq_refl _ _); discriminate.
Defined.

Lemma submitted_record_built f e :
  submitted_record (handleFormSubmit f) = Some e ->
  jszip_loaded f = true /\ blank_required f = false
  /\ exists headshotFile others bi,
       headshot_files f = headshotFile :: others
       /\ extractMediaFromBio (bioImages f) = Some bi
       /\ e = built_record f headshotFile bi.
Proof.
  intros H. pose proof (required_filled f) as Hreq. unfold trimmed_markup in Hreq.
  destruct (jszip_loaded f) eqn:Hz;
    [|unfold handleFormSubmit in H; rewrite Hz in H; discriminate].
  destruct (blank_required f) eqn:Hb;
    [unfold handleFormSubmit in H; rewrite Hz, Hreq in H; discriminate|].
  rewrite handleFormSubmit_checked in H by assumption.
  destruct (headshot_files f) as [|headshotFile others]; [discriminate|].
  destruct (extractMediaFromBio (bioImages f)) as [bi|]; [|discriminate].
  cbn in H. injection H as <-. repeat split. now exists headshotFile, others, bi.
Qed.

(** X8: every record that [handleFormSubmit] makes is normalised.  Its slug
    is the slug derived from its own first and last name.  Its first name,
    last name, title, department and email are the trimmed fields of the
    form; none is empty and trimming them again changes nothing.  Phone and
    LinkedIn are [null] when the field is blank and the trimmed text
    otherwise, never the empty string.  The headshot name is [headshot]
    followed by the extension of the name of the first chosen file. *)
Theorem submitted_record_normalised (f : form) (e : employee) :
  submitted_record (handleFormSubmit f) = Some e ->
  slug e = generateSlug (firstName e) (lastName e)
  /\ Forall (fun x => x <> "" /\ Js.trim x = x)
       [firstName e; lastName e; title e; department e; email e]
  /\ [firstName e; lastName e; title e; department e; email e]
     = map Js.trim [form_firstName f; form_lastName f; form_title f; form_department f;
                    form_email f]
  /\ phone e = optional_field (form_phone f)
  /\ linkedin e = optional_field (form_linkedin f)
  /\ phone e <> Some "" /\ linkedin e <> Some ""
  /\ (exists headshotFile, head (headshot_files f) = Some headshotFile
        /\ headshot e = "headshot" +:+ getFileExtension (file_name headshotFile)).
Proof.
  intros H. apply submitted_record_built in H as (Hz & Hb & hf & others & bi & Hh & Hbi & ->).
  unfold blank_required in Hb.
  repeat (let H := fresh "Hb" in apply orb_false_iff in Hb as [Hb H]).
  cbn [slug firstName lastName title department email phone linkedin headshot built_record].
  split; [reflexivity|].
  split; [repeat constructor; now apply trimmed_filled|].
  split; [reflexivity|].
  rewrite !truthy_value_trim.
  split; [reflexivity|]. split; [reflexivity|].
  assert (Hopt : forall s, optional_field s <> Some "").
  { intros s. unfold optional_field. destruct (Js.all_space s) eqn:Hs; [discriminate|].
    intros [= E]. now apply (trimmed_filled s Hs). }
  split; [apply Hopt|]. split; [apply Hopt|].
  exists hf. rewrite Hh. split; reflexivity.
Qed.

Lemma submitted_record_normalised_witness :
  slug padded_record = generateSlug (firstName padded_record) (lastName padded_record)
  /\ phone padded_record = optional_field "  "
  /\ linkedin padded_record = optional_field " https://www.linkedin.com/in/jane ".
Proof.
  destruct (submitted_record_normalised padded_form padded_record eq_refl)
    as (Hs & _ & _ & Hp & Hl & _).
  split; [exact Hs|]. split; [exact Hp | exact Hl].
Defined.

Lemma extractMediaFromBio_no_inline imgs :
  inline_images imgs = [] -> extractMediaFromBio imgs = Some [].
Proof.
  induction imgs as [|img imgs IH]; [reflexivity|].
  unfold inline_images. cbn [List.filter extractMediaFromBio]. unfold is_inline at 1.
  destruct (Js.startsWith (Dom.src img) "data:"); [discriminate|]. exact IH.
Qed.

Lemma submittable_checked f :
  submittable f = true ->
  jszip_loaded f = true /\ blank_required f = false /\ headshot_files f <> [].
Proof.
  intros Hs. pose proof (required_filled f) as Hreq. unfold submittable in Hs.
  destruct (headshot_files f); [now rewrite andb_false_r in Hs|].
  rewrite andb_true_r in Hs.
  destruct (jszip_loaded f); [|discriminate]. cbn [andb] in Hs.
  rewrite <- !andb_assoc in Hs, Hreq. rewrite Hs in Hreq.
  split; [reflexivity|]. split; [|discriminate]. now destruct (blank_required f).
Qed.

(** X9: a form that passes the checks and whose bio has no inline image
    (no image at all, or images with external addresses only) gives a
    record whose media list is empty and whose [bioHtml] is the trimmed
    markup of the editor, character for character, and an archive with one
    folder, named by the slug, that holds exactly the record, the contact
    card and the headshot.  The form is previewed with them when the library
    packs the archive, and ends with the message of the library when it
    rejects it. *)
Theorem bio_without_inline_images (library : packing) (f : form) :
  submittable f = true -> inline_images (bioImages f) = [] ->
  exists url vcard folder e hf,
    handleFormSubmit f = SubmitPreview (slug e) url vcard {[slug e := folder]} e hf []
    /\ media e = [] /\ bioHtml e = trimmed_markup f
    /\ dom folder = {["data.json"; "contact.vcf"; headshot e]}
    /\ handleFormSubmit_settled library f =
         match library with
         | Packs => SubmitPreview (slug e) url vcard {[slug e := folder]} e hf []
         | PackingError message => SubmitError ("Error creating ZIP: " +:+ message)
         end.
Proof.
  intros Hs Hin. apply submittable_checked in Hs as (Hz & Hb & Hh).
  unfold handleFormSubmit_settled.
  rewrite handleFormSubmit_checked by assumption.
  destruct (headshot_files f) as [|hf others]; [congruence|].
  rewrite (extractMediaFromBio_no_inline _ Hin). cbv zeta.
  do 5 eexists. split; [reflexivity|].
  split; [reflexivity|]. split; [reflexivity|].
  split; [|now destruct library].
  cbn [converted insert_media fold_left]. unfold base_folder.
  rewrite !dom_insert_L, dom_empty_L. set_solver.
Qed.

Lemma bio_without_inline_images_witness :
  exists e, submitted_record (handleFormSubmit_settled Packs (example_form "<p>Hi</p>" []))
              = Some e
    /\ media e = [] /\ bioHtml e = "<p>Hi</p>".
Proof.
  destruct (bio_without_inline_images Packs (example_form "<p>Hi</p>" []) eq_refl eq_refl)
    as (url & vcard & folder & e & hf & _ & Hm & Hb & _ & H).
  exists e. rewrite H. repeat split; assumption.
Defined.

(** ** Addresses that do not decode *)

Lemma capture_to_semicolon_none s : lacks ";" s = true -> capture_to_semicolon s = None.
Proof.
  unfold lacks. induction s as [|c r IH]; [reflexivity|].
  cbn [every capture_to_semicolon]. intros [Hc Hr]%andb_true_iff.
  apply negb_true_iff in Hc. rewrite Hc, (IH Hr). now destruct (_ || _).
Qed.

Lemma match_mime_none s : lacks ";" s = true -> match_mime s = None.
Proof.
  intros H. induction s as [|c r IH]; [reflexivity|].
  assert (Hr : lacks ";" r = true).
  { unfold lacks in *. cbn [every] in H. now apply andb_true_iff in H as [_ H]. }
  cbn [match_mime]. rewrite (capture_to_semicolon_none r Hr), (IH Hr).
  now destruct (Ascii.eqb c ":").
Qed.

Lemma split_whole sep s : lacks sep s = true -> Js.split sep s = [s].
Proof.
  intros H. unfold Js.split. rewrite split_from_last by exact H.
  unfold String.rev. rewrite rev_app_rev_app. simpl. now rewrite append_empty_r.
Qed.

(** X10: which addresses [dataUrlToFile] decodes.  An address
    [data:<type>;<parameters>,<payload>] gives a file with the given name,
    the type and the decoded bytes exactly when the payload is base64, and
    throws otherwise.  An address without comma always throws.  An address
    whose part before the first comma holds no semicolon, such as the
    percent-encoded [data:image/svg+xml,...], always throws, whatever
    follows the comma. *)
Theorem dataUrlToFile_cases (mime params payload dataUrl header rest name : string) :
  (lacks ";" mime = true -> lacks "010" mime = true -> lacks "013" mime = true ->
   lacks "," mime = true -> lacks "," params = true -> lacks "," payload = true ->
   dataUrlToFile ("data:" +:+ mime +:+ ";" +:+ params +:+ "," +:+ payload) name =
     option_map (MkFile name (File_type mime)) (Base64.atob payload))
  /\ (lacks "," dataUrl = true -> dataUrlToFile dataUrl name = None)
  /\ (lacks "," header = true -> lacks ";" header = true ->
      dataUrlToFile (header +:+ "," +:+ rest) name = None).
Proof.
  split; [apply dataUrlToFile_data_url|].
  split.
  - intros H. unfold dataUrlToFile. rewrite (split_whole _ _ H).
    destruct (match_mime _); reflexivity.
  - intros Hc Hs. unfold dataUrlToFile, Js.split.
    change (header +:+ "," +:+ rest) with (header +:+ String "," rest).
    rewrite split_from_first by exact Hc.
    unfold String.rev. rewrite rev_app_rev_app. cbn [String.rev_app nth].
    rewrite append_empty_r. now rewrite match_mime_none.
Qed.

Lemma dataUrlToFile_cases_witness :
  dataUrlToFile gif_url "logo.gif" = Some (MkFile "logo.gif" "image/gif" "GIF89a")
  /\ dataUrlToFile "data:image/gif;base64" "a.gif" = None
  /\ dataUrlToFile svg_url "drawing.svg" = None.
Proof.
  destruct (dataUrlToFile_cases "image/gif" "base64" "R0lGODlh" "data:image/gif;base64"
              "data:image/svg+xml" "%3Csvg%3E%3C/svg%3E" "logo.gif") as (H1 & _).
  destruct (dataUrlToFile_cases "" "" "" "data:image/gif;base64" "" "" "a.gif") as (_ & H2 & _).
  destruct (dataUrlToFile_cases "" "" "" "" "data:image/svg+xml" "%3Csvg%3E%3C/svg%3E"
              "drawing.svg") as (_ & _ & H3).
  split; [exact (H1 eq_refl eq_refl eq_refl eq_refl eq_refl eq_refl)|].
  split; [exact (H2 eq_refl) | exact (H3 eq_refl eq_refl)].
Defined.

(** ** The list of the preview *)

Lemma showFormPreview_items_eq slug e ms :
  showFormPreview_items slug e ms =
    [slug +:+ "/data.json"; slug +:+ "/contact.vcf"; slug +:+ "/" +:+ headshot e]
      ++ map (fun m => slug +:+ "/" +:+ filename m) ms.
Proof.
  unfold showFormPreview_items.
  generalize [slug +:+ "/data.json"; slug +:+ "/contact.vcf"; slug +:+ "/" +:+ headshot e].
  induction ms as [|m ms IH]; intros init; simpl; [now rewrite app_nil_r|].
  rewrite IH. unfold push. now rewrite <- app_assoc.
Qed.

Lemma base_folder_dom e vcard hf :
  dom (base_folder e vcard hf) = {["data.json"; "contact.vcf"; headshot e]}.
Proof. unfold base_folder. rewrite !dom_insert_L, dom_empty_L. set_solver. Qed.

Lemma in_archive_singleton slug folder path :
  in_archive {[slug := folder]} path <->
  exists name, name ∈ dom folder /\ path = slug +:+ "/" +:+ name.
Proof.
  unfold in_archive. split.
  - intros (f & entries & name & Hl & Hn & ->).
    apply lookup_singleton_Some in Hl as [<- <-]. eauto.
  - intros (name & Hn & ->). exists slug, folder, name.
    split; [apply lookup_singleton_eq | now split].
Qed.

(** X12: the list of contents that [showFormPreview] shows and the archive
    that [createEmployeeZip] makes of the same arguments name the same
    paths: every listed path is an entry of the archive and every entry of
    the archive is listed.  The list has three lines plus one per media
    item, so colliding names show as repeated lines. *)
Theorem showFormPreview_lists_archive (slug : string) (employeeData : employee)
    (vcard : string) (headshotFile : File) (mediaFiles : list media_item) :
  exists zip,
    createEmployeeZip slug employeeData vcard headshotFile mediaFiles = Some zip
    /\ (forall path,
          In path (showFormPreview_items slug employeeData mediaFiles) <-> in_archive zip path)
    /\ length (showFormPreview_items slug employeeData mediaFiles) = 3 + length mediaFiles.
Proof.
  eexists. split; [apply createEmployeeZip_produces|]. split.
  - intros path. rewrite in_archive_singleton, showFormPreview_items_eq.
    setoid_rewrite insert_media_dom. setoid_rewrite base_folder_dom.
    rewrite in_app_iff, in_map_iff. split.
    + intros [Hbase|(m & <- & Hm)].
      * destruct Hbase as [<-|[<-|[<-|[]]]].
        -- exists "data.json". split; [set_solver | reflexivity].
        -- exists "contact.vcf". split; [set_solver | reflexivity].
        -- exists (headshot employeeData). split; [set_solver | reflexivity].
      * exists (filename m). split; [|reflexivity].
        apply elem_of_union_r, elem_of_list_to_set, list_elem_of_In, in_map, Hm.
    + intros (name & Hname & ->).
      apply elem_of_union in Hname as [Hname|Hname].
      * left. apply elem_of_union in Hname as [Hname|Hname].
        -- apply elem_of_union in Hname as [Hname|Hname].
           ++ apply elem_of_singleton in Hname as ->. now left.
           ++ apply elem_of_singleton in Hname as ->. right. now left.
        -- apply elem_of_singleton in Hname as ->. right. right. now left.
      * right. apply elem_of_list_to_set, list_elem_of_In, in_map_iff in Hname
          as (m & <- & Hm). eauto.
  - rewrite showFormPreview_items_eq, length_app, length_map. reflexivity.
Qed.

(** ** Names of the extracted images *)

Lemma pretty_N_char_digit x : is_digit (pretty_N_char x) = true.
Proof. unfold pretty_N_char. repeat case_match; reflexivity. Qed.

Lemma pretty_N_go_digits x :
  exists d, every is_digit d = true /\ forall s, pretty_N_go x s = d +:+ s.
Proof.
  induction (N.lt_wf_0 x) as [x _ IH].
  destruct (decide (x = 0)%N) as [->|Hx].
  - exists EmptyString. split; [reflexivity|]. intros s. apply pretty_N_go_0.
  - destruct (IH (x `div` 10)%N) as (d & Hd & Hgo); [apply N.div_lt; lia|].
    exists (d +:+ String (pretty_N_char (x `mod` 10)) EmptyString). split.
    + rewrite every_append, Hd. cbn [every]. now rewrite pretty_N_char_digit.
    + intros s. rewrite pretty_N_go_step by lia. rewrite Hgo. now rewrite append_assoc.
Qed.

(** A number is written with digits only. *)
Lemma pretty_nat_digits (n : nat) : every is_digit (pretty n) = true.
Proof.
  unfold pretty, pretty_nat, pretty, pretty_N.
  destruct (decide (N.of_nat n = 0)%N); [reflexivity|].
  destruct (pretty_N_go_digits (N.of_nat n)) as (d & Hd & Hgo).
  now rewrite Hgo, append_empty_r.
Qed.

Lemma digits_then_extension d1 : forall d2 e1 e2,
  every is_digit d1 = true -> every is_digit d2 = true ->
  no_digit_start e1 = true -> no_digit_start e2 = true ->
  d1 +:+ e1 = d2 +:+ e2 -> d1 = d2.
Proof.
  induction d1 as [|c d1 IH]; intros [|c2 d2] e1 e2 H1 H2 He1 He2 H.
  - reflexivity.
  - cbn [String.append] in H. subst e1. cbn [every no_digit_start] in *.
    apply andb_true_iff in H2 as [H2 _]. now rewrite H2 in He1.
  - cbn [String.append] in H. subst e2. cbn [every no_digit_start] in *.
    apply andb_true_iff in H1 as [H1 _]. now rewrite H1 in He2.
  - cbn [String.append every] in *. injection H as -> H.
    apply andb_true_iff in H1 as [_ H1]. apply andb_true_iff in H2 as [_ H2].
    f_equal. now apply (IH d2 e1 e2).
Qed.

Lemma getFileExtension_no_digit_start name : no_digit_start (getFileExtension name) = true.
Proof. unfold getFileExtension. now destruct (Nat.ltb _ _). Qed.

(** The number of a generated name can be read back from the name. *)
Lemma generated_name_inj i j name name' :
  generated_name i name = generated_name j name' -> i = j.
Proof.
  unfold generated_name. intros H. apply append_inj_l in H.
  apply digits_then_extension in H;
    [|apply pretty_nat_digits | apply pretty_nat_digits
     |apply getFileExtension_no_digit_start | apply getFileExtension_no_digit_start].
  apply (inj pretty) in H. lia.
Qed.

Lemma generated_names_from refs : forall index x,
  In x (generated_names index refs) ->
  exists j name, index <= j /\ x = generated_name j name.
Proof.
  induction refs as [|[a name] refs IH]; intros index x; [intros []|].
  cbn [generated_names]. intros [<-|Hin]; [eauto|].
  destruct (IH _ _ Hin) as (j & n & Hj & ->). exists j, n. split; [lia | reflexivity].
Qed.

Lemma generated_names_NoDup refs : forall index, NoDup (generated_names index refs).
Proof.
  induction refs as [|[a name] refs IH]; intros index; [constructor|].
  cbn [generated_names]. constructor; [|apply IH].
  intros Hin%list_elem_of_In. apply generated_names_from in Hin as (j & n & Hj & E).
  apply generated_name_inj in E. lia.
Qed.

Lemma generated_names_bio refs index x :
  In x (generated_names index refs) -> Js.startsWith x "bio-image-" = true.
Proof.
  intros Hin. apply generated_names_from in Hin as (j & n & _ & ->).
  unfold generated_name, Js.startsWith. cbn.
  now destruct (pretty (j + 1) +:+ getFileExtension n).
Qed.

Lemma bio_image_name name :
  Js.startsWith name "bio-image-" = true ->
  (exists r, name = String "b" r) /\ Js.startsWith name "http" = false.
Proof.
  unfold Js.startsWith. destruct name as [|c r]; [discriminate|].
  cbn [String.prefix]. destruct (ascii_dec "b" c) as [<-|]; [|discriminate].
  intros _. split; [eauto | reflexivity].
Qed.

(** ** From the form to the profile *)

Lemma handleFormSubmit_decoded f :
  submittable f = true ->
  Forall (fun img => is_Some (dataUrlToFile (Dom.src img) (image_title img)))
    (inline_images (bioImages f)) ->
  exists hf bi,
    head (headshot_files f) = Some hf
    /\ extractMediaFromBio (bioImages f) = Some bi
    /\ handleFormSubmit f =
         SubmitPreview (slug (built_record f hf bi))
           (buildProfileUrl (slug (built_record f hf bi)))
           (buildVcard (built_record f hf bi))
           {[slug (built_record f hf bi) :=
               insert_media
                 (base_folder (built_record f hf bi) (buildVcard (built_record f hf bi)) hf)
                 (converted 0 bi)]}
           (built_record f hf bi) hf (converted 0 bi).
Proof.
  intros Hs Hall. apply submittable_checked in Hs as (Hz & Hb & Hh).
  rewrite handleFormSubmit_checked by assumption.
  destruct (headshot_files f) as [|hf others]; [congruence|].
  destruct (extractMediaFromBio_decodes _ Hall) as [bi Hbi]. rewrite Hbi.
  exists hf, bi. repeat split.
Qed.

Lemma built_media_names f hf bi name :
  In name (media (built_record f hf bi)) ->
  Js.startsWith name "bio-image-" = true.
Proof.
  cbn [media built_record]. rewrite converted_names. apply generated_names_bio.
Qed.

(** X13: the names that a submission gives to the images it extracts are
    names that the profile resolves inside the folder of the record.  In
    every record that [handleFormSubmit] makes, a media name starts with
    [bio-image-], hence is not empty and does not start with [http]; an image
    of the bio that refers to it is given, by [renderProfile], the address
    made of the base address, the slug of the record and the name. *)
Theorem submitted_media_resolved (f : form) (e : employee) (name : string) :
  submitted_record (handleFormSubmit f) = Some e -> In name (media e) ->
  Js.startsWith name "bio-image-" = true
  /\ Js.truthy_string name = true
  /\ Js.startsWith name "http" = false
  /\ renderProfile_bio (slug e) [Some name]
     = [Some (BASE_URL +:+ "/" +:+ slug e +:+ "/" +:+ name)].
Proof.
  intros H Hin.
  apply submitted_record_built in H as (_ & _ & hf & others & bi & _ & _ & ->).
  pose proof (built_media_names f hf bi name Hin) as Hname.
  destruct (bio_image_name name Hname) as [[r Hr] Hhttp].
  split; [exact Hname|]. split; [now rewrite Hr|]. split; [exact Hhttp|].
  unfold renderProfile_bio. cbn [map rewrite_image]. rewrite Hhttp, Hr. reflexivity.
Qed.

Lemma submitted_media_resolved_witness :
  exists e, submitted_record (handleFormSubmit gallery_form) = Some e
    /\ renderProfile_bio (slug e) [Some "bio-image-2.png"]
       = [Some (BASE_URL +:+ "/" +:+ slug e +:+ "/" +:+ "bio-image-2.png")].
Proof.
  destruct (submitted_record (handleFormSubmit gallery_form)) as [e|] eqn:E;
    [|vm_compute in E; discriminate].
  exists e. split; [reflexivity|].
  refine (proj2 (proj2 (proj2
            (submitted_media_resolved gallery_form e "bio-image-2.png" E _)))).
  pose proof E as E'. vm_compute in E'. injection E' as <-. right. left. reflexivity.
Defined.

(** X14: the archive of a submitted form is complete and free of
    collisions.  For a form that passes the checks and whose inline images
    decode, the preview gets the slug of the record, the profile address of
    that slug and the contact card of the record; the names [data.json],
    [contact.vcf], the headshot name and the media names of the record are
    pairwise different; the folder of the archive, named by the slug, has
    exactly these entries: the serialized record, the contact card, the
    headshot file and, under each media name, the file of that media
    item. *)
Theorem submitted_archive_complete (f : form) :
  submittable f = true ->
  Forall (fun img => is_Some (dataUrlToFile (Dom.src img) (image_title img)))
    (inline_images (bioImages f)) ->
  exists vcard folder e hf ms,
    handleFormSubmit f =
      SubmitPreview (slug e) (buildProfileUrl (slug e)) vcard {[slug e := folder]} e hf ms
    /\ vcard = buildVcard e
    /\ map filename ms = media e
    /\ NoDup ("data.json" :: "contact.vcf" :: headshot e :: media e)
    /\ dom folder = list_to_set ("data.json" :: "contact.vcf" :: headshot e :: media e)
    /\ folder !! "data.json" = Some (TextEntry (Json.stringify e))
    /\ folder !! "contact.vcf" = Some (TextEntry vcard)
    /\ folder !! headshot e = Some (BlobEntry hf)
    /\ (forall m, In m ms -> folder !! filename m = Some (BlobEntry (file m))).
Proof.
  intros Hs Hall. destruct (handleFormSubmit_decoded f Hs Hall) as (hf & bi & _ & _ & H).
  set (e := built_record f hf bi) in *.
  do 5 eexists. split; [exact H|].
  assert (Hnames : map filename (converted 0 bi) = media e) by reflexivity.
  assert (Hnd : NoDup (media e)).
  { rewrite <- Hnames, converted_names. apply generated_names_NoDup. }
  assert (Hbio : forall name, In name (media e) -> exists r, name = String "b" r).
  { intros name Hin. apply built_media_names, bio_image_name in Hin. tauto. }
  assert (Hhead : exists r, headshot e = String "h" r) by (cbn; eauto).
  assert (Hother : forall name, (forall r, name <> String "b" r) ->
            ~ In name (map filename (converted 0 bi))).
  { intros name Hname Hin. rewrite Hnames in Hin.
    destruct (Hbio _ Hin) as [r ->]. now apply (Hname r). }
  destruct Hhead as [hr Hhr].
  split; [reflexivity|]. split; [exact Hnames|].
  split.
  { rewrite !NoDup_cons. repeat split; try exact Hnd.
    - rewrite !elem_of_cons. intros [E|[E|E%list_elem_of_In]]; [discriminate| |].
      + rewrite Hhr in E. discriminate.
      + destruct (Hbio _ E) as [r Er]. discriminate.
    - rewrite !elem_of_cons. intros [E|E%list_elem_of_In].
      + rewrite Hhr in E. discriminate.
      + destruct (Hbio _ E) as [r Er]. discriminate.
    - intros E%list_elem_of_In. destruct (Hbio _ E) as [r Er]. rewrite Hhr in Er.
      discriminate. }
  split.
  { rewrite insert_media_dom, base_folder_dom, Hnames. set_solver. }
  split.
  { rewrite insert_media_other by (apply Hother; discriminate).
    unfold base_folder. rewrite lookup_insert_ne by (rewrite Hhr; discriminate).
    rewrite lookup_insert_ne by discriminate. apply lookup_insert_eq. }
  split.
  { rewrite insert_media_other by (apply Hother; discriminate).
    unfold base_folder. rewrite lookup_insert_ne by (rewrite Hhr; discriminate).
    apply lookup_insert_eq. }
  split.
  { rewrite insert_media_other by (apply Hother; rewrite Hhr; discriminate).
    unfold base_folder. apply lookup_insert_eq. }
  intros m Hm. apply insert_media_lookup; [|exact Hm]. now rewrite Hnames.
Qed.

Lemma submitted_archive_complete_witness :
  exists folder e,
    (exists vcard hf ms,
       handleFormSubmit gallery_form =
         SubmitPreview (slug e) (buildProfileUrl (slug e)) vcard {[slug e := folder]} e hf ms)
    /\ dom folder = list_to_set ("data.json" :: "contact.vcf" :: headshot e :: media e).
Proof.
  destruct (submitted_archive_complete gallery_form eq_refl)
    as (vcard & folder & e & hf & ms & H & _ & _ & _ & Hd & _).
  - repeat constructor; eexists; vm_compute; reflexivity.
  - exists folder, e. split; [|exact Hd]. now exists vcard, hf, ms.
Defined.

(** ** Images put in with the image button *)

Section Triples.
Variable P : list ascii -> Prop.
Hypothesis P0 : P [].
Hypothesis P1 : forall a, P [a].
Hypothesis P2 : forall a b, P [a; b].
Hypothesis P3 : forall a b c r, P r -> P (a :: b :: c :: r).

(** Induction over bytes taken three at a time. *)
Lemma list_ind3 : forall l, P l.
Proof.
  assert (H : forall n l, length l <= n -> P l).
  { induction n as [|n IH]; intros l Hl.
    - destruct l; [apply P0 | simpl in Hl; lia].
    - destruct l as [|a [|b [|c r]]]; auto. apply P3, IH. simpl in Hl. lia. }
  intros l. now apply (H (length l)).
Qed.

End Triples.

(** A digit of the alphabet decodes to its value, and is neither the
    padding sign, nor white space, nor a comma. *)
Lemma digit_value v : (v < 64)%N ->
  Base64.value (FileReader.digit v) = Some v
  /\ Base64.is_pad (FileReader.digit v) = false
  /\ Base64.is_ascii_whitespace (FileReader.digit v) = false
  /\ Ascii.eqb (FileReader.digit v) "," = false.
Proof.
  intros Hv.
  assert (Hall : forallb (fun k =>
            let v := N.of_nat k in
            match Base64.value (FileReader.digit v) with
            | Some w => N.eqb w v
            | None => false
            end
            && negb (Base64.is_pad (FileReader.digit v))
            && negb (Base64.is_ascii_whitespace (FileReader.digit v))
            && negb (Ascii.eqb (FileReader.digit v) ",")) (seq 0 64) = true)
    by (vm_compute; reflexivity).
  rewrite forallb_forall in Hall.
  assert (Hin : In (N.to_nat v) (seq 0 64)) by (apply in_seq; lia).
  specialize (Hall _ Hin). rewrite N2Nat.id in Hall. cbv zeta in Hall.
  apply andb_true_iff in Hall as [Hall H4]. apply andb_true_iff in Hall as [Hall H3].
  apply andb_true_iff in Hall as [H1 H2].
  apply negb_true_iff in H2, H3, H4.
  destruct (Base64.value (FileReader.digit v)) as [w|]; [|discriminate].
  apply N.eqb_eq in H1. subst w. auto.
Qed.

Lemma regroup4 n :
  ((((n / 262144) * 64 + (n / 4096) mod 64) * 64 + (n / 64) mod 64) * 64 + n mod 64 = n)%N.
Proof.
  replace (n / 262144)%N with (n / 64 / 64 / 64)%N by (rewrite !N.Div0.div_div; reflexivity).
  replace (n / 4096)%N with (n / 64 / 64)%N by (rewrite !N.Div0.div_div; reflexivity).
  pose proof (N.div_mod' n 64). pose proof (N.div_mod' (n / 64) 64).
  pose proof (N.div_mod' (n / 64 / 64) 64). lia.
Qed.

Lemma regroup3 n :
  (((n / 4096) * 64 + (n / 64) mod 64) * 64 + n mod 64 = n)%N.
Proof.
  replace (n / 4096)%N with (n / 64 / 64)%N by (rewrite !N.Div0.div_div; reflexivity).
  pose proof (N.div_mod' n 64). pose proof (N.div_mod' (n / 64) 64). lia.
Qed.

Lemma regroup2 n : ((n / 64) * 64 + n mod 64 = n)%N.
Proof. pose proof (N.div_mod' n 64). lia. Qed.

Lemma byte_bound a : (N_of_ascii a < 256)%N.
Proof. apply N_ascii_bounded. Qed.

Lemma sextets_bounded : forall l, Forall (fun v => (v < 64)%N) (sextets l).
Proof.
  apply list_ind3; intros; cbn [sextets]; cbv zeta.
  - constructor.
  - pose proof (byte_bound a). repeat constructor.
    + apply N.Div0.div_lt_upper_bound. lia.
    + now apply N.mod_lt.
  - pose proof (byte_bound a). pose proof (byte_bound b). repeat constructor.
    + apply N.Div0.div_lt_upper_bound. lia.
    + now apply N.mod_lt.
    + now apply N.mod_lt.
  - pose proof (byte_bound a). pose proof (byte_bound b). pose proof (byte_bound c).
    repeat constructor; try (now apply N.mod_lt); [|assumption].
    apply N.Div0.div_lt_upper_bound. lia.
Qed.

(** The decoder puts the six-bit groups back into the bytes. *)
Lemma bytes_sextets : forall l, Base64.bytes (sextets l) = l.
Proof.
  apply list_ind3.
  - reflexivity.
  - intros a. cbn [sextets Base64.bytes]. cbv zeta. rewrite regroup2.
    rewrite N.div_mul by discriminate. now rewrite ascii_N_embedding.
  - intros a b. cbn [sextets Base64.bytes]. cbv zeta. rewrite regroup3.
    rewrite N.div_mul by discriminate. pose proof (byte_bound b).
    rewrite <- (N.div_unique (N_of_ascii a * 256 + N_of_ascii b) 256
                  (N_of_ascii a) (N_of_ascii b)) by lia.
    rewrite <- (N.mod_unique (N_of_ascii a * 256 + N_of_ascii b) 256
                  (N_of_ascii a) (N_of_ascii b)) by lia.
    now rewrite !ascii_N_embedding.
  - intros a b c r IH. cbn [sextets Base64.bytes]. cbv zeta. rewrite regroup4, IH.
    pose proof (byte_bound a). pose proof (byte_bound b). pose proof (byte_bound c).
    set (n := (N_of_ascii a * 65536 + N_of_ascii b * 256 + N_of_ascii c)%N).
    rewrite <- (N.div_unique n 65536 (N_of_ascii a) (N_of_ascii b * 256 + N_of_ascii c))
      by (unfold n; lia).
    rewrite <- (N.div_unique n 256 (N_of_ascii a * 256 + N_of_ascii b) (N_of_ascii c))
      by (unfold n; lia).
    rewrite <- (N.mod_unique n 256 (N_of_ascii a * 256 + N_of_ascii b) (N_of_ascii c))
      by (unfold n; lia).
    rewrite <- (N.mod_unique (N_of_ascii a * 256 + N_of_ascii b) 256
                  (N_of_ascii a) (N_of_ascii b)) by lia.
    now rewrite !ascii_N_embedding.
Qed.

Lemma encode_sextets : forall l,
  FileReader.encode l = map FileReader.digit (sextets l) ++ padding l.
Proof.
  apply list_ind3; intros; cbn [FileReader.encode sextets padding map app]; cbv zeta;
    try reflexivity.
  now rewrite H.
Qed.

Lemma values_digits vs :
  Forall (fun v => (v < 64)%N) vs -> Base64.values (map FileReader.digit vs) = Some vs.
Proof.
  induction 1 as [|v vs Hv _ IH]; [reflexivity|].
  cbn [map Base64.values]. destruct (digit_value v Hv) as (-> & _). now rewrite IH.
Qed.

Lemma strip_plain l :
  Forall (fun c => Base64.is_ascii_whitespace c = false) l ->
  Base64.strip (string_of_list_ascii l) = l.
Proof.
  induction 1 as [|c l Hc _ IH]; [reflexivity|].
  cbn [string_of_list_ascii Base64.strip]. now rewrite Hc, IH.
Qed.

(** The shape of an encoded text: a multiple of four characters, made of
    digits followed by no, one or two padding signs, the digits never one
    more than a multiple of four. *)
Lemma encode_shape : forall l,
  (length (sextets l) + length (padding l)) mod 4 = 0
  /\ (padding l = []
      \/ padding l = ["="%char] \/ padding l = ["="%char; "="%char])
  /\ length (sextets l) mod 4 <> 1.
Proof.
  apply list_ind3.
  - repeat split; auto.
  - intros a. repeat split; auto; cbn; lia.
  - intros a b. repeat split; auto; cbn; lia.
  - intros a b c r (H1 & H2 & H3). cbn [sextets padding length].
    replace (S (S (S (S (length (sextets r))))) + length (padding r))
      with (length (sextets r) + length (padding r) + 1 * 4) by lia.
    replace (S (S (S (S (length (sextets r)))))) with (length (sextets r) + 1 * 4) by lia.
    rewrite !Nat.Div0.mod_add. repeat split; assumption.
Qed.

Lemma drop_padding_encode l :
  Base64.drop_padding (FileReader.encode l) = map FileReader.digit (sextets l).
Proof.
  rewrite encode_sextets.
  destruct (encode_shape l) as (Hlen & Hpad & _).
  pose proof (sextets_bounded l) as Hb.
  assert (Hdig : Forall (fun c => Base64.is_pad c = false) (map FileReader.digit (sextets l))).
  { apply Forall_map. eapply Forall_impl; [exact Hb|]. intros v Hv. now apply digit_value. }
  set (d := map FileReader.digit (sextets l)) in *.
  assert (Hlast : forall p r, rev d = p :: r -> Base64.is_pad p = false).
  { intros p r Hr. assert (Hin : In p d) by (apply in_rev; rewrite Hr; now left).
    rewrite List.Forall_forall in Hdig. now apply Hdig. }
  assert (Hd : length d = length (sextets l)) by (unfold d; apply length_map).
  unfold Base64.drop_padding. rewrite length_app, Hd.
  destruct Hpad as [Hp|[Hp|Hp]]; rewrite Hp in *; rewrite Hlen; cbn [Nat.eqb].
  - rewrite app_nil_r.
    destruct (rev d) as [|p [|q r]] eqn:Hr; try reflexivity.
    now rewrite (Hlast p _ eq_refl).
  - rewrite rev_app_distr. cbn [rev app].
    destruct (rev d) as [|q r] eqn:Hr.
    + apply (f_equal (@length _)) in Hr. rewrite length_rev, Hd in Hr.
      cbn [length] in Hr, Hlen. rewrite Hr in Hlen. discriminate.
    + change (Base64.is_pad "=") with true. cbn iota.
      rewrite (Hlast q r eq_refl). rewrite <- (rev_involutive d), Hr. reflexivity.
  - rewrite rev_app_distr. cbn [rev app].
    change (Base64.is_pad "=") with true. cbn iota. apply rev_involutive.
Qed.

Lemma encode_every (Q : ascii -> bool) l :
  (forall v, (v < 64)%N -> Q (FileReader.digit v) = false) -> Q "="%char = false ->
  Forall (fun c => Q c = false) (FileReader.encode l).
Proof.
  intros Hdigit Hpad. rewrite encode_sextets. apply Forall_app. split.
  - apply Forall_map. eapply Forall_impl; [apply sextets_bounded|].
    intros v Hv. now apply Hdigit.
  - destruct (encode_shape l) as (_ & [->|[->| ->]] & _); repeat constructor; exact Hpad.
Qed.

(** Decoding the base64 form of bytes gives the bytes back. *)
Lemma atob_encode l :
  Base64.atob (string_of_list_ascii (FileReader.encode l)) = Some (string_of_list_ascii l).
Proof.
  unfold Base64.atob.
  rewrite strip_plain
    by (apply encode_every; [intros v Hv; now apply digit_value | reflexivity]).
  rewrite drop_padding_encode, length_map.
  destruct (encode_shape l) as (_ & _ & Hne).
  destruct (Nat.eqb_spec (length (sextets l) mod 4) 1) as [E|_]; [contradiction|].
  rewrite values_digits by apply sextets_bounded. now rewrite bytes_sextets.
Qed.

Lemma encode_lacks_comma l : lacks "," (string_of_list_ascii (FileReader.encode l)) = true.
Proof.
  assert (H : Forall (fun c => Ascii.eqb c "," = false) (FileReader.encode l))
    by (apply encode_every; [intros v Hv; now apply digit_value | reflexivity]).
  unfold lacks. induction H as [|c r Hc _ IH]; [reflexivity|].
  cbn [string_of_list_ascii every]. now rewrite Hc, IH.
Qed.

Lemma readAsDataURL_decodes file name :
  plain_type (file_type file) = true ->
  dataUrlToFile (FileReader.readAsDataURL file) name =
    Some (MkFile name (File_type (file_type file)) (file_bytes file)).
Proof.
  unfold plain_type. intros H.
  repeat (let H' := fresh "Ht" in apply andb_true_iff in H as [H H']).
  unfold FileReader.readAsDataURL. rewrite H.
  change (";base64," +:+ ?x) with (";" +:+ "base64" +:+ "," +:+ x).
  rewrite dataUrlToFile_data_url; try assumption; try reflexivity.
  - rewrite atob_encode. cbn [option_map]. now rewrite string_of_list_ascii_of_string.
  - apply encode_lacks_comma.
Qed.

(** X15: an image put in the bio with the image button comes back whole.
    For a file whose type is not empty and holds no [;], [,] or line break,
    the image the editor appends is an inline image, and [dataUrlToFile]
    makes of its address and title a file with the name of the chosen file
    ([image.gif] if it has none), its type and exactly its bytes;
    [extractMediaFromBio] returns that file with the address. *)
Theorem uploaded_image_restored (file : File) :
  plain_type (file_type file) = true ->
  is_inline (uploaded_image file) = true
  /\ dataUrlToFile (Dom.src (uploaded_image file)) (image_title (uploaded_image file))
     = Some (restored file)
  /\ extractMediaFromBio [uploaded_image file]
     = Some [BioImage (FileReader.readAsDataURL file) (restored file)].
Proof.
  intros Ht.
  assert (Hin : is_inline (uploaded_image file) = true).
  { unfold is_inline, Js.startsWith, uploaded_image, FileReader.readAsDataURL. cbn.
    now destruct (_ +:+ _). }
  assert (Hd : dataUrlToFile (Dom.src (uploaded_image file)) (image_title (uploaded_image file))
               = Some (restored file)).
  { unfold uploaded_image. cbn [Dom.src]. now rewrite readAsDataURL_decodes. }
  split; [exact Hin|]. split; [exact Hd|].
  cbn [extractMediaFromBio]. fold (is_inline (uploaded_image file)).
  fold (image_title (uploaded_image file)). now rewrite Hin, Hd.
Qed.

Lemma uploaded_image_restored_witness :
  Dom.src (uploaded_image logo_file) = gif_url
  /\ dataUrlToFile (Dom.src (uploaded_image logo_file)) (image_title (uploaded_image logo_file))
     = Some logo_file.
Proof.
  split; [reflexivity|].
  exact (proj1 (proj2 (uploaded_image_restored logo_file eq_refl))).
Defined.

Lemma generated_names_imap (files : list File) : forall index,
  generated_names index (map (fun u => reference (uploaded_image u)) files)
  = imap (fun i u => generated_name (index + i) (file_name (restored u))) files.
Proof.
  induction files as [|u files IH]; intros index; [reflexivity|].
  cbn [map generated_names reference]. rewrite imap_cons, IH. f_equal.
  - now rewrite Nat.add_0_r.
  - apply imap_ext. intros i x _. unfold compose. cbn beta.
    now replace (index + S i) with (S index + i) by lia.
Qed.

Lemma uploaded_images_decode (files : list File) :
  Forall (fun u => plain_type (file_type u) = true) files ->
  Forall (fun img => is_Some (dataUrlToFile (Dom.src img) (image_title img)))
    (map uploaded_image files).
Proof.
  intros H. apply Forall_map. eapply Forall_impl; [exact H|].
  intros u Ht. cbn beta. unfold uploaded_image. cbn [Dom.src].
  rewrite readAsDataURL_decodes by exact Ht. eauto.
Qed.

Lemma restored_files (files : list File) :
  Forall (fun u => plain_type (file_type u) = true) files ->
  forall ms,
    Forall2 (fun m img => dataUrlToFile (Dom.src img) (image_title img) = Some (file m))
      ms (map uploaded_image files) ->
    Forall2 (fun m u => file m = restored u) ms files.
Proof.
  induction 1 as [|x files Hx _ IH]; intros ms H; inversion H as [|m img ms' imgs Hm Hrest];
    subst; constructor; [|now apply IH].
  unfold uploaded_image in Hm. cbn [Dom.src] in Hm.
  rewrite readAsDataURL_decodes in Hm by exact Hx. now injection Hm as <-.
Qed.

(** X16: a form that passes the checks and whose inline images are the
    images put in with the image button, for files with a plain type, never
    throws while its images are extracted: the media items hold the chosen
    files, in the order of the images, with their names, types and bytes;
    the media name of the file number n, counted from 1, is [bio-image-<n>]
    followed by the extension of the name of the file; and the archive
    holds each file under its media name.  The form is previewed with them
    when the library packs the archive, and ends with the message of the
    library when it rejects it. *)
Theorem uploaded_images_packed (library : packing) (f : form) (files : list File) :
  submittable f = true ->
  inline_images (bioImages f) = map uploaded_image files ->
  Forall (fun u => plain_type (file_type u) = true) files ->
  exists url vcard folder e hf ms,
    handleFormSubmit f = SubmitPreview (slug e) url vcard {[slug e := folder]} e hf ms
    /\ handleFormSubmit_settled library f =
         match library with
         | Packs => SubmitPreview (slug e) url vcard {[slug e := folder]} e hf ms
         | PackingError message => SubmitError ("Error creating ZIP: " +:+ message)
         end
    /\ map file ms = map restored files
    /\ map filename ms = media e
    /\ media e = imap (fun i u => generated_name i (file_name (restored u))) files
    /\ Forall2 (fun m u => folder !! filename m = Some (BlobEntry (restored u))) ms files.
Proof.
  intros Hs Hinline Hplain.
  pose proof (uploaded_images_decode files Hplain) as Hdec. rewrite <- Hinline in Hdec.
  destruct (handleFormSubmit_decoded f Hs Hdec) as (hf & bi & _ & Hbi & H).
  set (e := built_record f hf bi) in *.
  do 6 eexists. split; [exact H|].
  split; [unfold handleFormSubmit_settled; rewrite H; now destruct library|].
  assert (Hnames : map filename (converted 0 bi) = media e) by reflexivity.
  assert (Hgen : media e = imap (fun i u => generated_name i (file_name (restored u))) files).
  { rewrite <- Hnames, converted_names.
    destruct (extractMediaFromBio_references _ _ Hbi) as [-> _].
    rewrite Hinline, map_map. apply generated_names_imap. }
  assert (Hnd : NoDup (map filename (converted 0 bi))).
  { rewrite converted_names. apply generated_names_NoDup. }
  assert (Hfiles : Forall2 (fun m u => file m = restored u) (converted 0 bi) files).
  { apply restored_files; [exact Hplain|]. rewrite <- Hinline.
    apply converted_decoded. now apply extractMediaFromBio_some. }
  split.
  { clear -Hfiles. induction Hfiles as [|m u ms fs Hm _ IH]; [reflexivity|].
    cbn [map]. now rewrite Hm, IH. }
  split; [exact Hnames|]. split; [exact Hgen|].
  assert (Hlook : forall m, In m (converted 0 bi) ->
            insert_media (base_folder e (buildVcard e) hf) (converted 0 bi) !! filename m
            = Some (BlobEntry (file m))).
  { intros m Hm. now apply insert_media_lookup. }
  revert Hlook. generalize (insert_media (base_folder e (buildVcard e) hf) (converted 0 bi)).
  intros folder Hlook. clear -Hfiles Hlook.
  induction Hfiles as [|m u ms fs Hm _ IH]; constructor.
  - rewrite <- Hm. apply Hlook. now left.
  - apply IH. intros m' Hm'. apply Hlook. now right.
Qed.

Lemma uploaded_images_packed_witness :
  exists e ms,
    (exists url vcard zip hf,
       handleFormSubmit_settled Packs upload_form = SubmitPreview (slug e) url vcard zip e hf ms)
    /\ map file ms = [logo_file; photo_file]
    /\ media e = ["bio-image-1.gif"; "bio-image-2.png"].
Proof.
  destruct (uploaded_images_packed Packs upload_form [logo_file; photo_file] eq_refl eq_refl)
    as (url & vcard & folder & e & hf & ms & _ & H & Hf & _ & Hm & _).
  - repeat constructor.
  - exists e, ms. split; [now exists url, vcard, {[slug e := folder]}, hf|].
    split; [exact Hf | exact Hm].
Defined.

(** ** Management page and completion order *)

(** Before the last lookup settles, the management view renders nothing. *)
Lemma loadManageList_pending EMPLOYEE_SLUGS outcome done rest :
  done ++ rest ≡ₚ seq 0 (length EMPLOYEE_SLUGS) -> rest <> [] ->
  manage_render_calls (loadManageList EMPLOYEE_SLUGS outcome done) = []
  /\ manage_view (loadManageList EMPLOYEE_SLUGS outcome done) = DirectoryLoading.
Proof.
  intros Hp Hrest. destruct (schedule_facts _ _ Hp) as (Hnd & Hb & Hlen).
  rewrite length_app in Hlen.
  assert (Hr : 0 < length rest) by (destruct rest; [congruence | simpl; lia]).
  destruct EMPLOYEE_SLUGS as [|s0 more] eqn:E.
  - simpl in Hlen. lia.
  - rewrite <- E in *.
    replace (loadManageList EMPLOYEE_SLUGS outcome done)
      with (manage_run EMPLOYEE_SLUGS outcome done) by (rewrite E; reflexivity).
    apply NoDup_app in Hnd as (Hnd & _ & _).
    assert (Hinv : manage_inv EMPLOYEE_SLUGS outcome done
                     (manage_run EMPLOYEE_SLUGS outcome done)).
    { apply manage_run_inv; [exact Hnd | | lia].
      intros i Hi. apply Hb, elem_of_app. now left. }
    destruct Hinv as [_ _ _ Hc Hv]. now split.
Qed.

(** X17: the management view keeps the order of the identifier sequence.
    Whatever the identifiers, the outcomes and the order in which the
    lookups complete, once all have settled [renderManageList] is called
    once, with the truthy resolved records in index order, which are all
    the resolved records when these are objects; with no identifier it is
    not called and the empty view is shown.  The page then shows the items
    of that list, or the empty view when the list is empty; when the item of
    one of the records cannot be built, the renderer throws and the list
    stays hidden.  Before the last lookup settles nothing is rendered and
    the page still shows the loading message, so a lookup that never settles
    leaves it there. *)
Theorem manage_order_preserved (EMPLOYEE_SLUGS : list string) (outcome : nat -> response)
    (schedule : list nat) :
  schedule ≡ₚ seq 0 (length EMPLOYEE_SLUGS) ->
  manage_render_calls (loadManageList EMPLOYEE_SLUGS outcome schedule) =
    match EMPLOYEE_SLUGS with
    | [] => []
    | _ => [List.filter truthy (resolved EMPLOYEE_SLUGS outcome)]
    end
  /\ manage_view (loadManageList EMPLOYEE_SLUGS outcome schedule) =
       (if forallb createManageItem (List.filter truthy (resolved EMPLOYEE_SLUGS outcome))
        then shown_list (List.filter truthy (resolved EMPLOYEE_SLUGS outcome))
        else DirectoryBlank)
  /\ ((forall i v, i < length EMPLOYEE_SLUGS -> outcome i = Body v -> truthy v = true) ->
      List.filter truthy (resolved EMPLOYEE_SLUGS outcome) = resolved EMPLOYEE_SLUGS outcome)
  /\ (forall done rest, schedule = done ++ rest -> rest <> [] ->
        manage_render_calls (loadManageList EMPLOYEE_SLUGS outcome done) = []
        /\ manage_view (loadManageList EMPLOYEE_SLUGS outcome done) = DirectoryLoading).
Proof.
  intros Hp.
  destruct (loadManageList_settled EMPLOYEE_SLUGS outcome schedule Hp) as (Hr & Hv & _).
  split; [exact Hr|]. split; [exact Hv|]. split; [apply resolved_truthy|].
  intros done rest -> Hrest. now apply loadManageList_pending with (rest := rest).
Qed.

Lemma manage_order_preserved_witness :
  manage_render_calls (loadManageList ["a"; "b"; "c"] example_outcome [2; 1; 0]) =
    [[example_record "a"; example_record "c"]]
  /\ manage_view (loadManageList ["a"; "b"; "c"] example_outcome [2; 1; 0]) =
       DirectoryGrid [example_record "a"; example_record "c"]
  /\ manage_render_calls (loadManageList ["a"; "b"; "c"] example_outcome [2; 1]) = [].
Proof.
  assert (Hp : [2; 1; 0] ≡ₚ seq 0 (length ["a"; "b"; "c"])).
  { simpl. etransitivity; [apply perm_swap|]. etransitivity; [apply perm_skip, perm_swap|].
    apply perm_swap. }
  destruct (manage_order_preserved ["a"; "b"; "c"] example_outcome [2; 1; 0] Hp)
    as (Hr & Hv & _ & Hpending).
  split; [exact Hr|]. split; [exact Hv|].
  refine (proj1 (Hpending [2; 1] [0] eq_refl _)). discriminate.
Defined.

(** X18: what the order of completion changes.  For two completion orders
    of the same lookups, the directory ends with the same view, the same
    single call of the renderer and the same count of resolved lookups, and
    the management view ends with the same view and with the rendered list
    of the directory.  The console of either page holds the reports of the
    failed lookups in the order of completion, followed, when the renderer
    throws in the handler of a resolved lookup, by a report for that lookup,
    which is the one that settled last; the directory counts it as failed on
    top of the settled lookups.  Hence, when the cards of the rendered
    records can be built, the count of failed lookups does not depend on the
    order either, the console holds the same messages up to their order, and
    the management view shows and reports what the directory does. *)
Theorem completion_order_effects (EMPLOYEE_SLUGS : list string) (outcome : nat -> response)
    (schedule schedule' : list nat) :
  schedule ≡ₚ seq 0 (length EMPLOYEE_SLUGS) ->
  schedule' ≡ₚ seq 0 (length EMPLOYEE_SLUGS) ->
  view (loadDirectory EMPLOYEE_SLUGS outcome schedule)
    = view (loadDirectory EMPLOYEE_SLUGS outcome schedule')
  /\ render_calls (loadDirectory EMPLOYEE_SLUGS outcome schedule)
     = render_calls (loadDirectory EMPLOYEE_SLUGS outcome schedule')
  /\ loaded (loadDirectory EMPLOYEE_SLUGS outcome schedule)
     = loaded (loadDirectory EMPLOYEE_SLUGS outcome schedule')
  /\ manage_view (loadManageList EMPLOYEE_SLUGS outcome schedule)
     = manage_view (loadManageList EMPLOYEE_SLUGS outcome schedule')
  /\ manage_render_calls (loadManageList EMPLOYEE_SLUGS outcome schedule)
     = render_calls (loadDirectory EMPLOYEE_SLUGS outcome schedule')
  /\ console (loadDirectory EMPLOYEE_SLUGS outcome schedule)
     = omap (failure_report EMPLOYEE_SLUGS outcome) schedule
         ++ render_report createEmployeeCard EMPLOYEE_SLUGS outcome schedule
  /\ manage_console (loadManageList EMPLOYEE_SLUGS outcome schedule)
     = omap (failure_report EMPLOYEE_SLUGS outcome) schedule
         ++ render_report createManageItem EMPLOYEE_SLUGS outcome schedule
  /\ (EMPLOYEE_SLUGS <> [] ->
      loaded (loadDirectory EMPLOYEE_SLUGS outcome schedule)
        + failed (loadDirectory EMPLOYEE_SLUGS outcome schedule)
      = length EMPLOYEE_SLUGS
          + length (render_report createEmployeeCard EMPLOYEE_SLUGS outcome schedule))
  /\ (forallb createEmployeeCard (List.filter truthy (resolved EMPLOYEE_SLUGS outcome)) = true ->
      failed (loadDirectory EMPLOYEE_SLUGS outcome schedule)
        = failed (loadDirectory EMPLOYEE_SLUGS outcome schedule')
      /\ console (loadDirectory EMPLOYEE_SLUGS outcome schedule)
         ≡ₚ console (loadDirectory EMPLOYEE_SLUGS outcome schedule')
      /\ manage_view (loadManageList EMPLOYEE_SLUGS outcome schedule)
         = view (loadDirectory EMPLOYEE_SLUGS outcome schedule')
      /\ manage_console (loadManageList EMPLOYEE_SLUGS outcome schedule)
         = console (loadDirectory EMPLOYEE_SLUGS outcome schedule)).
Proof.
  intros Hp Hp'.
  destruct (loadDirectory_settled EMPLOYEE_SLUGS outcome schedule Hp) as (Dr & Dv & Dl & Dc & Dk).
  destruct (loadDirectory_settled EMPLOYEE_SLUGS outcome schedule' Hp')
    as (Dr' & Dv' & Dl' & Dc' & Dk').
  destruct (loadManageList_settled EMPLOYEE_SLUGS outcome schedule Hp) as (Mr & Mv & _ & Mk).
  destruct (loadManageList_settled EMPLOYEE_SLUGS outcome schedule' Hp') as (_ & Mv' & _).
  cbv zeta in *.
  split; [now rewrite Dv, Dv'|]. split; [now rewrite Dr, Dr'|].
  split.
  { destruct EMPLOYEE_SLUGS as [|s0 more] eqn:E.
    - simpl in Hp, Hp'. apply Permutation_sym, Permutation_nil in Hp, Hp'. now subst.
    - rewrite Dl, Dl' by discriminate. reflexivity. }
  split; [now rewrite Mv, Mv'|]. split; [now rewrite Mr, Dr'|].
  split; [exact Dk|]. split; [exact Mk|]. split; [exact Dc|].
  intros Hb. pose proof (cards_items _ Hb) as Hi.
  rewrite (render_report_none _ _ _ _ Hb) in Dc, Dk.
  rewrite (render_report_none _ _ _ _ Hb) in Dc', Dk'.
  rewrite (render_report_none _ _ _ _ Hi) in Mk.
  rewrite app_nil_r in Dk, Dk', Mk.
  split.
  { destruct EMPLOYEE_SLUGS as [|s0 more] eqn:E.
    - simpl in Hp, Hp'. apply Permutation_sym, Permutation_nil in Hp, Hp'. now subst.
    - assert (Hne : s0 :: more <> []) by discriminate.
      specialize (Dl Hne). specialize (Dl' Hne). specialize (Dc Hne). specialize (Dc' Hne).
      cbn [length] in Dc, Dc'. lia. }
  split; [now rewrite Dk, Dk', Hp, Hp'|].
  split; [rewrite Mv, Dv'; now rewrite !painted_builds|].
  now rewrite Mk, Dk.
Qed.

Lemma completion_order_effects_witness :
  view (loadDirectory ["a"; "b"; "c"] example_outcome [1; 0; 2])
    = view (loadDirectory ["a"; "b"; "c"] example_outcome [0; 1; 2])
  /\ manage_view (loadManageList ["a"; "b"; "c"] example_outcome [1; 0; 2])
     = view (loadDirectory ["a"; "b"; "c"] example_outcome [0; 1; 2])
  /\ console (loadDirectory ["a"; "b"; "c"] unconvertible_outcome [1; 0; 2])
     = ["Failed to load b"; "Failed to load c"]
  /\ console (loadDirectory ["a"; "b"; "c"] unconvertible_outcome [2; 0; 1])
     = ["Failed to load b"].
Proof.
  destruct (completion_order_effects ["a"; "b"; "c"] example_outcome [1; 0; 2] [0; 1; 2])
    as (Hv & _ & _ & _ & _ & _ & _ & _ & Hb).
  - simpl. apply perm_swap.
  - reflexivity.
  - split; [exact Hv|]. split; [exact (proj1 (proj2 (proj2 (Hb eq_refl))))|].
    split.
    + refine (proj1 (proj2 (proj2 (proj2 (proj2 (proj2
                (completion_order_effects ["a"; "b"; "c"] unconvertible_outcome
                   [1; 0; 2] [0; 1; 2] _ _))))))).
      * simpl. apply perm_swap.
      * reflexivity.
    + refine (proj1 (proj2 (proj2 (proj2 (proj2 (proj2
                (completion_order_effects ["a"; "b"; "c"] unconvertible_outcome
                   [2; 0; 1] [0; 1; 2] _ _))))))).
      * simpl. etransitivity; [apply perm_swap|]. apply perm_skip, perm_swap.
      * reflexivity.
Defined.

(** ** When every lookup fails *)

Lemma omap_ext_In {A B} (f g : A -> option B) (l : list A) :
  (forall x, In x l -> f x = g x) -> omap f l = omap g l.
Proof.
  induction l as [|x l IH]; intros H; [reflexivity|].
  cbn [omap list_omap]. rewrite (H x) by now left.
  rewrite IH; [reflexivity|]. intros y Hy. apply H. now right.
Qed.

Lemma omap_lookup_seq {A B} (g : A -> B) (l : list A) : forall k,
  omap (fun i => g <$> l !! (i - k)) (seq k (length l)) = map g l.
Proof.
  induction l as [|x l IH]; intros k; [reflexivity|].
  cbn [length seq omap list_omap map]. rewrite Nat.sub_diag. cbn. f_equal.
  rewrite <- (IH (S k)). apply omap_ext_In. intros i Hi.
  apply in_seq in Hi. now replace (i - k) with (S (i - S k)) by lia.
Qed.

Lemma resolved_none EMPLOYEE_SLUGS outcome :
  (forall i, i < length EMPLOYEE_SLUGS -> fulfilled (outcome i) = None) ->
  resolved EMPLOYEE_SLUGS outcome = [].
Proof.
  intros H. unfold resolved.
  rewrite (omap_ext_In _ (fun _ => None)).
  - induction (seq 0 (length EMPLOYEE_SLUGS)); [reflexivity | assumption].
  - intros i Hi. apply in_seq in Hi. apply H. lia.
Qed.

Lemma failure_reports_all EMPLOYEE_SLUGS outcome :
  (forall i, i < length EMPLOYEE_SLUGS -> fulfilled (outcome i) = None) ->
  omap (failure_report EMPLOYEE_SLUGS outcome) (seq 0 (length EMPLOYEE_SLUGS))
    = map (fun slug => "Failed to load " +:+ slug) EMPLOYEE_SLUGS.
Proof.
  intros H. rewrite <- (omap_lookup_seq _ EMPLOYEE_SLUGS 0).
  apply omap_ext_In. intros i Hi. apply in_seq in Hi.
  unfold failure_report. rewrite H by lia. now rewrite Nat.sub_0_r.
Qed.

(** X19: when every lookup fails, the directory and the management view end
    up showing the empty message, exactly as with an empty identifier
    sequence: no error is shown on the page.  The failures are only reported
    on the console, one message per slug, in the order of completion. *)
Theorem all_lookups_fail (EMPLOYEE_SLUGS : list string) (outcome : nat -> response)
    (schedule : list nat) :
  schedule ≡ₚ seq 0 (length EMPLOYEE_SLUGS) ->
  (forall i, i < length EMPLOYEE_SLUGS -> fulfilled (outcome i) = None) ->
  view (loadDirectory EMPLOYEE_SLUGS outcome schedule) = DirectoryEmpty
  /\ manage_view (loadManageList EMPLOYEE_SLUGS outcome schedule) = DirectoryEmpty
  /\ view (loadDirectory EMPLOYEE_SLUGS outcome schedule) = view (loadDirectory [] outcome [])
  /\ console (loadDirectory EMPLOYEE_SLUGS outcome schedule)
     ≡ₚ map (fun slug => "Failed to load " +:+ slug) EMPLOYEE_SLUGS
  /\ manage_console (loadManageList EMPLOYEE_SLUGS outcome schedule)
     ≡ₚ map (fun slug => "Failed to load " +:+ slug) EMPLOYEE_SLUGS.
Proof.
  intros Hp Hfail.
  destruct (loadDirectory_settled EMPLOYEE_SLUGS outcome schedule Hp) as (_ & Dv & _ & _ & Dk).
  destruct (loadManageList_settled EMPLOYEE_SLUGS outcome schedule Hp) as (_ & Mv & _ & Mk).
  cbv zeta in *. unfold render_report in Dk, Mk.
  rewrite (resolved_none _ _ Hfail) in Dv, Mv, Dk, Mk.
  cbn [List.filter forallb] in Dk, Mk. rewrite app_nil_r in Dk, Mk.
  split; [exact Dv|]. split; [exact Mv|]. split; [now rewrite Dv|].
  rewrite Dk, Mk, Hp, failure_reports_all by exact Hfail. split; reflexivity.
Qed.

Lemma all_lookups_fail_witness :
  view (loadDirectory ["a"; "b"] failing_outcome [1; 0]) = DirectoryEmpty
  /\ console (loadDirectory ["a"; "b"] failing_outcome [1; 0])
     ≡ₚ ["Failed to load a"; "Failed to load b"].
Proof.
  destruct (all_lookups_fail ["a"; "b"] failing_outcome [1; 0]) as (Hv & _ & _ & Hk & _).
  - simpl. apply perm_swap.
  - intros [|[|i]] Hi; reflexivity.
  - split; [exact Hv | exact Hk].
Defined.

(** ** A record that cannot be rendered *)

Lemma renderProfile_null : renderProfile JNull = None.
Proof. reflexivity. Qed.

Lemma renderProfile_media_text v c s :
  property v "media" = Some (JString (String c s)) -> renderProfile v = None.
Proof.
  intros H. unfold renderProfile. rewrite H. cbn [renderProfile_gallery Js.truthy_string negb].
  rewrite andb_false_r. now destruct v.
Qed.

Lemma renderProfile_unconvertible v key :
  In key ["slug"; "headshot"; "firstName"; "lastName"; "title"; "department"; "email";
          "bioHtml"] ->
  converts v key = false -> renderProfile v = None.
Proof.
  intros Hin Hkey. unfold renderProfile.
  assert (Hcond :
    forallb (converts v)
      ["slug"; "headshot"; "firstName"; "lastName"; "title"; "department"; "email"]
    && converts v "bioHtml" = false).
  { cbn [forallb]. cbn [In] in Hin.
    repeat (destruct Hin as [<-|Hin];
            [rewrite Hkey; rewrite ?andb_false_r, ?andb_false_l; reflexivity|]).
    contradiction. }
  destruct (forallb (converts v) _) eqn:Hall.
  - cbn [andb] in Hcond. rewrite Hcond, !andb_false_r, ?andb_false_l.
    destruct v; try reflexivity.
    all: now rewrite ?andb_false_r.
  - now destruct v.
Qed.

(** X20: a record that is fetched but that [renderProfile] cannot paint
    ends in the "Employee not found" state with the requested slug, the
    state of a missing record: the handler chained after the rendering
    catches what the rendering throws.  This is the case of a record file
    that holds the JSON value [null], of a record whose [media] is a text
    that is not empty, and of a record whose slug, headshot, first name,
    last name, title, department, email or bio cannot be converted to a
    string. *)
Theorem profile_unrenderable_record (search : list (string * string))
    (server : string -> response) (slug : string) (v : json) :
  getQueryParam search "person" = Some slug -> slug <> "" ->
  server (record_url slug) = Body v ->
  v = JNull
  \/ (exists c s, property v "media" = Some (JString (String c s)))
  \/ (exists key,
        In key ["slug"; "headshot"; "firstName"; "lastName"; "title"; "department"; "email";
                "bioHtml"]
        /\ converts v key = false) ->
  initProfilePage search server =
    ProfileState [record_url slug] (ProfileError ("Employee not found: " +:+ slug))
  /\ initProfilePage search server = initProfilePage search (fun _ => HttpError 404).
Proof.
  intros H Hne Hbody Hcase.
  assert (Hthrows : renderProfile v = None).
  { destruct Hcase as [->|[(c & s & Hm)|(key & Hin & Hkey)]].
    - apply renderProfile_null.
    - now apply renderProfile_media_text with (c := c) (s := s).
    - now apply renderProfile_unconvertible with (key := key). }
  unfold initProfilePage. rewrite H.
  destruct slug as [|c s]; [congruence|]. cbn [Js.truthy_value Js.truthy_string].
  unfold loadProfile. rewrite Hbody. cbn [fetchJson]. rewrite Hthrows. split; reflexivity.
Qed.

Lemma profile_unrenderable_record_witness :
  initProfilePage [("person", "jane-doe")] (fun _ => Body JNull) =
    ProfileState ["/employee-cards/jane-doe/data.json"]
      (ProfileError "Employee not found: jane-doe")
  /\ initProfilePage [("person", "jane-doe")]
       (fun _ => Body (JObject [("slug", JString "jane-doe"); ("media", JString "a.png")])) =
     ProfileState ["/employee-cards/jane-doe/data.json"]
       (ProfileError "Employee not found: jane-doe")
  /\ initProfilePage [("person", "jane-doe")] (fun _ => Body unconvertible_record) =
     ProfileState ["/employee-cards/jane-doe/data.json"]
       (ProfileError "Employee not found: jane-doe").
Proof.
  split; [|split].
  - refine (proj1 (profile_unrenderable_record [("person", "jane-doe")] (fun _ => Body JNull)
                     "jane-doe" JNull eq_refl _ eq_refl _)); [discriminate | now left].
  - refine (proj1 (profile_unrenderable_record [("person", "jane-doe")]
                     (fun _ => Body (JObject [("slug", JString "jane-doe");
                                              ("media", JString "a.png")]))
                     "jane-doe" _ eq_refl _ eq_refl _)); [discriminate|].
    right. left. now exists "a"%char, ".png".
  - refine (proj1 (profile_unrenderable_record [("person", "jane-doe")]
                     (fun _ => Body unconvertible_record)
                     "jane-doe" _ eq_refl _ eq_refl _)); [discriminate|].
    right. right. exists "slug". split; [now left | reflexivity].
Defined.
